(** * Credit payment schedules and key-rate averaging

    A shallow embedding of the schedule generator
    ([backend/app/routers/credits.py]), of the payment period model
    ([backend/app/models/payment_schedule.py]) and of the key-rate store and
    its queries ([backend/app/models/cbr_key_rate.py],
    [backend/app/services/cbr_service.py]), with the properties the
    specification states about them. *)

From Stdlib Require Import String.
From Stdlib Require Import ZArith List Lia Bool Permutation Sorted.
From Stdlib Require Import QArith Qcanon Field.
From Stdlib Require Import PrimFloat Uint63.
Import ListNotations.

Local Open Scope Z_scope.

(** ** Python exceptions *)

(** The exceptions the embedded code can raise.  [ValueError] covers its
    subclass [calendar.IllegalMonthError]; [Exception_] is a bare
    [Exception(msg)]; [HTTPException] carries the status code. *)
Inductive exn : Type :=
| ValueError
| NameError (name : string)
| Exception_ (msg : string)
| HTTPException (status : Z).

Inductive result (A : Type) : Type :=
| Ok (a : A)
| Raise (e : exn).

Arguments Ok {A} a.
Arguments Raise {A} e.

Definition bind {A B : Type} (r : result A) (k : A -> result B) : result B :=
  match r with
  | Ok a => k a
  | Raise e => Raise e
  end.

Notation "x <- r ;; k" := (bind r (fun x => k))
  (at level 61, r at next level, right associativity).

(** [try: body / except ValueError: handler] *)
Definition except_ValueError {A : Type} (body : result A) (handler : result A)
  : result A :=
  match body with
  | Raise ValueError => handler
  | other => other
  end.

(** ** Python numbers

    The amounts and rates of the program are Python floats, mixed with
    ints.  The code is embedded over an interface of the operations it
    uses, with two instances: IEEE binary64 ([float], what CPython
    computes) and exact rationals ([Qc], the arithmetic the specification
    reasons in). *)
Class Number (R : Type) : Type := {
  num_of_Z : Z -> R;            (* int -> float *)
  num_add : R -> R -> R;
  num_sub : R -> R -> R;
  num_mul : R -> R -> R;
  num_div : R -> R -> R;
  num_truthy : R -> bool        (* bool(x), that is x != 0 *)
}.

(** [float(z)], through the 63-bit integers: exact for the day counts and
    the constants of the program. *)
Definition float_of_Z (z : Z) : float :=
  if z <? 0 then PrimFloat.opp (PrimFloat.of_uint63 (Uint63.of_Z (- z)))
  else PrimFloat.of_uint63 (Uint63.of_Z z).

#[export] Instance Number_float : Number float := {
  num_of_Z := float_of_Z;
  num_add := PrimFloat.add;
  num_sub := PrimFloat.sub;
  num_mul := PrimFloat.mul;
  num_div := PrimFloat.div;
  num_truthy x := negb (PrimFloat.eqb x PrimFloat.zero)
}.

#[export] Instance Number_Qc : Number Qc := {
  num_of_Z z := Q2Qc (inject_Z z);
  num_add := Qcplus;
  num_sub := Qcminus;
  num_mul := Qcmult;
  num_div := Qcdiv;
  num_truthy x := negb (Qc_eq_bool x (Q2Qc 0))
}.

(** ** Naive datetimes *)

Module DateTime.

(** A [datetime.datetime] as CPython stores it; [tod] stands for the four
    fields hour, minute, second and microsecond, as microseconds since
    midnight. *)
Record datetime : Type := mk_datetime {
  year : Z;
  month : Z;
  day : Z;
  tod : Z
}.

Definition MINYEAR : Z := 1.
Definition MAXYEAR : Z := 9999.
Definition US_PER_DAY : Z := 86400000000.

Definition is_leap (y : Z) : bool :=
  (y mod 4 =? 0) && (negb (y mod 100 =? 0) || (y mod 400 =? 0)).

Definition days_in_month (y m : Z) : Z :=
  if m =? 2 then (if is_leap y then 29 else 28)
  else if (m =? 4) || (m =? 6) || (m =? 9) || (m =? 11) then 30
  else 31.

(** [calendar.monthrange(year, month)[1]]; a month outside 1..12 raises
    [IllegalMonthError]. *)
Definition monthrange_days (y m : Z) : result Z :=
  if (1 <=? m) && (m <=? 12) then Ok (days_in_month y m) else Raise ValueError.

Definition days_before_year (y : Z) : Z :=
  let p := y - 1 in p * 365 + p / 4 - p / 100 + p / 400.

Fixpoint days_before_month_aux (y : Z) (n : nat) : Z :=
  match n with
  | O => 0
  | S k => days_before_month_aux y k + days_in_month y (Z.of_nat n)
  end.

(** Days of the year before the first day of month [m]. *)
Definition days_before_month (y m : Z) : Z :=
  days_before_month_aux y (Z.to_nat (m - 1)).

Definition toordinal (d : datetime) : Z :=
  days_before_year (year d) + days_before_month (year d) (month d) + day d.

(** Position on the time line, in microseconds. *)
Definition instant (d : datetime) : Z := toordinal d * US_PER_DAY + tod d.

Definition valid_date (y m d : Z) : bool :=
  (MINYEAR <=? y) && (y <=? MAXYEAR) && (1 <=? m) && (m <=? 12)
  && (1 <=? d) && (d <=? days_in_month y m).

Definition valid (d : datetime) : bool :=
  valid_date (year d) (month d) (day d) && (0 <=? tod d) && (tod d <? US_PER_DAY).

(** [d.replace(year=y, month=m, day=dd)]: the time of day is kept, an
    impossible date raises [ValueError]. *)
Definition replace (d : datetime) (y m dd : Z) : result datetime :=
  if valid_date y m dd then Ok (mk_datetime y m dd (tod d)) else Raise ValueError.

(** Comparison of naive datetimes is chronological: on valid datetimes it
    is the comparison of the fields ([ltb_is_lexicographic],
    [eqb_is_equality] below). *)
Definition ltb (a b : datetime) : bool := instant a <? instant b.
Definition leb (a b : datetime) : bool := instant a <=? instant b.
Definition gtb (a b : datetime) : bool := ltb b a.
Definition geb (a b : datetime) : bool := leb b a.
Definition eqb (a b : datetime) : bool := instant a =? instant b.

(** The comparison as CPython performs it, field after field. *)
Definition lex_ltb (a b : datetime) : bool :=
  (year a <? year b)
  || ((year a =? year b)
      && ((month a <? month b)
          || ((month a =? month b)
              && ((day a <? day b) || ((day a =? day b) && (tod a <? tod b)))))).

(** [max(a, b)] and [min(a, b)] return the first argument on a tie. *)
Definition max (a b : datetime) : datetime := if gtb b a then b else a.
Definition min (a b : datetime) : datetime := if ltb b a then b else a.

(** [(a - b).days]: a [timedelta] is normalised with 0 <= seconds, so
    its [days] is the floor. *)
Definition sub_days (a b : datetime) : Z := (instant a - instant b) / US_PER_DAY.

(** The calendar date [y]-[m]-[d] at midnight. *)
Definition ymd (y m d : Z) : datetime := mk_datetime y m d 0.

End DateTime.

Import DateTime.

(** ** Query helpers

    A table is the list of its rows in primary-key order.  [ORDER BY] is a
    stable insertion sort: rows with equal keys keep the table order, and
    where no two rows share a key the result does not depend on that
    choice.  [.first()] is the head of the result. *)
Section Queries.
Context {A : Type}.

Fixpoint insert_by (key_le : A -> A -> bool) (x : A) (l : list A) : list A :=
  match l with
  | [] => [x]
  | y :: l' => if key_le x y then x :: l else y :: insert_by key_le x l'
  end.

Definition order_by (key_le : A -> A -> bool) (rows : list A) : list A :=
  fold_right (insert_by key_le) [] rows.

Definition first (rows : list A) : option A := hd_error rows.

(** Overwrite, in place, the first row that satisfies [p]. *)
Fixpoint update_first (p : A -> bool) (f : A -> A) (rows : list A) : list A :=
  match rows with
  | [] => []
  | r :: rows' => if p r then f r :: rows' else r :: update_first p f rows'
  end.
End Queries.

Section Engine.
Context {R : Type} {num : Number R}.

(** *** models/cbr_key_rate.py *)

(** [date] is the announcement date.  The columns [id], [created_at] and
    [updated_at] play no part in the queries and are left out. *)
Record CBRKeyRate : Type := mk_CBRKeyRate {
  date : datetime;
  effective_date : datetime;
  rate : R
}.

Definition effective_asc (a b : CBRKeyRate) : bool :=
  DateTime.leb (effective_date a) (effective_date b).
Definition effective_desc (a b : CBRKeyRate) : bool :=
  DateTime.geb (effective_date a) (effective_date b).

(** [CBRKeyRate.get_latest_rate] *)
Definition get_latest_rate (cbr_key_rates : list CBRKeyRate) : option CBRKeyRate :=
  first (order_by effective_desc cbr_key_rates).

(** [CBRKeyRate.get_rate_on_date] *)
Definition get_rate_on_date (cbr_key_rates : list CBRKeyRate) (target_date : datetime)
  : option CBRKeyRate :=
  first (order_by effective_desc
           (filter (fun r => DateTime.leb (effective_date r) target_date)
                   cbr_key_rates)).

(** *** services/cbr_service.py *)

(** One parsed record of a fetcher: the dict with keys ['date'],
    ['effective_date'] and ['rate']. *)
Record RateData : Type := mk_RateData {
  rd_date : datetime;
  rd_effective_date : datetime;
  rd_rate : R
}.

(** What the three CBR sources answered; a source that fails answers
    the empty list. *)
Record Fetched : Type := mk_Fetched {
  soap : list RateData;
  rest : list RateData;
  xml : list RateData
}.

Definition nonempty {X : Type} (l : list X) : bool :=
  match l with [] => false | _ :: _ => true end.

Definition in_range (start_date end_date : datetime) (rd : RateData) : bool :=
  DateTime.leb start_date (rd_date rd) && DateTime.leb (rd_date rd) end_date.

(** The cascade over the sources at the head of [update_key_rates]. *)
Definition fetch_cascade (f : Fetched) (start_date end_date : datetime) : list RateData :=
  let key_rates := soap f in
  let key_rates :=
    if nonempty key_rates then key_rates
    else
      let key_rates := rest f in
      if nonempty key_rates then filter (in_range start_date end_date) key_rates
      else key_rates in
  if nonempty key_rates then key_rates
  else
    let key_rates := xml f in
    if nonempty key_rates then filter (in_range start_date end_date) key_rates
    else key_rates.

Definition same_date (rate_data : RateData) (r : CBRKeyRate) : bool :=
  DateTime.eqb (date r) (rd_date rate_data).

Definition overwrite (rate_data : RateData) (existing_rate : CBRKeyRate) : CBRKeyRate :=
  mk_CBRKeyRate (date existing_rate) (rd_effective_date rate_data) (rd_rate rate_data).

(** The loop of [update_key_rates].  The session is created with
    [autoflush=False] (app/database.py), so the query of an iteration sees
    the rows of the table, whose attribute changes are kept by the identity
    map, and not the rows added earlier in the same call: those are
    [pending] until the commit. *)
Fixpoint upsert_loop (key_rates : list RateData)
         (table pending : list CBRKeyRate) (updated_count : Z)
  : list CBRKeyRate * list CBRKeyRate * Z :=
  match key_rates with
  | [] => (table, pending, updated_count)
  | rate_data :: key_rates' =>
      match first (filter (same_date rate_data) table) with
      | Some _ =>
          upsert_loop key_rates'
            (update_first (same_date rate_data) (overwrite rate_data) table)
            pending (updated_count + 1)
      | None =>
          upsert_loop key_rates' table
            (pending ++ [mk_CBRKeyRate (rd_date rate_data)
                                       (rd_effective_date rate_data)
                                       (rd_rate rate_data)])
            (updated_count + 1)
      end
  end.

(** The second half of [update_key_rates], from [updated_count = 0] to
    the [return]: the loop, then the commit, which adds the pending rows
    to the table. *)
Definition upsert_rates (key_rates : list RateData) (cbr_key_rates : list CBRKeyRate)
  : list CBRKeyRate * Z :=
  let '(table, pending, updated_count) := upsert_loop key_rates cbr_key_rates [] 0 in
  (table ++ pending, updated_count).

Definition fetch_failed : string :=
  "Unable to fetch historical key rate data from CBR. Please check internet connection and CBR API availability.".

(** [CBRService.update_key_rates]: the table after the call and the count
    returned.  [start_date] and [end_date] are the bounds the function
    computes from the clock, [now - days_back] and [now]. *)
Definition update_key_rates (cbr_key_rates : list CBRKeyRate) (f : Fetched)
           (start_date end_date : datetime)
  : result (list CBRKeyRate * Z) :=
  let key_rates := fetch_cascade f start_date end_date in
  if negb (nonempty key_rates) then Raise (Exception_ fetch_failed)
  else Ok (upsert_rates key_rates cbr_key_rates).

(** [CBRService.get_current_key_rate] *)
Definition get_current_key_rate (cbr_key_rates : list CBRKeyRate) : option R :=
  option_map rate (get_latest_rate cbr_key_rates).

(** [CBRService.get_key_rate_on_date] *)
Definition get_key_rate_on_date (cbr_key_rates : list CBRKeyRate) (target_date : datetime)
  : option R :=
  option_map rate (get_rate_on_date cbr_key_rates target_date).

(** The [for i, rate in enumerate(rates)] loop of
    [get_average_key_rate_for_period]; [rates[i + 1]] is the head of the
    remaining list. *)
Fixpoint weigh_rates (rates : list CBRKeyRate) (start_date end_date : datetime)
         (weighted_sum : R) (total_weight : Z) : R * Z :=
  match rates with
  | [] => (weighted_sum, total_weight)
  | r :: rates' =>
      let rate_start := DateTime.max (effective_date r) start_date in
      let rate_end :=
        match rates' with
        | next :: _ => DateTime.min (effective_date next) end_date
        | [] => end_date
        end in
      let days_effective := sub_days rate_end rate_start in
      if days_effective >? 0
      then weigh_rates rates' start_date end_date
             (num_add weighted_sum (num_mul (rate r) (num_of_Z days_effective)))
             (total_weight + days_effective)
      else weigh_rates rates' start_date end_date weighted_sum total_weight
  end.

Definition in_period (start_date end_date : datetime) (r : CBRKeyRate) : bool :=
  DateTime.geb (effective_date r) start_date && DateTime.leb (effective_date r) end_date.

(** [CBRService.get_average_key_rate_for_period] *)
Definition get_average_key_rate_for_period (cbr_key_rates : list CBRKeyRate)
           (start_date end_date : datetime) : option R :=
  let rates := order_by effective_asc
                 (filter (in_period start_date end_date) cbr_key_rates) in
  match rates with
  | [] => option_map rate (get_rate_on_date cbr_key_rates start_date)
  | rates_0 :: _ =>
      let total_days := sub_days end_date start_date in
      if total_days =? 0 then Some (rate rates_0)
      else
        let '(weighted_sum, total_weight) :=
          weigh_rates rates start_date end_date (num_of_Z 0) 0 in
        let '(weighted_sum, total_weight) :=
          if DateTime.gtb (effective_date rates_0) start_date then
            match get_rate_on_date cbr_key_rates start_date with
            | Some pre_period_rate =>
                let days_before_first_rate :=
                  sub_days (effective_date rates_0) start_date in
                (num_add weighted_sum
                   (num_mul (rate pre_period_rate) (num_of_Z days_before_first_rate)),
                 total_weight + days_before_first_rate)
            | None => (weighted_sum, total_weight)
            end
          else (weighted_sum, total_weight) in
        if total_weight =? 0 then None
        else Some (num_div weighted_sum (num_of_Z total_weight))
  end.

(** *** models/credit_obligation.py *)

Inductive PaymentFrequency : Type := MONTHLY | QUARTERLY | SEMI_ANNUAL | ANNUAL.
Inductive PaymentType : Type := ANNUITY | DIFFERENTIATED | BULLET | INTEREST_ONLY.

(** The value held by [credit.payment_frequency]: a member of the enum,
    or any other Python value (shown by its text). *)
Inductive FrequencyValue : Type :=
| Frequency (f : PaymentFrequency)
| NotAFrequency (raw : string).

Record CreditObligation : Type := mk_CreditObligation {
  credit_id : Z;
  credit_name : string;
  principal : R;                      (* principal_amount *)
  start_date : datetime;
  end_date : datetime;
  base_rate_indicator : string;
  base_rate_value : R;
  credit_spread : R;
  payment_frequency : FrequencyValue;
  payment_type : PaymentType
}.

(** *** models/payment_schedule.py *)

(** The nullable columns are options.  [id], [notes], [created_at] and
    [updated_at] are left out. *)
Record PaymentSchedule : Type := mk_PaymentSchedule {
  credit_obligation_id : Z;
  period_start_date : datetime;
  period_end_date : datetime;
  payment_date : datetime;
  principal_amount : R;
  interest_amount : option R;
  total_payment : option R;
  period_days : option Z;
  period_number : Z;
  interest_rate : option R;
  base_rate : option R;
  spread : option R
}.

Definition set_period_days (v : option Z) (p : PaymentSchedule) : PaymentSchedule :=
  mk_PaymentSchedule (credit_obligation_id p) (period_start_date p) (period_end_date p)
    (payment_date p) (principal_amount p) (interest_amount p) (total_payment p)
    v (period_number p) (interest_rate p) (base_rate p) (spread p).

Definition set_interest_amount (v : option R) (p : PaymentSchedule) : PaymentSchedule :=
  mk_PaymentSchedule (credit_obligation_id p) (period_start_date p) (period_end_date p)
    (payment_date p) (principal_amount p) v (total_payment p)
    (period_days p) (period_number p) (interest_rate p) (base_rate p) (spread p).

Definition set_total_payment (v : option R) (p : PaymentSchedule) : PaymentSchedule :=
  mk_PaymentSchedule (credit_obligation_id p) (period_start_date p) (period_end_date p)
    (payment_date p) (principal_amount p) (interest_amount p) v
    (period_days p) (period_number p) (interest_rate p) (base_rate p) (spread p).

Definition set_interest_rate (v : option R) (p : PaymentSchedule) : PaymentSchedule :=
  mk_PaymentSchedule (credit_obligation_id p) (period_start_date p) (period_end_date p)
    (payment_date p) (principal_amount p) (interest_amount p) (total_payment p)
    (period_days p) (period_number p) v (base_rate p) (spread p).

Definition set_base_rate (v : option R) (p : PaymentSchedule) : PaymentSchedule :=
  mk_PaymentSchedule (credit_obligation_id p) (period_start_date p) (period_end_date p)
    (payment_date p) (principal_amount p) (interest_amount p) (total_payment p)
    (period_days p) (period_number p) (interest_rate p) v (spread p).

(** Truth value of a nullable float and of a nullable int. *)
Definition truthy_float (o : option R) : bool :=
  match o with Some x => num_truthy x | None => false end.
Definition truthy_int (o : option Z) : bool :=
  match o with Some n => negb (n =? 0) | None => false end.

(** [PaymentSchedule.calculate_period_days] *)
Definition calculate_period_days (start_date end_date : datetime) : Z :=
  sub_days end_date start_date.

(** [PaymentSchedule.calculate_interest_amount] *)
Definition calculate_interest_amount (principal rate : R) (days : Z) : R :=
  num_mul (num_mul principal (num_div rate (num_of_Z 100)))
          (num_div (num_of_Z days) (num_of_Z 365)).

(** [PaymentSchedule.calculate_financials].  The first test,
    [period_start_date and period_end_date], holds: a datetime is true. *)
Definition calculate_financials (self : PaymentSchedule) : PaymentSchedule :=
  let self :=
    set_period_days
      (Some (calculate_period_days (period_start_date self) (period_end_date self)))
      self in
  let self :=
    match interest_rate self, period_days self with
    | Some rate, Some days =>
        if num_truthy (principal_amount self) && num_truthy rate && negb (days =? 0)
        then set_interest_amount
               (Some (calculate_interest_amount (principal_amount self) rate days)) self
        else self
    | _, _ => self
    end in
  if num_truthy (principal_amount self) && truthy_float (interest_amount self)
  then set_total_payment (interest_amount self) self
  else self.

(** [PaymentSchedule.recalculate_with_historical_rates]: the period after
    the call and how the call ended.  [current_date] is the clock reading
    [datetime.now()].  The module has no name [logger] (it imports
    [Column ...], [relationship], [datetime], [enum] and [Base] only), so
    the statement [logger.warning(...)] of the no-data branch raises
    [NameError].  The leading test on the two dates is passed: a datetime
    is true. *)
Definition recalculate_with_historical_rates (self : PaymentSchedule)
           (cbr_key_rates : list CBRKeyRate) (current_date : datetime)
           (base_rate_indicator : string) (credit_spread : R)
  : PaymentSchedule * result unit :=
  let recalculate_interest (self : PaymentSchedule) (total_rate : R) :=
    match period_days self with
    | Some days =>
        if num_truthy (principal_amount self) && negb (days =? 0)
        then
          let self :=
            set_interest_amount
              (Some (calculate_interest_amount (principal_amount self) total_rate days))
              self in
          set_total_payment (interest_amount self) self
        else self
    | None => self
    end in
  if String.eqb base_rate_indicator "KEY_RATE" then
    if DateTime.gtb (period_start_date self) current_date then
      match get_current_key_rate cbr_key_rates with
      | Some current_rate =>
          let self := set_base_rate (Some current_rate) self in
          let self := set_interest_rate (Some (num_add current_rate credit_spread)) self in
          (recalculate_interest self (num_add current_rate credit_spread), Ok tt)
      | None => (self, Ok tt)
      end
    else
      match get_average_key_rate_for_period cbr_key_rates
              (period_start_date self) (period_end_date self) with
      | Some average_base_rate =>
          let self := set_base_rate (Some average_base_rate) self in
          let self :=
            set_interest_rate (Some (num_add average_base_rate credit_spread)) self in
          (recalculate_interest self (num_add average_base_rate credit_spread), Ok tt)
      | None => (self, Raise (NameError "logger"))
      end
  else (self, Ok tt).

(** *** routers/credits.py *)

(** The try body of [get_base_rate_value]. *)
Definition get_base_rate_value_try (base_rate_indicator : string)
           (cbr_key_rates : list CBRKeyRate) : result R :=
  if String.eqb base_rate_indicator "KEY_RATE" then
    match get_current_key_rate cbr_key_rates with
    | Some current_rate => Ok current_rate
    | None => Ok (num_of_Z 16)                                  (* 16.0 *)
    end
  else if String.eqb base_rate_indicator "LIBOR" then
    Ok (num_of_Z 5)                                             (* 5.0 *)
  else if String.eqb base_rate_indicator "SOFR" then
    Ok (num_div (num_of_Z 45) (num_of_Z 10))                    (* 4.5 *)
  else Ok (num_of_Z 16).                                        (* 16.0 *)

(** [get_base_rate_value]: [except Exception] answers 16.0. *)
Definition get_base_rate_value (base_rate_indicator : string)
           (cbr_key_rates : list CBRKeyRate) : R :=
  match get_base_rate_value_try base_rate_indicator cbr_key_rates with
  | Ok v => v
  | Raise _ => num_of_Z 16
  end.

(** [period_increment.get(credit.payment_frequency, 1)] *)
Definition month_increment_of (v : FrequencyValue) : Z :=
  match v with
  | Frequency MONTHLY => 1
  | Frequency QUARTERLY => 3
  | Frequency SEMI_ANNUAL => 6
  | Frequency ANNUAL => 12
  | NotAFrequency _ => 1
  end.

(** [while new_month > 12: new_month -= 12; new_year += 1] *)
Fixpoint roll_months (fuel : nat) (new_month new_year : Z) : Z * Z :=
  match fuel with
  | O => (new_month, new_year)
  | S fuel' =>
      if new_month >? 12 then roll_months fuel' (new_month - 12) (new_year + 1)
      else (new_month, new_year)
  end.

(** A payment day is used when it is given and not zero. *)
Definition day_given (payment_day_override : option Z) : option Z :=
  match payment_day_override with
  | Some d => if d =? 0 then None else Some d
  | None => None
  end.

(** One pass of the loop body of [generate_payment_schedule] up to the
    clamp: the end of the period that starts at [current_start]. *)
Definition next_period_end (credit : CreditObligation)
           (payment_day_override : option Z) (current_start : datetime)
  : result datetime :=
  let month_increment := month_increment_of (payment_frequency credit) in
  let current_year := year current_start in
  let current_month := month current_start in
  let '(new_month, new_year) :=
    roll_months (Z.to_nat (current_month + month_increment))
                (current_month + month_increment) current_year in
  target_day <-
    match day_given payment_day_override with
    | Some d => last <- monthrange_days new_year new_month ;; Ok (Z.min d last)
    | None => monthrange_days new_year new_month
    end ;;
  period_end <-
    except_ValueError
      (replace current_start new_year new_month target_day)
      (target_day <- monthrange_days new_year new_month ;;
       replace current_start new_year new_month target_day) ;;
  Ok (if DateTime.gtb period_end (end_date credit) then end_date credit
      else period_end).

Definition principal_for_period (credit : CreditObligation) (period_end : datetime) : R :=
  match payment_type credit with
  | BULLET =>
      if DateTime.geb period_end (end_date credit) then principal credit
      else principal credit
  | INTEREST_ONLY => principal credit
  | _ => principal credit
  end.

Definition too_many_periods : string :=
  "Warning: Too many periods generated, breaking loop".
Definition no_entries : string :=
  "No payment entries generated - check logic".

(** The same credit with another value of [payment_frequency]. *)
Definition with_frequency (v : FrequencyValue) (c : CreditObligation) : CreditObligation :=
  mk_CreditObligation (credit_id c) (credit_name c) (principal c) (start_date c)
    (end_date c) (base_rate_indicator c) (base_rate_value c) (credit_spread c)
    v (payment_type c).

(** The entry of one pass: the [PaymentSchedule(...)] built from the
    snapshot rate of the credit, after [calculate_financials()]. *)
Definition new_entry (credit : CreditObligation) (period_num : Z)
           (current_start period_end : datetime) : PaymentSchedule :=
  let payment_date := period_end in
  let base_rate_for_period := base_rate_value credit in
  let total_rate_for_period := num_add base_rate_for_period (credit_spread credit) in
  calculate_financials
    (mk_PaymentSchedule (credit_id credit) current_start period_end
       payment_date (principal_for_period credit period_end)
       None None None period_num
       (Some total_rate_for_period) (Some base_rate_for_period)
       (Some (credit_spread credit))).

(** The [while current_start < credit.end_date] loop.  The answer is the
    entries and the warnings printed, or the exception raised; [None]
    when [fuel] passes are not enough. *)
Fixpoint schedule_loop (fuel : nat) (credit : CreditObligation)
         (payment_day_override : option Z) (current_start : datetime)
         (period_num : Z) (payment_entries : list PaymentSchedule)
  : option (result (list PaymentSchedule * list string)) :=
  match fuel with
  | O => None
  | S fuel' =>
      if DateTime.ltb current_start (end_date credit) then
        match next_period_end credit payment_day_override current_start with
        | Raise e => Some (Raise e)
        | Ok period_end =>
            let payment_entries :=
              payment_entries ++ [new_entry credit period_num current_start period_end] in
            let current_start := period_end in
            let period_num := period_num + 1 in
            if period_num >? 100 then Some (Ok (payment_entries, [too_many_periods]))
            else schedule_loop fuel' credit payment_day_override current_start
                   period_num payment_entries
        end
      else Some (Ok (payment_entries, []))
  end.

(** What [generate_payment_schedule] hands back: the entries returned,
    the [payment_schedules] rows of the session after the flush, and the
    warnings printed. *)
Record Generated : Type := mk_Generated {
  entries : list PaymentSchedule;
  flushed : list PaymentSchedule;
  warnings : list string
}.

(** [generate_payment_schedule], with the passes of its loop bounded by
    [fuel].  The outer handler re-raises what it catches. *)
Definition generate_payment_schedule_fuel (fuel : nat) (credit : CreditObligation)
           (payment_schedules : list PaymentSchedule) (payment_day_override : option Z)
  : option (result Generated) :=
  match schedule_loop fuel credit payment_day_override (start_date credit) 1 [] with
  | None => None
  | Some (Raise e) => Some (Raise e)
  | Some (Ok (payment_entries, log)) =>
      if nonempty payment_entries
      then Some (Ok (mk_Generated payment_entries
                       (payment_schedules ++ payment_entries) log))
      else Some (Ok (mk_Generated payment_entries payment_schedules
                       (log ++ [no_entries])))
  end.

(** The loop body runs at most 100 times and the test of the loop once
    more. *)
Definition generate_payment_schedule := generate_payment_schedule_fuel 101.

(** One entry of [recalculated_periods]. *)
Record RecalcEntry : Type := mk_RecalcEntry {
  re_period_number : Z;
  re_period_start : datetime;
  re_period_end : datetime;
  old_base_rate : option R;
  new_base_rate : option R;
  old_total_rate : option R;
  new_total_rate : option R;
  old_interest_amount : option R;
  new_interest_amount : option R;
  difference : R
}.

(** [period.interest_amount - old_interest if old_interest else 0]; when
    [old_interest] is a number the period still has an interest amount. *)
Definition difference_of (new_interest old_interest : option R) : R :=
  match old_interest, new_interest with
  | Some o, Some n => if num_truthy o then num_sub n o else num_of_Z 0
  | _, _ => num_of_Z 0
  end.

(** The [for period in payment_schedule] loop of
    [recalculate_interest_with_historical_rates]: the periods as the
    session holds them and the entries collected, or the exception that
    left the loop. *)
Fixpoint recalculate_loop (payment_schedule : list PaymentSchedule)
         (cbr_key_rates : list CBRKeyRate) (current_date : datetime)
         (credit : CreditObligation)
  : result (list PaymentSchedule * list RecalcEntry) :=
  match payment_schedule with
  | [] => Ok ([], [])
  | period :: payment_schedule' =>
      let old_interest := interest_amount period in
      let old_base_rate := base_rate period in
      let old_total_rate := interest_rate period in
      match recalculate_with_historical_rates period cbr_key_rates current_date
              (base_rate_indicator credit) (credit_spread credit) with
      | (_, Raise e) => Raise e
      | (period, Ok _) =>
          let entry :=
            mk_RecalcEntry (period_number period) (period_start_date period)
              (period_end_date period) old_base_rate (base_rate period)
              old_total_rate (interest_rate period)
              old_interest (interest_amount period)
              (difference_of (interest_amount period) old_interest) in
          r <- recalculate_loop payment_schedule' cbr_key_rates current_date credit ;;
          Ok (period :: fst r, entry :: snd r)
      end
  end.

(** The endpoint [recalculate_interest_with_historical_rates], from the
    two queries on: [credit] and [payment_schedule] are their answers.
    The first component is the stored schedule after the call: committed
    when the loop ends, rolled back when it raises.  The rounded summary
    of the response is left out. *)
Definition recalculate_interest_with_historical_rates
           (credit : option CreditObligation) (payment_schedule : list PaymentSchedule)
           (cbr_key_rates : list CBRKeyRate) (current_date : datetime)
  : list PaymentSchedule * result (list RecalcEntry) :=
  match credit with
  | None => (payment_schedule, Raise (HTTPException 404))
  | Some credit =>
      if negb (nonempty payment_schedule)
      then (payment_schedule, Raise (HTTPException 404))
      else
        match recalculate_loop payment_schedule cbr_key_rates current_date credit with
        | Ok (periods, recalculated_periods) => (periods, Ok recalculated_periods)
        | Raise _ => (payment_schedule, Raise (HTTPException 500))
        end
  end.

End Engine.


(** * Vocabulary of the properties *)

Section Vocabulary.
Context {R : Type} {num : Number R}.

(** [chained a l b]: the periods of [l] start at [a], each one starts
    where the one before ends, and the last one ends at [b]. *)
Inductive chained : datetime -> list (PaymentSchedule (R := R)) -> datetime -> Prop :=
| chained_nil a : chained a [] a
| chained_cons a b p l :
    period_start_date p = a ->
    chained (period_end_date p) l b ->
    chained a (p :: l) b.

Definition last_error {X : Type} (l : list X) : option X := hd_error (rev l).

(** The first row of [l] that no other row beats: the row [.first()]
    finds after an [ORDER BY]. *)
Fixpoint first_best {X : Type} (no_worse : X -> X -> bool) (l : list X) : option X :=
  match l with
  | [] => None
  | x :: l' =>
      match first_best no_worse l' with
      | None => Some x
      | Some y => if no_worse x y then Some x else Some y
      end
  end.

(** What recalculation has to leave alone in a period. *)
Definition frame (p : PaymentSchedule (R := R))
  : Z * Z * datetime * datetime * datetime * R * option Z * option R :=
  (credit_obligation_id p, period_number p, period_start_date p, period_end_date p,
   payment_date p, principal_amount p, period_days p, spread p).

(** The row in force at the instant [t]: the first row, among those that
    take effect at or before [t], that no other follows. *)
Definition row_at (db : list (CBRKeyRate (R := R))) (t : Z) : option CBRKeyRate :=
  first_best effective_desc
    (filter (fun r => instant (effective_date r) <=? t) db).

Definition rate_at (db : list (CBRKeyRate (R := R))) (t : Z) : option R :=
  option_map rate (row_at db t).

(** [f] read once a day, [n] times, from the instant [t] on. *)
Fixpoint samples {X : Type} (f : Z -> X) (t : Z) (n : nat) : list X :=
  match n with
  | O => []
  | S n' => f t :: samples f (t + US_PER_DAY) n'
  end.

(** [days] are successive days, the first of them [a]. *)
Definition successive_days (a : datetime) (days : list datetime) : Prop :=
  forall k x, nth_error days k = Some x ->
              instant x = instant a + Z.of_nat k * US_PER_DAY.

(** A datetime that is a calendar date: its time is midnight. *)
Definition at_midnight (x : datetime) : Prop := tod x = 0.

(** How many rows of the table carry the announcement date [d]. *)
Definition count_date (d : datetime) (db : list (CBRKeyRate (R := R))) : nat :=
  List.length (filter (fun r => DateTime.eqb (date r) d) db).

(** A period of the past (its start is not after the clock) for which
    the store has no rate. *)
Definition no_data_for (db : list (CBRKeyRate (R := R))) (current_date : datetime)
           (p : PaymentSchedule (R := R)) : Prop :=
  DateTime.gtb (period_start_date p) current_date = false
  /\ get_average_key_rate_for_period db (period_start_date p) (period_end_date p) = None.

End Vocabulary.

(** ** The mean of daily rates, in exact arithmetic *)

(** The sum and the number of the values that are there. *)
Fixpoint tally (l : list (option Qc)) : Qc * Z :=
  match l with
  | [] => (Q2Qc 0, 0)
  | Some v :: l' => let '(s, c) := tally l' in ((v + s)%Qc, c + 1)
  | None :: l' => tally l'
  end.

(** The mean of the values that are there; none when there is none. *)
Definition mean_of_defined (l : list (option Qc)) : option Qc :=
  let '(s, c) := tally l in
  if c =? 0 then None else Some (s / Q2Qc (inject_Z c))%Qc.

(** * Sample data *)

Module Samples.

(** The scenario of the specification: one million at 16.0 + 2.5, monthly,
    over the year 2024. *)
Definition credit_2024 : CreditObligation (R := float) :=
  mk_CreditObligation 1 "year 2024" 1000000%float (ymd 2024 1 1) (ymd 2025 1 1)
    "KEY_RATE" 16%float 2.5%float (Frequency MONTHLY) INTEREST_ONLY.

(** The same credit over ten years: 120 months. *)
Definition credit_10y : CreditObligation (R := float) :=
  mk_CreditObligation 2 "ten years" 1000000%float (ymd 2024 1 1) (ymd 2034 1 1)
    "KEY_RATE" 16%float 2.5%float (Frequency MONTHLY) INTEREST_ONLY.




(** A store with one point, announced on 2024-06-01. *)
Definition store_june : list (CBRKeyRate (R := float)) :=
  [mk_CBRKeyRate (ymd 2024 6 1) (ymd 2024 6 3) 16%float].

(** Two periods of a schedule: January 2024, before any point of
    [store_june], and July 2024. *)
Definition period_january : PaymentSchedule (R := float) :=
  new_entry credit_2024 1 (ymd 2024 1 1) (ymd 2024 1 31).
Definition period_july : PaymentSchedule (R := float) :=
  new_entry credit_2024 2 (ymd 2024 6 30) (ymd 2024 7 31).

Definition new_year_2025 : datetime := ymd 2025 1 1.

(** Two fetched points with the same announcement date. *)
Definition point_a : RateData (R := float) :=
  mk_RateData (ymd 2024 6 1) (ymd 2024 6 3) 16%float.
Definition point_b : RateData (R := float) :=
  mk_RateData (ymd 2024 6 1) (ymd 2024 6 3) 18%float.

(** Days counted from 2024-01-01, day 0. *)
Definition day (n : Z) : datetime := ymd 2024 1 (1 + n).

(** The stores of the two averaging examples: points effective at day 0
    (rate 10), day 10 (rate 20) and day 20 (rate 30); and points effective
    at day -10, that is 2023-12-22 (rate 5), and at day 5 (rate 15). *)
Definition store_three {R : Type} {num : Number R} : list (CBRKeyRate (R := R)) :=
  [mk_CBRKeyRate (ymd 2023 12 30) (day 0) (num_of_Z 10);
   mk_CBRKeyRate (day 8) (day 10) (num_of_Z 20);
   mk_CBRKeyRate (day 18) (day 20) (num_of_Z 30)].

Definition store_gap {R : Type} {num : Number R} : list (CBRKeyRate (R := R)) :=
  [mk_CBRKeyRate (ymd 2023 12 20) (ymd 2023 12 22) (num_of_Z 5);
   mk_CBRKeyRate (day 3) (day 5) (num_of_Z 15)].

End Samples.

(** * Further code of the same files *)

Section MoreEngine.
Context {R : Type} {num : Number R}.

(** *** models/credit_obligation.py *)

(** [x or 0] for a nullable float: the int 0 when [x] is None or zero. *)
Definition or_zero (o : option R) : R :=
  match o with
  | Some x => if num_truthy x then x else num_of_Z 0
  | None => num_of_Z 0
  end.

(** [sum(...)]: from the int 0, one addition after another. *)
Definition sum_floats (l : list R) : R := fold_left num_add l (num_of_Z 0).

(** [CreditObligation.calculate_payment_schedule_interest], on the rows
    of the relationship [payment_schedule]. *)
Definition calculate_payment_schedule_interest
           (payment_schedule : list (PaymentSchedule (R := R))) : R :=
  if nonempty payment_schedule
  then sum_floats (map (fun schedule => or_zero (interest_amount schedule)) payment_schedule)
  else num_of_Z 0.

(** The columns of a stored credit that the schedule generator does not
    read, beside the ones it reads. *)
Record StoredCredit : Type := mk_StoredCredit {
  terms : CreditObligation (R := R);
  user_id : Z;
  currency : string;
  total_rate : R
}.

(** *** routers/cbr.py *)

(** The endpoint [get_key_rate_history]: the rows listed and [count].
    [start_date] and [end_date] are the bounds computed from the clock,
    [now - days] and [now]. *)
Definition get_key_rate_history (cbr_key_rates : list (CBRKeyRate (R := R)))
           (start_date end_date : datetime) : list CBRKeyRate * Z :=
  let rates := order_by effective_desc
                 (filter (in_period start_date end_date) cbr_key_rates) in
  (rates, Z.of_nat (List.length rates)).

(** The answer of [get_data_source_info]: its status, [total_records] and
    the two ends of [date_range]; [last_update] is left out with the
    column [created_at]. *)
Inductive DataSourceInfo : Type :=
| no_data
| official_data (total_records : Z) (date_from date_to : option datetime).

(** The endpoint [get_data_source_info]. *)
Definition get_data_source_info (cbr_key_rates : list (CBRKeyRate (R := R)))
  : DataSourceInfo :=
  let total_records := Z.of_nat (List.length cbr_key_rates) in
  if total_records =? 0 then no_data
  else
    let oldest := first (order_by effective_asc cbr_key_rates) in
    let newest := first (order_by effective_desc cbr_key_rates) in
    official_data total_records
      (option_map effective_date oldest) (option_map effective_date newest).

(** *** routers/credits.py *)

(** The rows of a credit in the table [payment_schedules]. *)
Definition schedule_of_credit (credit_id : Z)
           (payment_schedules : list (PaymentSchedule (R := R))) : list PaymentSchedule :=
  filter (fun p => credit_obligation_id p =? credit_id) payment_schedules.

(** The answer of [get_schedule_summary], without the rounded
    [avg_period_days]. *)
Record ScheduleSummary : Type := mk_ScheduleSummary {
  periods_count : Z;
  total_interest : R;
  total_payments : R;
  first_payment : option datetime;
  last_payment : option datetime
}.

(** The endpoint [get_schedule_summary]; [credit] is the answer of its
    first query. *)
Definition get_schedule_summary (credit : option (StoredCredit))
           (credit_id : Z) (payment_schedules : list (PaymentSchedule (R := R)))
  : result ScheduleSummary :=
  match credit with
  | None => Raise (HTTPException 404)
  | Some _ =>
      let schedule := schedule_of_credit credit_id payment_schedules in
      if negb (nonempty schedule)
      then Ok (mk_ScheduleSummary 0 (num_of_Z 0) (num_of_Z 0) None None)
      else
        let total_interest :=
          sum_floats (map (fun p => or_zero (interest_amount p)) schedule) in
        let total_payments :=
          sum_floats (map (fun p => or_zero (total_payment p)) schedule) in
        Ok (mk_ScheduleSummary (Z.of_nat (List.length schedule))
              total_interest total_payments
              (option_map payment_date (hd_error schedule))
              (option_map payment_date (last_error schedule)))
  end.

(** One entry of the body of [save_payment_schedule] once its three dates
    and its balance are parsed.  The dates are naive datetimes, as
    [fromisoformat] gives them for a text without [Z] and without an
    offset. *)
Record ScheduleEntry : Type := mk_ScheduleEntry {
  se_period_start : datetime;
  se_period_end : datetime;
  se_payment_date : datetime;
  se_outstanding_balance : R
}.

(** The loop of [save_payment_schedule] over [enumerate(entries)], [i]
    being the index of the head of the list.  An entry is given as the
    outcome of its parsing ([fromisoformat], [float], the key lookups): a
    parsed entry or the exception raised. *)
Fixpoint save_loop (credit : StoredCredit) (credit_id : Z) (i : Z)
         (entries : list (result ScheduleEntry))
  : result (list (PaymentSchedule (R := R))) :=
  match entries with
  | [] => Ok []
  | parsed :: entries' =>
      entry <- parsed ;;
      let payment_schedule :=
        mk_PaymentSchedule credit_id (se_period_start entry) (se_period_end entry)
          (se_payment_date entry) (se_outstanding_balance entry)
          None None None (i + 1)
          (Some (total_rate credit)) (Some (base_rate_value (terms credit)))
          (Some (credit_spread (terms credit))) in
      payment_entries <- save_loop credit credit_id (i + 1) entries' ;;
      Ok (calculate_financials payment_schedule :: payment_entries)
  end.

(** The endpoint [save_payment_schedule]: the table [payment_schedules]
    after the call and the answer, [periods_count] or the exception.  The
    [HTTPException] 400 for an empty list is raised inside the [try] block,
    whose handler for [Exception] rolls back and raises 500. *)
Definition save_payment_schedule (credit : option StoredCredit) (credit_id : Z)
           (entries : list (result ScheduleEntry))
           (payment_schedules : list (PaymentSchedule (R := R)))
  : list PaymentSchedule * result Z :=
  match credit with
  | None => (payment_schedules, Raise (HTTPException 404))
  | Some credit =>
      let try_block : result (list PaymentSchedule * Z) :=
        if negb (nonempty entries) then Raise (HTTPException 400)
        else
          let remaining :=
            filter (fun p => negb (credit_obligation_id p =? credit_id))
                   payment_schedules in
          payment_entries <- save_loop credit credit_id 0 entries ;;
          Ok ((remaining ++ payment_entries)%list,
              Z.of_nat (List.length payment_entries)) in
      match try_block with
      | Ok (table, periods_count) => (table, Ok periods_count)
      | Raise _ => (payment_schedules, Raise (HTTPException 500))
      end
  end.

(** The enum [PaymentFrequency] of schemas/credit.py, a [str] enum: its
    members are other objects than the members of the enum of the same
    name of models/credit_obligation.py, and compare unequal to them. *)
Inductive SchemaPaymentFrequency : Type :=
| schema_MONTHLY | schema_QUARTERLY | schema_SEMI_ANNUAL | schema_ANNUAL.

Definition schema_frequency_text (f : SchemaPaymentFrequency) : string :=
  match f with
  | schema_MONTHLY => "MONTHLY"
  | schema_QUARTERLY => "QUARTERLY"
  | schema_SEMI_ANNUAL => "SEMI_ANNUAL"
  | schema_ANNUAL => "ANNUAL"
  end.

(** The body of a request to create a credit, after the schema has
    accepted it.  The payment type is written with the enum of the model:
    the generator gives every value of it the same principal. *)
Record CreditObligationCreate : Type := mk_CreditObligationCreate {
  cd_credit_name : string;
  cd_principal_amount : R;
  cd_currency : string;
  cd_start_date : datetime;
  cd_end_date : datetime;
  cd_base_rate_indicator : string;
  cd_base_rate_value : R;
  cd_credit_spread : R;
  cd_payment_frequency : SchemaPaymentFrequency;
  cd_payment_type : PaymentType
}.

(** The endpoint [create_credit_obligation], up to the commit: the credit
    stored and the table [payment_schedules] after it.  [new_id] is the key
    the flush gives the credit.  The credit object keeps the member of the
    schema enum it was built with, so the generator reads a
    [payment_frequency] that is no key of its table.  The exception of a
    failed schedule generation is caught and printed.  The response, with
    its rounded amounts, is left out. *)
Definition create_credit_obligation (credit_data : CreditObligationCreate)
           (new_id : Z) (payment_schedules : list (PaymentSchedule (R := R)))
  : option (StoredCredit * list PaymentSchedule) :=
  let total_rate :=
    num_add (cd_base_rate_value credit_data) (cd_credit_spread credit_data) in
  let credit :=
    mk_StoredCredit
      (mk_CreditObligation new_id (cd_credit_name credit_data)
         (cd_principal_amount credit_data) (cd_start_date credit_data)
         (cd_end_date credit_data) (cd_base_rate_indicator credit_data)
         (cd_base_rate_value credit_data) (cd_credit_spread credit_data)
         (NotAFrequency (schema_frequency_text (cd_payment_frequency credit_data)))
         (cd_payment_type credit_data))
      1 (cd_currency credit_data) total_rate in
  match generate_payment_schedule (terms credit) payment_schedules None with
  | None => None
  | Some (Ok g) => Some (credit, flushed g)
  | Some (Raise _) => Some (credit, payment_schedules)
  end.

End MoreEngine.

(** ** Vocabulary of the further properties *)

Section MoreVocabulary.
Context {R : Type} {num : Number R}.

(** [periods_from credit o cs pn l]: [l] are entries the generator builds
    one after the other from the start [cs] and the number [pn] on. *)
Inductive periods_from (credit : CreditObligation (R := R)) (o : option Z)
  : datetime -> Z -> list (PaymentSchedule (R := R)) -> Prop :=
| periods_done cs pn : periods_from credit o cs pn []
| periods_step cs pn pe rest :
    DateTime.ltb cs (end_date credit) = true ->
    next_period_end credit o cs = Ok pe ->
    periods_from credit o pe (pn + 1) rest ->
    periods_from credit o cs pn (new_entry credit pn cs pe :: rest).

(** The end of the period that starts at [cs], by month arithmetic: the
    month [month_increment] months after the month of [cs], the payment day
    or the last day of that month, the time of [cs]; the end of the credit
    when that is earlier; no date after the year 9999. *)
Definition expected_period_end (credit : CreditObligation (R := R))
           (o : option Z) (cs : datetime) : result datetime :=
  let months := month cs + month_increment_of (payment_frequency credit) - 1 in
  let new_year := year cs + months / 12 in
  let new_month := months mod 12 + 1 in
  let last := days_in_month new_year new_month in
  let target_day :=
    match day_given o with
    | Some d => if 1 <=? Z.min d last then Z.min d last else last
    | None => last
    end in
  if new_year <=? MAXYEAR then
    let target := mk_datetime new_year new_month target_day (tod cs) in
    Ok (if DateTime.gtb target (end_date credit) then end_date credit else target)
  else Raise ValueError.

(** The two sums of the schedule summary agree on a period. *)
Definition settled (p : PaymentSchedule (R := R)) : Prop :=
  or_zero (total_payment p) = or_zero (interest_amount p).

(** A fetched point whose announcement date the table does not hold. *)
Definition is_new (db : list (CBRKeyRate (R := R))) (rd : RateData (R := R)) : bool :=
  negb (existsb (same_date rd) db).

Definition to_row (rd : RateData (R := R)) : CBRKeyRate :=
  mk_CBRKeyRate (rd_date rd) (rd_effective_date rd) (rd_rate rd).

(** What one fetched point, and then a batch of them, makes of a row of
    the table: a point overwrites the row of its announcement date. *)
Definition touch (rd : RateData (R := R)) (r : CBRKeyRate (R := R)) : CBRKeyRate :=
  if same_date rd r then overwrite rd r else r.

Definition touch_all (key_rates : list (RateData (R := R))) (r : CBRKeyRate (R := R))
  : CBRKeyRate :=
  fold_left (fun r rd => touch rd r) key_rates r.

(** No two rows of the table carry the same announcement date. *)
Definition dates_unique (db : list (CBRKeyRate (R := R))) : Prop :=
  forall d, (count_date d db <= 1)%nat.

(** [ORDER BY] leaves the order of rows with equal sort keys to the
    database engine: every row that no other row strictly precedes may be
    the one [.first()] returns, or the head of [.all()]. *)
Definition first_candidates {A : Type} (no_worse : A -> A -> bool) (rows : list A)
  : list A :=
  filter (fun r => forallb (no_worse r) rows) rows.

(** The answers [CBRService.get_key_rate_on_date] may give, whatever the
    engine does with equal effective dates: the rate of a row that may come
    first, [None] when the query has no row. *)
Definition rate_on_date_answers (cbr_key_rates : list (CBRKeyRate (R := R)))
           (target_date : datetime) : list (option R) :=
  match first_candidates effective_desc
          (filter (fun r => DateTime.leb (effective_date r) target_date)
                  cbr_key_rates) with
  | [] => [None]
  | candidates => map (fun r => Some (rate r)) candidates
  end.

(** The answers [CBRService.get_average_key_rate_for_period] may give for a
    period that starts and ends at the same datetime, where [total_days] is
    0: [rates[0].rate], or the rate on that date when [rates] is empty. *)
Definition average_at_answers (cbr_key_rates : list (CBRKeyRate (R := R)))
           (d : datetime) : list (option R) :=
  let rates := filter (in_period d d) cbr_key_rates in
  if negb (nonempty rates) then rate_on_date_answers cbr_key_rates d
  else map (fun r => Some (rate r)) (first_candidates effective_asc rates).

(** The entry of the recalculation report for a period that did not
    change. *)
Definition unchanged_entry (p : PaymentSchedule (R := R)) : RecalcEntry :=
  mk_RecalcEntry (period_number p) (period_start_date p) (period_end_date p)
    (base_rate p) (base_rate p) (interest_rate p) (interest_rate p)
    (interest_amount p) (interest_amount p)
    (difference_of (interest_amount p) (interest_amount p)).

End MoreVocabulary.

(** ** Further sample data *)

Module MoreSamples.
Import Samples.

(** [credit_2024] in exact arithmetic: one million at 16 + 5/2. *)
Definition credit_2024_exact : CreditObligation (R := Qc) :=
  mk_CreditObligation 1 "year 2024" (Q2Qc (inject_Z 1000000)) (ymd 2024 1 1)
    (ymd 2025 1 1) "KEY_RATE" (Q2Qc (inject_Z 16)) (Q2Qc (5 # 2)%Q)
    (Frequency MONTHLY) INTEREST_ONLY.

(** A credit on another indicator than the key rate. *)
Definition credit_libor : CreditObligation (R := float) :=
  mk_CreditObligation 5 "libor" 1000000%float (ymd 2024 1 1) (ymd 2025 1 1)
    "LIBOR" 5%float 2.5%float (Frequency QUARTERLY) BULLET.

(** [credit_2024] as the table of credits holds it. *)
Definition stored_2024 : StoredCredit (R := float) :=
  mk_StoredCredit credit_2024 1 "RUB" 18.5%float.

(** A fetched point announced on another day than [point_a] and
    [point_b]. *)
Definition point_c : RateData (R := float) :=
  mk_RateData (ymd 2024 7 26) (ymd 2024 7 29) 18%float.

(** One entry of a custom schedule: the first quarter of 2024. *)
Definition entry_q1 : ScheduleEntry (R := float) :=
  mk_ScheduleEntry (ymd 2024 1 1) (ymd 2024 4 1) (ymd 2024 4 1) 1000000%float.

(** Noon of the day [n], days counted from 2024-01-01. *)
Definition noon (n : Z) : datetime := mk_datetime 2024 1 (1 + n) 43200000000.

(** A store with a point effective from 2023-12-22 (rate 10) and one
    effective from 2024-01-02, midnight (rate 20). *)
Definition store_noon {R : Type} {num : Number R} : list (CBRKeyRate (R := R)) :=
  [mk_CBRKeyRate (ymd 2023 12 20) (ymd 2023 12 22) (num_of_Z 10);
   mk_CBRKeyRate (ymd 2023 12 31) (ymd 2024 1 2) (num_of_Z 20)].

(** The table after one call of the upsert with [point_a] and [point_b] on
    the empty table: two rows of one announcement date and one effective
    date. *)
Definition store_tied : list (CBRKeyRate (R := float)) :=
  [mk_CBRKeyRate (ymd 2024 6 1) (ymd 2024 6 3) 16%float;
   mk_CBRKeyRate (ymd 2024 6 1) (ymd 2024 6 3) 18%float].

(** The request that creates a quarterly credit over 2024. *)
Definition request_quarterly : CreditObligationCreate (R := float) :=
  mk_CreditObligationCreate "quarterly" 1000000%float "RUB" (ymd 2024 1 1)
    (ymd 2025 1 1) "KEY_RATE" 16%float 2.5%float schema_QUARTERLY INTEREST_ONLY.

End MoreSamples.
(** * Properties *)

(** ** Datetimes *)

Section DateTimeFacts.

Lemma days_before_year_succ (y : Z) :
  days_before_year (y + 1) = days_before_year y + 365 + (if is_leap y then 1 else 0).
Proof.
  unfold days_before_year, is_leap.
  destruct (Z.eqb_spec (y mod 4) 0), (Z.eqb_spec (y mod 100) 0),
    (Z.eqb_spec (y mod 400) 0); cbn [negb andb orb];
    Z.div_mod_to_equations; lia.
Qed.

Lemma days_before_year_mono (y y' : Z) : y <= y' -> days_before_year y <= days_before_year y'.
Proof. unfold days_before_year. intros H. Z.div_mod_to_equations. lia. Qed.

Lemma days_in_month_bounds (y m : Z) : 28 <= days_in_month y m <= 31.
Proof.
  unfold days_in_month.
  destruct (m =? 2); [destruct (is_leap y); lia|].
  destruct ((m =? 4) || (m =? 6) || (m =? 9) || (m =? 11)); lia.
Qed.

Lemma days_before_month_succ (y m : Z) :
  1 <= m -> days_before_month y (m + 1) = days_before_month y m + days_in_month y m.
Proof.
  intros Hm. unfold days_before_month.
  replace (Z.to_nat (m + 1 - 1)) with (S (Z.to_nat (m - 1))) by lia.
  cbn [days_before_month_aux]. do 2 f_equal. lia.
Qed.

Lemma days_before_month_mono (y m m' : Z) :
  1 <= m < m' -> days_before_month y m + days_in_month y m <= days_before_month y m'.
Proof.
  intros Hm.
  assert (H : forall k : nat,
             days_before_month y m + days_in_month y m
             <= days_before_month y (m + 1 + Z.of_nat k)).
  { induction k as [|k IH].
    - rewrite Z.add_0_r, days_before_month_succ by lia. lia.
    - replace (m + 1 + Z.of_nat (S k)) with (m + 1 + Z.of_nat k + 1) by lia.
      rewrite days_before_month_succ by lia.
      pose proof (days_in_month_bounds y (m + 1 + Z.of_nat k)). lia. }
  specialize (H (Z.to_nat (m' - m - 1))).
  replace (m + 1 + Z.of_nat (Z.to_nat (m' - m - 1))) with m' in H by lia. exact H.
Qed.

Lemma days_before_month_13 (y : Z) :
  days_before_month y 13 = 365 + (if is_leap y then 1 else 0).
Proof.
  assert (H1 : days_before_month y 1 = 0) by reflexivity.
  pose proof (days_before_month_succ y 1 ltac:(lia)) as H2.
  pose proof (days_before_month_succ y 2 ltac:(lia)) as H3.
  pose proof (days_before_month_succ y 3 ltac:(lia)) as H4.
  pose proof (days_before_month_succ y 4 ltac:(lia)) as H5.
  pose proof (days_before_month_succ y 5 ltac:(lia)) as H6.
  pose proof (days_before_month_succ y 6 ltac:(lia)) as H7.
  pose proof (days_before_month_succ y 7 ltac:(lia)) as H8.
  pose proof (days_before_month_succ y 8 ltac:(lia)) as H9.
  pose proof (days_before_month_succ y 9 ltac:(lia)) as H10.
  pose proof (days_before_month_succ y 10 ltac:(lia)) as H11.
  pose proof (days_before_month_succ y 11 ltac:(lia)) as H12.
  pose proof (days_before_month_succ y 12 ltac:(lia)) as H13.
  unfold days_in_month in *. cbn [Z.add Pos.add Pos.succ Z.eqb Pos.eqb orb] in *.
  destruct (is_leap y); lia.
Qed.

Lemma days_before_month_nonneg (y m : Z) : 0 <= days_before_month y m.
Proof.
  unfold days_before_month. induction (Z.to_nat (m - 1)) as [|k IH]; [reflexivity|].
  cbn [days_before_month_aux]. pose proof (days_in_month_bounds y (Z.of_nat (S k))). lia.
Qed.

Lemma ymd_ordinal_bounds (y m d : Z) :
  valid_date y m d = true ->
  days_before_year y + 1 <= days_before_year y + days_before_month y m + d
  /\ days_before_year y + days_before_month y m + d <= days_before_year (y + 1).
Proof.
  unfold valid_date. rewrite !andb_true_iff, !Z.leb_le.
  intros (((((_ & _) & Hm1) & Hm12) & Hd1) & Hd).
  pose proof (days_before_month_nonneg y m).
  pose proof (days_before_month_mono y m 13 ltac:(lia)) as Hmono.
  rewrite days_before_month_13 in Hmono. rewrite days_before_year_succ. lia.
Qed.

Lemma lex_ltb_ordinal (a b : datetime) :
  valid a = true -> valid b = true -> lex_ltb a b = true -> instant a < instant b.
Proof.
  unfold valid. intros Ha Hb.
  apply andb_true_iff in Ha as [Ha Ha1]. apply andb_true_iff in Ha as [Ha Ha0].
  apply andb_true_iff in Hb as [Hb Hb1]. apply andb_true_iff in Hb as [Hb Hb0].
  apply Z.leb_le in Ha0, Hb0. apply Z.ltb_lt in Ha1, Hb1.
  pose proof (ymd_ordinal_bounds _ _ _ Ha) as [Ha2 Ha3].
  pose proof (ymd_ordinal_bounds _ _ _ Hb) as [Hb2 Hb3].
  unfold valid_date in Ha, Hb. rewrite !andb_true_iff, !Z.leb_le in Ha, Hb.
  unfold lex_ltb, instant, toordinal. unfold US_PER_DAY in *.
  intros H.
  repeat (apply orb_true_iff in H as [H|H] || apply andb_true_iff in H as [? H]);
    repeat match goal with
           | H : (_ <? _) = true |- _ => apply Z.ltb_lt in H
           | H : (_ =? _) = true |- _ => apply Z.eqb_eq in H
           end;
    repeat match goal with
           | H : year a = year b |- _ => rewrite H in *; clear H
           | H : month a = month b |- _ => rewrite H in *; clear H
           | H : day a = day b |- _ => rewrite H in *; clear H
           end.
  - pose proof (days_before_year_mono (year a + 1) (year b) ltac:(lia)). lia.
  - pose proof (days_before_month_mono (year b) (month a) (month b) ltac:(lia)). lia.
  - lia.
  - lia.
Qed.

Lemma lex_ltb_total (a b : datetime) :
  lex_ltb a b = false -> lex_ltb b a = false -> a = b.
Proof.
  destruct a as [ya ma da ta], b as [yb mb db tb]. unfold lex_ltb; simpl.
  rewrite !orb_false_iff, !andb_false_iff, !orb_false_iff, !andb_false_iff,
    !Z.ltb_ge, !Z.eqb_neq.
  intros H1 H2.
  assert (ya = yb) by lia. subst yb.
  assert (ma = mb) by lia. subst mb.
  assert (da = db) by lia. subst db.
  assert (ta = tb) by lia. subst tb. reflexivity.
Qed.

(** On valid datetimes the chronological comparison is the comparison of
    the fields, as CPython does it, and two datetimes compare equal exactly
    when they are the same. *)
Lemma ltb_is_lexicographic (a b : datetime) :
  valid a = true -> valid b = true -> DateTime.ltb a b = lex_ltb a b.
Proof.
  intros Ha Hb. unfold DateTime.ltb.
  destruct (lex_ltb a b) eqn:Hab.
  - apply Z.ltb_lt. apply lex_ltb_ordinal; assumption.
  - apply Z.ltb_ge. destruct (lex_ltb b a) eqn:Hba.
    + pose proof (lex_ltb_ordinal b a Hb Ha Hba). lia.
    + rewrite (lex_ltb_total a b Hab Hba). lia.
Qed.

Lemma eqb_is_equality (a b : datetime) :
  valid a = true -> valid b = true -> (DateTime.eqb a b = true <-> a = b).
Proof.
  intros Ha Hb. unfold DateTime.eqb. rewrite Z.eqb_eq. split; [|intros ->; reflexivity].
  intros Heq.
  destruct (lex_ltb a b) eqn:Hab;
    [pose proof (lex_ltb_ordinal a b Ha Hb Hab); lia|].
  destruct (lex_ltb b a) eqn:Hba;
    [pose proof (lex_ltb_ordinal b a Hb Ha Hba); lia|].
  apply lex_ltb_total; assumption.
Qed.

End DateTimeFacts.

(** ** Schedule generation *)

Section GenerationFacts.
Context {R : Type} {num : Number R}.

Implicit Types (credit : CreditObligation (R := R)) (p q : PaymentSchedule (R := R)).

Lemma gtb_false (n m : Z) : (n >? m) = false <-> n <= m.
Proof. rewrite Z.gtb_ltb. apply Z.ltb_ge. Qed.

(** The month roll-over loop stops by its own test within the passes
    allowed. *)
Lemma roll_months_exit (fuel : nat) (m y : Z) :
  m <= Z.of_nat fuel -> fst (roll_months fuel m y) <= 12.
Proof.
  revert m y; induction fuel as [|fuel IH]; intros m y Hm; simpl.
  - lia.
  - destruct (m >? 12) eqn:E; simpl; [apply IH | ]; lia.
Qed.

Lemma calculate_financials_frame p :
  let p' := calculate_financials p in
  period_start_date p' = period_start_date p
  /\ period_end_date p' = period_end_date p
  /\ payment_date p' = payment_date p
  /\ principal_amount p' = principal_amount p
  /\ period_number p' = period_number p.
Proof.
  unfold calculate_financials; simpl.
  destruct (interest_rate p) as [r|]; simpl;
    repeat match goal with |- context [if ?c then _ else _] => destruct c; simpl end;
    auto.
Qed.

Lemma principal_for_period_eq credit period_end :
  principal_for_period credit period_end = principal credit.
Proof.
  unfold principal_for_period.
  destruct (payment_type credit); try reflexivity.
  destruct (DateTime.geb _ _); reflexivity.
Qed.

Lemma new_entry_frame credit n cs pe :
  period_start_date (new_entry credit n cs pe) = cs
  /\ period_end_date (new_entry credit n cs pe) = pe
  /\ payment_date (new_entry credit n cs pe) = pe
  /\ principal_amount (new_entry credit n cs pe) = principal credit
  /\ period_number (new_entry credit n cs pe) = n.
Proof.
  unfold new_entry.
  destruct (calculate_financials_frame
              (mk_PaymentSchedule (credit_id credit) cs pe pe
                 (principal_for_period credit pe) None None None n
                 (Some (num_add (base_rate_value credit) (credit_spread credit)))
                 (Some (base_rate_value credit)) (Some (credit_spread credit))))
    as (H1 & H2 & H3 & H4 & H5).
  simpl in *. rewrite H1, H2, H3, H4, H5, principal_for_period_eq. auto.
Qed.

(** The period end is never past the end of the credit. *)
Lemma next_period_end_clamped credit o cs pe :
  next_period_end credit o cs = Ok pe ->
  instant pe <= instant (end_date credit).
Proof.
  unfold next_period_end.
  destruct (roll_months _ _ _) as [new_month new_year].
  unfold bind.
  destruct (match day_given o with Some _ => _ | None => _ end) as [target_day|e];
    [|discriminate].
  destruct (except_ValueError _ _) as [period_end|e]; [|discriminate].
  intros H; injection H as <-.
  unfold DateTime.gtb, DateTime.ltb.
  destruct (instant (end_date credit) <? instant period_end) eqn:E; [lia|].
  apply Z.ltb_ge in E. exact E.
Qed.

(** Date construction is the only source of exceptions. *)
Lemma next_period_end_raises credit o cs e :
  next_period_end credit o cs = Raise e -> e = ValueError.
Proof.
  unfold next_period_end.
  destruct (roll_months _ _ _) as [new_month new_year].
  unfold bind, monthrange_days, replace, except_ValueError.
  destruct (day_given o);
    repeat match goal with
           | |- context [if ?c then _ else _] => destruct c
           end; simpl; congruence.
Qed.

Lemma chained_app a b c (l l' : list (PaymentSchedule (R := R))) :
  chained a l b -> chained b l' c -> chained a (l ++ l') c.
Proof.
  induction 1 as [a|a b p l Hp Hl IH]; intros H'; simpl; [exact H'|].
  constructor; [exact Hp | apply IH, H'].
Qed.

Lemma chained_nth a b (l : list (PaymentSchedule (R := R))) :
  chained a l b ->
  forall i p q, nth_error l i = Some p -> nth_error l (S i) = Some q ->
                period_end_date p = period_start_date q.
Proof.
  induction 1 as [a|a b p0 l Hp Hl IH]; intros i p q Hi Hj.
  - destruct i; discriminate.
  - destruct i as [|i]; simpl in Hi, Hj.
    + injection Hi as <-. destruct l as [|q0 l]; [discriminate|].
      injection Hj as <-. inversion Hl; subst. symmetry; assumption.
    + eapply IH; eassumption.
Qed.

Lemma chained_head a b (l : list (PaymentSchedule (R := R))) p :
  chained a l b -> hd_error l = Some p -> period_start_date p = a.
Proof. destruct 1; simpl; [discriminate|]; intros [= <-]; assumption. Qed.

Lemma last_error_app {X : Type} (l : list X) (x : X) : last_error (l ++ [x]) = Some x.
Proof. unfold last_error. rewrite rev_app_distr. reflexivity. Qed.

Lemma last_error_cons {X : Type} (x y : X) (l : list X) :
  last_error (x :: y :: l) = last_error (y :: l).
Proof.
  unfold last_error; simpl.
  destruct (rev l ++ [y])%list eqn:E; [destruct (rev l); discriminate|reflexivity].
Qed.

Lemma chained_last a b (l : list (PaymentSchedule (R := R))) p :
  chained a l b -> last_error l = Some p -> period_end_date p = b.
Proof.
  induction 1 as [a|a b p0 l Hp Hl IH]; [discriminate|].
  destruct l as [|q l].
  - unfold last_error; simpl. intros [= <-]. inversion Hl; reflexivity.
  - rewrite last_error_cons. exact IH.
Qed.

Lemma schedule_loop_S fuel credit o cs pn acc :
  schedule_loop (S fuel) credit o cs pn acc =
  if DateTime.ltb cs (end_date credit) then
    match next_period_end credit o cs with
    | Raise e => Some (Raise e)
    | Ok period_end =>
        if pn + 1 >? 100
        then Some (Ok ((acc ++ [new_entry credit pn cs period_end])%list,
                       [too_many_periods]))
        else schedule_loop fuel credit o period_end (pn + 1)
               (acc ++ [new_entry credit pn cs period_end])%list
    end
  else Some (Ok (acc, [])).
Proof. reflexivity. Qed.

(** With the counter at [pn], [102 - pn] passes are enough, and more
    passes change nothing. *)
Lemma schedule_loop_enough fuel credit o cs pn acc :
  pn <= 100 -> 101 < Z.of_nat fuel + pn ->
  exists r, schedule_loop fuel credit o cs pn acc = Some r
            /\ forall fuel', 101 < Z.of_nat fuel' + pn ->
                             schedule_loop fuel' credit o cs pn acc = Some r.
Proof.
  revert cs pn acc; induction fuel as [|fuel IH]; intros cs pn acc Hpn Hfuel; [lia|].
  rewrite schedule_loop_S.
  destruct (DateTime.ltb cs (end_date credit)) eqn:Hlt.
  - destruct (next_period_end credit o cs) as [pe|e] eqn:Hnext.
    + destruct (pn + 1 >? 100) eqn:Hcap.
      * eexists; split; [reflexivity|].
        intros [|fuel'] Hf; [lia|].
        rewrite schedule_loop_S, Hlt, Hnext, Hcap. reflexivity.
      * apply gtb_false in Hcap.
        destruct (IH pe (pn + 1) (acc ++ [new_entry credit pn cs pe])%list)
          as (r & Hr & Hall); [lia|lia|].
        exists r; split; [exact Hr|].
        intros [|fuel'] Hf; [lia|].
        rewrite schedule_loop_S, Hlt, Hnext.
        replace (pn + 1 >? 100) with false
          by (symmetry; apply gtb_false; lia).
        apply Hall; lia.
    + eexists; split; [reflexivity|].
      intros [|fuel'] Hf; [lia|].
      rewrite schedule_loop_S, Hlt, Hnext. reflexivity.
  - eexists; split; [reflexivity|].
    intros [|fuel'] Hf; [lia|].
    rewrite schedule_loop_S, Hlt. reflexivity.
Qed.

(** The counter is one more than the number of entries, so the loop
    leaves with 100 entries and the warning, or with fewer and none. *)
Lemma schedule_loop_length fuel credit o cs pn acc es log :
  schedule_loop fuel credit o cs pn acc = Some (Ok (es, log)) ->
  pn <= 100 -> Z.of_nat (List.length acc) = pn - 1 ->
  (log = [too_many_periods] /\ List.length es = 100%nat)
  \/ (log = [] /\ (List.length es < 100)%nat).
Proof.
  revert cs pn acc; induction fuel as [|fuel IH]; intros cs pn acc Hloop Hpn Hlen;
    [discriminate|].
  rewrite schedule_loop_S in Hloop.
  destruct (DateTime.ltb cs (end_date credit)).
  - destruct (next_period_end credit o cs) as [pe|e]; [|discriminate].
    destruct (pn + 1 >? 100) eqn:Hcap.
    + injection Hloop as <- <-. left; split; [reflexivity|].
      apply Z.gtb_lt in Hcap. rewrite length_app; simpl. lia.
    + apply gtb_false in Hcap.
      apply IH in Hloop; [exact Hloop|lia|].
      rewrite length_app; simpl. lia.
  - injection Hloop as <- <-. right; split; [reflexivity|lia].
Qed.

(** The entries form a chain from the start of the credit; the chain
    never passes the end of the credit, and reaches it when the loop
    leaves by its own test. *)
Lemma schedule_loop_chained fuel credit o cs pn acc es log a :
  schedule_loop fuel credit o cs pn acc = Some (Ok (es, log)) ->
  chained a acc cs ->
  (acc = [] \/ instant cs <= instant (end_date credit)) ->
  exists b, chained a es b
            /\ (es = [] \/ instant b <= instant (end_date credit))
            /\ (log = [] -> instant (end_date credit) <= instant b).
Proof.
  revert cs pn acc; induction fuel as [|fuel IH]; intros cs pn acc Hloop Hch Hle;
    [discriminate|].
  rewrite schedule_loop_S in Hloop.
  destruct (DateTime.ltb cs (end_date credit)) eqn:Hlt.
  - destruct (next_period_end credit o cs) as [pe|e] eqn:Hnext; [|discriminate].
    pose proof (next_period_end_clamped _ _ _ _ Hnext) as Hpe.
    destruct (new_entry_frame credit pn cs pe) as (Hs & He & _).
    assert (Hch' : chained a (acc ++ [new_entry credit pn cs pe])%list pe).
    { eapply chained_app; [exact Hch|].
      constructor; [exact Hs|]. rewrite He. constructor. }
    destruct (pn + 1 >? 100).
    + injection Hloop as <- <-. exists pe. repeat split; auto. discriminate.
    + eapply IH; [exact Hloop|exact Hch'|right; exact Hpe].
  - injection Hloop as <- <-. exists cs. repeat split; auto.
    intros _. unfold DateTime.ltb in Hlt. apply Z.ltb_ge in Hlt. exact Hlt.
Qed.

(** From a valid start and towards a valid end, every period ends on a
    valid datetime. *)
Lemma next_period_end_valid credit o cs pe :
  valid cs = true -> valid (end_date credit) = true ->
  next_period_end credit o cs = Ok pe -> valid pe = true.
Proof.
  intros Hcs Hend. unfold next_period_end.
  destruct (roll_months _ _ _) as [new_month new_year].
  unfold bind.
  destruct (match day_given o with Some _ => _ | None => _ end) as [target_day|e];
    [|discriminate].
  assert (Hrep : forall d r, replace cs new_year new_month d = Ok r -> valid r = true).
  { intros d r. unfold replace.
    destruct (valid_date new_year new_month d) eqn:Hv; [|discriminate].
    intros [= <-]. unfold valid in *. simpl. rewrite Hv.
    apply andb_true_iff in Hcs as [Hcs H1]. apply andb_true_iff in Hcs as [_ H0].
    rewrite H0, H1. reflexivity. }
  destruct (except_ValueError _ _) as [period_end|e] eqn:Hexc; [|discriminate].
  intros [= <-].
  destruct (DateTime.gtb period_end (end_date credit)); [exact Hend|].
  unfold except_ValueError in Hexc.
  destruct (replace cs new_year new_month target_day) as [r|[]] eqn:H1;
    try discriminate.
  - injection Hexc as <-. eapply Hrep; exact H1.
  - destruct (monthrange_days new_year new_month) as [d|]; [|discriminate].
    simpl in Hexc. eapply Hrep; exact Hexc.
Qed.

Lemma schedule_loop_valid fuel credit o cs pn acc es log :
  schedule_loop fuel credit o cs pn acc = Some (Ok (es, log)) ->
  valid cs = true -> valid (end_date credit) = true ->
  Forall (fun p => valid (period_end_date p) = true) acc ->
  Forall (fun p => valid (period_end_date p) = true) es.
Proof.
  revert cs pn acc; induction fuel as [|fuel IH]; intros cs pn acc Hloop Hcs Hend Hacc;
    [discriminate|].
  rewrite schedule_loop_S in Hloop.
  destruct (DateTime.ltb cs (end_date credit)).
  - destruct (next_period_end credit o cs) as [pe|e] eqn:Hnext; [|discriminate].
    pose proof (next_period_end_valid _ _ _ _ Hcs Hend Hnext) as Hpe.
    assert (Hacc' : Forall (fun p => valid (period_end_date p) = true)
                           (acc ++ [new_entry credit pn cs pe])%list).
    { apply Forall_app; split; [exact Hacc|].
      constructor; [|constructor].
      destruct (new_entry_frame credit pn cs pe) as (_ & -> & _). exact Hpe. }
    destruct (pn + 1 >? 100).
    + injection Hloop as <- <-. exact Hacc'.
    + eapply IH; eassumption.
  - injection Hloop as <- <-. exact Hacc.
Qed.


Lemma schedule_loop_raises fuel credit o cs pn acc e :
  schedule_loop fuel credit o cs pn acc = Some (Raise e) -> e = ValueError.
Proof.
  revert cs pn acc; induction fuel as [|fuel IH]; intros cs pn acc Hloop;
    [discriminate|].
  rewrite schedule_loop_S in Hloop.
  destruct (DateTime.ltb cs (end_date credit)); [|discriminate].
  destruct (next_period_end credit o cs) as [pe|e'] eqn:Hnext.
  - destruct (pn + 1 >? 100); [discriminate|]. eapply IH; eassumption.
  - injection Hloop as ->. eapply next_period_end_raises; eassumption.
Qed.

(** The value of [payment_frequency] matters through its month increment
    only. *)
Lemma schedule_loop_frequency fuel credit o v v' :
  month_increment_of v = month_increment_of v' ->
  forall cs pn acc,
    schedule_loop fuel (with_frequency v credit) o cs pn acc =
    schedule_loop fuel (with_frequency v' credit) o cs pn acc.
Proof.
  intros Hv; induction fuel as [|fuel IH]; intros cs pn acc; [reflexivity|].
  rewrite !schedule_loop_S.
  change (end_date (with_frequency v credit)) with (end_date credit).
  change (end_date (with_frequency v' credit)) with (end_date credit).
  assert (Hnext : next_period_end (with_frequency v credit) o cs
                  = next_period_end (with_frequency v' credit) o cs).
  { unfold next_period_end.
    change (payment_frequency (with_frequency v credit)) with v.
    change (payment_frequency (with_frequency v' credit)) with v'.
    rewrite Hv. reflexivity. }
  rewrite Hnext.
  destruct (DateTime.ltb cs (end_date credit)); [|reflexivity].
  destruct (next_period_end (with_frequency v' credit) o cs) as [pe|e]; [|reflexivity].
  change (new_entry (with_frequency v credit) pn cs pe)
    with (new_entry (with_frequency v' credit) pn cs pe).
  destruct (pn + 1 >? 100); [reflexivity|]. apply IH.
Qed.

Lemma generate_inv fuel credit db o g :
  generate_payment_schedule_fuel fuel credit db o = Some (Ok g) ->
  exists log,
    schedule_loop fuel credit o (start_date credit) 1 [] = Some (Ok (entries g, log))
    /\ ((entries g <> [] /\ flushed g = (db ++ entries g)%list /\ warnings g = log)
        \/ (entries g = [] /\ flushed g = db /\ warnings g = (log ++ [no_entries])%list)).
Proof.
  unfold generate_payment_schedule_fuel.
  destruct (schedule_loop fuel credit o (start_date credit) 1 [])
    as [[[es log]|e]|]; try discriminate.
  destruct es as [|p es]; simpl; intros [= <-]; exists log; simpl; split; auto.
  left; repeat split; auto; discriminate.
Qed.

Lemma too_many_is_not_no_entries : too_many_periods <> no_entries.
Proof. discriminate. Qed.

(** When the loop can make its first 100 passes, it stops there and
    hands back what it has. *)
Lemma schedule_loop_of_periods credit o l :
  forall fuel cs pn acc,
    periods_from credit o cs pn l -> l <> [] ->
    pn + Z.of_nat (List.length l) = 101 ->
    (List.length l <= fuel)%nat ->
    schedule_loop fuel credit o cs pn acc
    = Some (Ok ((acc ++ l)%list, [too_many_periods])).
Proof.
  induction l as [|p l IH]; intros fuel cs pn acc Hp Hne Hlen Hfuel; [contradiction|].
  inversion Hp as [|cs' pn' pe rest Hlt Hnext Hrest]; subst.
  destruct fuel as [|fuel]; [cbn [List.length] in Hfuel; lia|].
  rewrite schedule_loop_S, Hlt, Hnext.
  cbn [List.length] in Hlen, Hfuel.
  destruct l as [|q l].
  - cbn [List.length] in Hlen.
    replace (pn + 1 >? 100) with true by (symmetry; apply Z.gtb_lt; lia).
    reflexivity.
  - replace (pn + 1 >? 100) with false
      by (symmetry; apply gtb_false; cbn [List.length] in Hlen; lia).
    rewrite (IH fuel pe (pn + 1) (acc ++ [new_entry credit pn cs pe])%list Hrest);
      [rewrite <- app_assoc; reflexivity|discriminate|lia|lia].
Qed.

(** C5. For every credit, schedule generation terminates: the month
    roll-over loop leaves by its own test, 101 passes of the period loop
    always give the answer and more passes give the same one.  An answer
    that is a schedule has at most 100 periods; it has exactly 100, that is
    the cap was reached, exactly when the warning was printed, and then
    the 100 periods are returned and flushed.  And reaching the cap is no
    failure: whenever the loop can make its first 100 passes, the answer is
    the schedule of these 100 periods, flushed, with the warning, and no
    exception. *)
Theorem generation_terminates_within_cap credit db o :
  (forall m y, fst (roll_months (Z.to_nat m) m y) <= 12)
  /\ (exists r,
      generate_payment_schedule credit db o = Some r
      /\ (forall fuel, (101 <= fuel)%nat ->
                       generate_payment_schedule_fuel fuel credit db o = Some r)
      /\ forall g, r = Ok g ->
           (List.length (entries g) <= 100)%nat
           /\ (List.length (entries g) = 100%nat <-> In too_many_periods (warnings g))
           /\ (In too_many_periods (warnings g) ->
               warnings g = [too_many_periods]
               /\ flushed g = (db ++ entries g)%list))
  /\ (forall l, periods_from credit o (start_date credit) 1 l ->
                List.length l = 100%nat ->
                generate_payment_schedule credit db o
                = Some (Ok (mk_Generated l (db ++ l)%list [too_many_periods]))).
Proof.
  split; [intros m y; apply roll_months_exit; lia|]. split.
  { destruct (schedule_loop_enough 101 credit o (start_date credit) 1 [])
      as (r & Hr & Hall); [lia|lia|].
    assert (Hgen : forall fuel, (101 <= fuel)%nat ->
                     generate_payment_schedule_fuel fuel credit db o
                     = generate_payment_schedule_fuel 101 credit db o).
    { intros fuel Hf. unfold generate_payment_schedule_fuel.
      rewrite Hr, (Hall fuel) by lia. reflexivity. }
    destruct (generate_payment_schedule credit db o) as [r'|] eqn:Hg.
    2:{ unfold generate_payment_schedule, generate_payment_schedule_fuel in Hg.
        rewrite Hr in Hg. destruct r as [[es log]|e]; [destruct (nonempty es)|];
          discriminate. }
    exists r'; split; [reflexivity|]. split.
    { intros fuel Hf. rewrite Hgen by exact Hf. exact Hg. }
    intros g ->.
    destruct (generate_inv _ _ _ _ _ Hg) as (log & Hloop & Hshape).
    pose proof (schedule_loop_length _ _ _ _ _ _ _ _ Hloop) as Hlen.
    specialize (Hlen ltac:(lia) ltac:(reflexivity)).
    destruct Hlen as [[-> Hlen]|[-> Hlen]];
      destruct Hshape as [(Hne & Hfl & Hw)|(Hnil & Hfl & Hw)];
      rewrite ?Hw; simpl.
    - repeat split; auto; try lia; try (left; reflexivity).
    - rewrite Hnil in Hlen; discriminate.
    - split; [lia|]. split; [split; [lia|intros []]|intros []].
    - split; [lia|]. split; [split; [lia|]|].
      + intros [H|[]]. exfalso; apply too_many_is_not_no_entries; auto.
      + intros [H|[]]. exfalso; apply too_many_is_not_no_entries; auto. }
  intros l Hl Hlen.
  unfold generate_payment_schedule, generate_payment_schedule_fuel.
  rewrite (schedule_loop_of_periods credit o l 101 (start_date credit) 1 [] Hl);
    [|intros ->; discriminate|lia|lia].
  cbn [app]. destruct l as [|p l]; [discriminate|]. reflexivity.
Qed.

(** C3, amended. In every generated schedule consecutive periods are
    contiguous and the first period starts at the start date of the
    credit; the final period ends at the end date of the credit (as
    Python's [==] on datetimes has it, and as the same datetime when the
    two dates of the credit are valid datetimes) whenever generation stopped
    without the 100-period warning. *)
Theorem generated_schedule_contiguous credit db o g :
  generate_payment_schedule credit db o = Some (Ok g) ->
  (forall i p q,
      nth_error (entries g) i = Some p -> nth_error (entries g) (S i) = Some q ->
      period_end_date p = period_start_date q)
  /\ (forall p, hd_error (entries g) = Some p ->
                period_start_date p = start_date credit)
  /\ (forall p, last_error (entries g) = Some p ->
                ~ In too_many_periods (warnings g) ->
                DateTime.eqb (period_end_date p) (end_date credit) = true
                /\ (valid (start_date credit) = true ->
                    valid (end_date credit) = true ->
                    period_end_date p = end_date credit)).
Proof.
  intros Hg.
  destruct (generate_inv _ _ _ _ _ Hg) as (log & Hloop & Hshape).
  destruct (schedule_loop_chained _ _ _ _ _ _ _ _ (start_date credit) Hloop)
    as (b & Hch & Hle & Hge); [constructor|left; reflexivity|].
  split; [exact (chained_nth _ _ _ Hch)|].
  split; [intros p; exact (chained_head _ _ _ _ Hch)|].
  intros p Hlast Hwarn.
  assert (Heqb : DateTime.eqb (period_end_date p) (end_date credit) = true);
    [|split; [exact Heqb|];
      intros Hvs Hve; apply eqb_is_equality; [|exact Hve|exact Heqb];
      pose proof (schedule_loop_valid _ _ _ _ _ _ _ _ Hloop Hvs Hve (Forall_nil _))
        as Hall;
      rewrite Forall_forall in Hall; apply Hall;
      unfold last_error in Hlast; apply in_rev;
      destruct (rev (entries g)); [discriminate|];
      injection Hlast as <-; left; reflexivity].
  rewrite <- (chained_last _ _ _ _ Hch Hlast) in Hle, Hge.
  destruct Hle as [Hnil|Hle]; [rewrite Hnil in Hlast; discriminate|].
  pose proof (schedule_loop_length _ _ _ _ _ _ _ _ Hloop ltac:(lia) ltac:(reflexivity))
    as [[-> _]|[-> _]].
  - exfalso; apply Hwarn.
    destruct Hshape as [(_ & _ & ->)|(_ & _ & ->)]; left; reflexivity.
  - unfold DateTime.eqb. apply Z.eqb_eq. specialize (Hge eq_refl). lia.
Qed.


End GenerationFacts.

(** ** The key-rate store and its queries *)

Section QueryFacts.
Context {X : Type} (no_worse : X -> X -> bool).

Lemma first_insert_by (x : X) (l : list X) :
  first (insert_by no_worse x l) =
  match first l with
  | None => Some x
  | Some y => if no_worse x y then Some x else Some y
  end.
Proof. destruct l as [|y l]; simpl; [reflexivity|]. destruct (no_worse x y); reflexivity. Qed.

Lemma first_order_by (l : list X) :
  first (order_by no_worse l) = first_best no_worse l.
Proof.
  induction l as [|x l IH]; simpl; [reflexivity|].
  rewrite first_insert_by, IH. reflexivity.
Qed.

Lemma first_best_none (l : list X) : first_best no_worse l = None <-> l = [].
Proof.
  destruct l as [|x l]; simpl; [tauto|].
  destruct (first_best no_worse l) as [y|]; [destruct (no_worse x y)|];
    split; discriminate.
Qed.

Lemma first_best_In (l : list X) (x : X) : first_best no_worse l = Some x -> In x l.
Proof.
  revert x; induction l as [|y l IH]; simpl; intros x; [discriminate|].
  destruct (first_best no_worse l) as [z|].
  - destruct (no_worse y z); intros [= <-]; auto.
  - intros [= <-]; auto.
Qed.

Hypothesis total : forall x y, no_worse x y = false -> no_worse y x = true.
Hypothesis trans : forall x y z,
    no_worse x y = true -> no_worse y z = true -> no_worse x z = true.

Lemma no_worse_refl (x : X) : no_worse x x = true.
Proof.
  destruct (no_worse x x) eqn:E; [reflexivity|].
  rewrite (total _ _ E) in E. discriminate.
Qed.

Lemma first_best_best (l : list X) (x : X) :
  first_best no_worse l = Some x -> forall y, In y l -> no_worse x y = true.
Proof.
  revert x; induction l as [|a l IH]; simpl; intros x Hx y Hy; [contradiction|].
  destruct (first_best no_worse l) as [z|] eqn:Hz.
  - destruct (no_worse a z) eqn:Haz; injection Hx as <-.
    + destruct Hy as [<-|Hy]; [apply no_worse_refl|].
      eapply trans; [exact Haz|]. apply (IH z eq_refl y Hy).
    + destruct Hy as [<-|Hy]; [apply total; exact Haz|].
      apply (IH z eq_refl y Hy).
  - injection Hx as <-. apply first_best_none in Hz; subst l.
    destruct Hy as [<-|[]]. apply no_worse_refl.
Qed.

Lemma insert_by_In (x z : X) (l : list X) :
  In z (insert_by no_worse x l) <-> z = x \/ In z l.
Proof.
  induction l as [|y l IH]; simpl; [intuition congruence|].
  destruct (no_worse x y); simpl; [intuition congruence|].
  rewrite IH. intuition congruence.
Qed.

Lemma insert_by_perm (x : X) (l : list X) : Permutation (insert_by no_worse x l) (x :: l).
Proof.
  induction l as [|y l IH]; simpl; [reflexivity|].
  destruct (no_worse x y); [reflexivity|].
  rewrite IH. apply perm_swap.
Qed.

Lemma order_by_perm (l : list X) : Permutation (order_by no_worse l) l.
Proof.
  induction l as [|x l IH]; simpl; [reflexivity|].
  rewrite insert_by_perm. constructor. exact IH.
Qed.

Lemma insert_by_sorted (x : X) (l : list X) :
  StronglySorted (fun a b => no_worse a b = true) l ->
  StronglySorted (fun a b => no_worse a b = true) (insert_by no_worse x l).
Proof.
  induction 1 as [|y l Hl IH Hy]; simpl; [repeat constructor|].
  destruct (no_worse x y) eqn:Hxy.
  - constructor; [constructor; assumption|].
    constructor; [exact Hxy|].
    eapply Forall_impl; [|exact Hy]. intros z Hz. eapply trans; eassumption.
  - constructor; [exact IH|].
    apply Forall_forall. intros z Hz. apply insert_by_In in Hz as [->|Hz].
    + apply total; exact Hxy.
    + rewrite Forall_forall in Hy. apply Hy; exact Hz.
Qed.

Lemma order_by_sorted (l : list X) :
  StronglySorted (fun a b => no_worse a b = true) (order_by no_worse l).
Proof.
  induction l as [|x l IH]; simpl; [constructor|]. apply insert_by_sorted; exact IH.
Qed.

(** Among rows that all tie, the first of the table wins. *)
Lemma first_best_ties (l : list X) :
  (forall x y, In x l -> In y l -> no_worse x y = true) ->
  first_best no_worse l = hd_error l.
Proof.
  destruct l as [|x l]; simpl; intros Hall; [reflexivity|].
  destruct (first_best no_worse l) as [y|] eqn:Hy; [|reflexivity].
  rewrite Hall; auto. right. eapply first_best_In; exact Hy.
Qed.

End QueryFacts.

Section StoreFacts.
Context {R : Type} {num : Number R}.

Implicit Types (db : list (CBRKeyRate (R := R))) (r : CBRKeyRate (R := R)).

Lemma effective_desc_total r r' :
  effective_desc r r' = false -> effective_desc r' r = true.
Proof.
  unfold effective_desc, DateTime.geb, DateTime.leb.
  rewrite Z.leb_gt, Z.leb_le. lia.
Qed.

Lemma effective_desc_trans r1 r2 r3 :
  effective_desc r1 r2 = true -> effective_desc r2 r3 = true ->
  effective_desc r1 r3 = true.
Proof.
  unfold effective_desc, DateTime.geb, DateTime.leb.
  rewrite !Z.leb_le. lia.
Qed.

Lemma get_rate_on_date_row_at db d : get_rate_on_date db d = row_at db (instant d).
Proof. unfold get_rate_on_date. rewrite first_order_by. reflexivity. Qed.

(** What the row in force is: a row that takes effect at or before the
    instant and that no other such row follows; nothing exactly when every
    row takes effect later. *)
Lemma row_at_Some db t r :
  row_at db t = Some r ->
  In r db /\ instant (effective_date r) <= t
  /\ forall r', In r' db -> instant (effective_date r') <= t ->
                instant (effective_date r') <= instant (effective_date r).
Proof.
  unfold row_at. intros H.
  pose proof (first_best_In _ _ _ H) as Hin.
  apply filter_In in Hin as [Hin Hle]. apply Z.leb_le in Hle.
  repeat split; auto.
  intros r' Hin' Hle'.
  assert (Hb : effective_desc r r' = true).
  { eapply first_best_best;
      [exact effective_desc_total|exact effective_desc_trans|exact H|].
    apply filter_In; split; [exact Hin'|]. apply Z.leb_le, Hle'. }
  unfold effective_desc, DateTime.geb, DateTime.leb in Hb. apply Z.leb_le in Hb. exact Hb.
Qed.

Lemma row_at_None db t :
  row_at db t = None <-> forall r, In r db -> t < instant (effective_date r).
Proof.
  unfold row_at. rewrite first_best_none. split.
  - intros Hnil r Hin.
    destruct (Z.lt_ge_cases t (instant (effective_date r))) as [|Hge]; auto.
    assert (Hf : In r (filter (fun r => instant (effective_date r) <=? t) db)).
    { apply filter_In; split; auto. apply Z.leb_le; lia. }
    rewrite Hnil in Hf. contradiction.
  - intros Hall.
    destruct (filter _ db) as [|r l] eqn:Hf; [reflexivity|].
    assert (Hin : In r (filter (fun r => instant (effective_date r) <=? t) db))
      by (rewrite Hf; left; reflexivity).
    apply filter_In in Hin as [Hin Hle]. apply Z.leb_le in Hle.
    specialize (Hall r Hin). lia.
Qed.

Lemma get_rate_on_date_Some db d r :
  get_rate_on_date db d = Some r ->
  In r db /\ instant (effective_date r) <= instant d
  /\ forall r', In r' db -> instant (effective_date r') <= instant d ->
                instant (effective_date r') <= instant (effective_date r).
Proof. rewrite get_rate_on_date_row_at. apply row_at_Some. Qed.

Lemma get_rate_on_date_None db d :
  get_rate_on_date db d = None <->
  forall r, In r db -> instant d < instant (effective_date r).
Proof. rewrite get_rate_on_date_row_at. apply row_at_None. Qed.

(** When a row takes effect exactly at [d], the row in force at [d] is
    the first such row of the table. *)
Lemma get_rate_on_date_exact db d r :
  hd_error (filter (in_period d d) db) = Some r ->
  get_rate_on_date db d = Some r.
Proof.
  unfold get_rate_on_date. rewrite first_order_by.
  induction db as [|a db IH]; simpl; [discriminate|].
  unfold in_period at 1.
  destruct (DateTime.leb (effective_date a) d) eqn:Hle; simpl.
  - destruct (DateTime.geb (effective_date a) d) eqn:Hge; simpl.
    + intros [= <-].
      destruct (first_best effective_desc _) as [y|] eqn:Hy; [|reflexivity].
      apply first_best_In, filter_In in Hy as [_ Hy].
      unfold effective_desc, DateTime.geb, DateTime.leb in *.
      apply Z.leb_le in Hy, Hle, Hge.
      replace (instant (effective_date y) <=? instant (effective_date a)) with true
        by (symmetry; apply Z.leb_le; lia).
      reflexivity.
    + intros H. rewrite (IH H).
      assert (Hr : instant (effective_date r) = instant d).
      { assert (Hin : In r (filter (in_period d d) db))
          by (destruct (filter (in_period d d) db); [discriminate|];
              injection H as <-; left; reflexivity).
        apply filter_In in Hin as [_ Hin].
        unfold in_period, DateTime.geb, DateTime.leb in Hin.
        apply andb_true_iff in Hin as [H1 H2].
        apply Z.leb_le in H1, H2. lia. }
      unfold effective_desc, DateTime.geb, DateTime.leb in *.
      apply Z.leb_gt in Hge.
      replace (instant (effective_date r) <=? instant (effective_date a)) with false
        by (symmetry; apply Z.leb_gt; lia).
      reflexivity.
  - rewrite andb_false_r. exact IH.
Qed.

Lemma sub_days_same d : sub_days d d = 0.
Proof. unfold sub_days. rewrite Z.sub_diag. reflexivity. Qed.

(** C8. On the empty store the current rate, the rate on any date and
    the average over any range are all [None]. *)
Theorem empty_store_is_unavailable :
  get_current_key_rate (@nil (CBRKeyRate (R := R))) = None
  /\ (forall x, get_key_rate_on_date (@nil (CBRKeyRate (R := R))) x = None)
  /\ (forall a b, get_average_key_rate_for_period (@nil (CBRKeyRate (R := R))) a b = None).
Proof. repeat split. Qed.

(** C10. [get_base_rate_value] always answers a number: its body raises
    nothing.  For KEY_RATE it answers the current rate when there is one and
    16.0 when the rate query answers [None], as on the empty store; 5.0 for
    LIBOR; 4.5 for SOFR; 16.0 for every other indicator. *)
Theorem base_rate_value_defaults db :
  (forall indicator,
      get_base_rate_value_try indicator db = Ok (get_base_rate_value indicator db))
  /\ (forall current_rate, get_current_key_rate db = Some current_rate ->
                           get_base_rate_value "KEY_RATE" db = current_rate)
  /\ (get_current_key_rate db = None ->
      get_base_rate_value "KEY_RATE" db = num_of_Z 16)
  /\ get_current_key_rate (@nil (CBRKeyRate (R := R))) = None
  /\ get_base_rate_value "KEY_RATE" (@nil (CBRKeyRate (R := R))) = num_of_Z 16
  /\ get_base_rate_value "LIBOR" db = num_of_Z 5
  /\ get_base_rate_value "SOFR" db = num_div (num_of_Z 45) (num_of_Z 10)
  /\ (forall indicator,
         indicator <> "KEY_RATE"%string -> indicator <> "LIBOR"%string ->
         indicator <> "SOFR"%string ->
         get_base_rate_value indicator db = num_of_Z 16).
Proof.
  repeat split.
  - intros indicator. unfold get_base_rate_value, get_base_rate_value_try.
    destruct (String.eqb indicator "KEY_RATE");
      [destruct (get_current_key_rate db); reflexivity|].
    destruct (String.eqb indicator "LIBOR"); [reflexivity|].
    destruct (String.eqb indicator "SOFR"); reflexivity.
  - intros current_rate H. unfold get_base_rate_value, get_base_rate_value_try.
    simpl. rewrite H. reflexivity.
  - intros H. unfold get_base_rate_value, get_base_rate_value_try.
    simpl. rewrite H. reflexivity.
  - intros indicator H1 H2 H3.
    unfold get_base_rate_value, get_base_rate_value_try.
    apply String.eqb_neq in H1, H2, H3. rewrite H1, H2, H3. reflexivity.
Qed.

Lemma effective_asc_total r r' :
  effective_asc r r' = false -> effective_asc r' r = true.
Proof. unfold effective_asc, DateTime.leb. rewrite Z.leb_gt, Z.leb_le. lia. Qed.

Lemma effective_asc_trans r1 r2 r3 :
  effective_asc r1 r2 = true -> effective_asc r2 r3 = true -> effective_asc r1 r3 = true.
Proof. unfold effective_asc, DateTime.leb. rewrite !Z.leb_le. lia. Qed.

Lemma get_key_rate_on_date_rate_at db d :
  get_key_rate_on_date db d = rate_at db (instant d).
Proof. unfold get_key_rate_on_date, rate_at. rewrite get_rate_on_date_row_at. reflexivity. Qed.

Lemma NoDup_map_injective {X Y : Type} (f : X -> Y) (l : list X) (x y : X) :
  NoDup (map f l) -> In x l -> In y l -> f x = f y -> x = y.
Proof.
  induction l as [|a l IH]; simpl; intros Hnd Hx Hy Hf; [contradiction|].
  inversion Hnd as [|? ? Hnotin Hnd']; subst.
  destruct Hx as [->|Hx], Hy as [->|Hy]; auto.
  - exfalso; apply Hnotin. rewrite Hf. apply in_map; exact Hy.
  - exfalso; apply Hnotin. rewrite <- Hf. apply in_map; exact Hx.
Qed.

Lemma NoDup_map_filter {X Y : Type} (f : X -> Y) (p : X -> bool) (l : list X) :
  NoDup (map f l) -> NoDup (map f (filter p l)).
Proof.
  induction l as [|a l IH]; simpl; intros Hnd; [constructor|].
  inversion Hnd as [|? ? Hnotin Hnd']; subst.
  destruct (p a); simpl; [|apply IH; exact Hnd'].
  constructor; [|apply IH; exact Hnd'].
  intros Hin. apply Hnotin. apply in_map_iff in Hin as (x & Hx & Hin).
  apply filter_In in Hin as [Hin _]. rewrite <- Hx. apply in_map; exact Hin.
Qed.

(** In a store without two rows of one effective date, the row in force at
    [t] is the row at or before [t] that no row follows up to [t]. *)
Lemma row_at_latest db t r :
  NoDup (map (fun r => instant (effective_date r)) db) ->
  In r db -> instant (effective_date r) <= t ->
  (forall r', In r' db ->
              ~ (instant (effective_date r) < instant (effective_date r') <= t)) ->
  row_at db t = Some r.
Proof.
  intros Hnd Hin Hle Hnone.
  destruct (row_at db t) as [r0|] eqn:H0.
  - destruct (row_at_Some _ _ _ H0) as (Hin0 & Hle0 & Hmax).
    specialize (Hmax r Hin Hle). specialize (Hnone r0 Hin0).
    f_equal. eapply NoDup_map_injective; [exact Hnd|exact Hin0|exact Hin|]. simpl. lia.
  - rewrite row_at_None in H0. specialize (H0 r Hin). lia.
Qed.

(** The row in force does not change while no row takes effect. *)
Lemma row_at_stable db t t' :
  t <= t' ->
  (forall r, In r db -> ~ (t < instant (effective_date r) <= t')) ->
  row_at db t' = row_at db t.
Proof.
  intros Hle Hnone. unfold row_at. f_equal. apply filter_ext_in.
  intros r Hin. specialize (Hnone r Hin).
  destruct (instant (effective_date r) <=? t) eqn:E1.
  - apply Z.leb_le in E1. apply Z.leb_le. lia.
  - apply Z.leb_gt in E1. apply Z.leb_gt. lia.
Qed.

(** The rows of the period, in the order of the query: each one is a row
    of the store that takes effect within the period, every such row is
    there, and with distinct effective dates they go strictly upwards. *)
Lemma period_rows_In db a b r :
  In r (order_by effective_asc (filter (in_period a b) db)) <->
  In r db /\ instant a <= instant (effective_date r) <= instant b.
Proof.
  split.
  - intros H. apply (Permutation_in _ (order_by_perm _ _)) in H.
    apply filter_In in H as [H1 H2]. split; [exact H1|].
    unfold in_period, DateTime.geb, DateTime.leb in H2.
    apply andb_true_iff in H2 as [H2 H3]. apply Z.leb_le in H2, H3. lia.
  - intros [H1 H2]. apply (Permutation_in _ (Permutation_sym (order_by_perm _ _))).
    apply filter_In; split; [exact H1|].
    unfold in_period, DateTime.geb, DateTime.leb.
    apply andb_true_iff; split; apply Z.leb_le; lia.
Qed.

Lemma period_rows_sorted db a b :
  NoDup (map (fun r => instant (effective_date r)) db) ->
  StronglySorted (fun r r' => instant (effective_date r) < instant (effective_date r'))
                 (order_by effective_asc (filter (in_period a b) db)).
Proof.
  intros Hnd.
  assert (Hnd' : NoDup (map (fun r => instant (effective_date r))
                            (order_by effective_asc (filter (in_period a b) db)))).
  { eapply Permutation_NoDup;
      [apply Permutation_map, Permutation_sym, order_by_perm|].
    apply NoDup_map_filter; exact Hnd. }
  pose proof (order_by_sorted effective_asc effective_asc_total effective_asc_trans
                (filter (in_period a b) db)) as Hs.
  induction Hs as [|r l Hl IH Hr]; [constructor|].
  simpl in Hnd'. inversion Hnd' as [|? ? Hnotin Hnd'']; subst.
  constructor; [apply IH; exact Hnd''|].
  rewrite Forall_forall in Hr |- *. intros r' Hin'.
  specialize (Hr r' Hin'). unfold effective_asc, DateTime.leb in Hr.
  apply Z.leb_le in Hr.
  assert (instant (effective_date r) <> instant (effective_date r')).
  { intros Heq. apply Hnotin. rewrite Heq.
    apply (in_map (fun r => instant (effective_date r))); exact Hin'. }
  lia.
Qed.

Lemma filter_only {X : Type} (p : X -> bool) (l : list X) (x : X) :
  NoDup l -> In x l -> p x = true ->
  (forall y, In y l -> p y = true -> y = x) ->
  filter p l = [x].
Proof.
  induction l as [|a l IH]; intros Hnd Hin Hx Honly; [contradiction|].
  inversion Hnd as [|? ? Hnotin Hnd']; subst. cbn [filter].
  destruct (p a) eqn:Ea.
  - assert (a = x) as -> by (apply Honly; [left; reflexivity|exact Ea]).
    f_equal. destruct (filter p l) as [|y l'] eqn:E; [reflexivity|].
    assert (Hy : In y (filter p l)) by (rewrite E; left; reflexivity).
    apply filter_In in Hy. destruct Hy as (Hy & Hpy).
    exfalso. apply Hnotin.
    rewrite <- (Honly y (or_intror Hy) Hpy). exact Hy.
  - destruct Hin as [->|Hin]; [congruence|].
    apply IH; [exact Hnd'|exact Hin|exact Hx|].
    intros y Hy. apply Honly. right; exact Hy.
Qed.

(** Where one row only is not preceded by any other, that row is the
    only one an [ORDER BY] may put first. *)
Lemma first_candidates_only {X : Type} (no_worse : X -> X -> bool) (rows : list X) (x : X) :
  NoDup rows -> In x rows ->
  (forall y, In y rows -> no_worse x y = true) ->
  (forall y, In y rows -> (forall z, In z rows -> no_worse y z = true) -> y = x) ->
  first_candidates no_worse rows = [x].
Proof.
  intros Hnd Hin Hbest Honly. unfold first_candidates.
  apply filter_only; [exact Hnd|exact Hin| |].
  - apply forallb_forall. exact Hbest.
  - intros y Hy Hpy. apply Honly; [exact Hy|].
    apply forallb_forall. exact Hpy.
Qed.

Lemma rate_on_date_answers_distinct db d :
  NoDup (map (fun r => instant (effective_date r)) db) ->
  rate_on_date_answers db d = [get_key_rate_on_date db d].
Proof.
  intros Hnd. unfold rate_on_date_answers, get_key_rate_on_date.
  destruct (get_rate_on_date db d) as [r|] eqn:Hr.
  - destruct (get_rate_on_date_Some _ _ _ Hr) as (Hin & Hle & Hmax).
    rewrite (first_candidates_only effective_desc _ r); [reflexivity| | | |].
    + apply NoDup_filter. exact (NoDup_map_inv _ _ Hnd).
    + apply filter_In. split; [exact Hin|].
      unfold DateTime.leb. apply Z.leb_le. exact Hle.
    + intros y Hy. apply filter_In in Hy. destruct Hy as (Hy & Hyle).
      unfold DateTime.leb in Hyle. apply Z.leb_le in Hyle.
      unfold effective_desc, DateTime.geb. apply Z.leb_le. exact (Hmax y Hy Hyle).
    + intros y Hy Hbest. apply filter_In in Hy. destruct Hy as (Hy & Hyle).
      unfold DateTime.leb in Hyle. apply Z.leb_le in Hyle.
      assert (Hry : effective_desc y r = true).
      { apply Hbest. apply filter_In. split; [exact Hin|].
        unfold DateTime.leb. apply Z.leb_le. exact Hle. }
      unfold effective_desc, DateTime.geb in Hry. apply Z.leb_le in Hry.
      specialize (Hmax y Hy Hyle).
      apply (NoDup_map_injective (fun r => instant (effective_date r)) db);
        [exact Hnd|exact Hy|exact Hin|]. cbv beta. lia.
  - rewrite get_rate_on_date_None in Hr.
    replace (filter (fun r => DateTime.leb (effective_date r) d) db)
      with (@nil (CBRKeyRate (R := R))); [reflexivity|].
    symmetry. destruct (filter _ db) as [|y l] eqn:E; [reflexivity|].
    assert (Hy : In y (filter (fun r => DateTime.leb (effective_date r) d) db))
      by (rewrite E; left; reflexivity).
    apply filter_In in Hy. destruct Hy as (Hy & Hyle).
    unfold DateTime.leb in Hyle. apply Z.leb_le in Hyle.
    specialize (Hr y Hy). lia.
Qed.

Lemma degenerate_range_distinct db d :
  NoDup (map (fun r => instant (effective_date r)) db) ->
  get_average_key_rate_for_period db d d = get_key_rate_on_date db d
  /\ average_at_answers db d = [get_average_key_rate_for_period db d d].
Proof.
  intros Hnd.
  unfold average_at_answers, get_average_key_rate_for_period. cbv zeta.
  destruct (filter (in_period d d) db) as [|r0 rs] eqn:Hrates.
  - cbn [order_by fold_right nonempty negb].
    split; [reflexivity|]. exact (rate_on_date_answers_distinct db d Hnd).
  - assert (Hin0 : In r0 (filter (in_period d d) db))
      by (rewrite Hrates; left; reflexivity).
    apply filter_In in Hin0. destruct Hin0 as (Hin0 & Hp0).
    assert (Hat : forall y : CBRKeyRate (R := R),
               in_period d d y = true -> instant (effective_date y) = instant d).
    { intros y Hy. unfold in_period, DateTime.geb, DateTime.leb in Hy.
      apply andb_true_iff in Hy. destruct Hy as (H1 & H2).
      apply Z.leb_le in H1, H2. lia. }
    assert (Hone : filter (in_period d d) db = [r0]).
    { apply filter_only; [exact (NoDup_map_inv _ _ Hnd)|exact Hin0|exact Hp0|].
      intros y Hy Hpy.
      apply (NoDup_map_injective (fun r => instant (effective_date r)) db);
        [exact Hnd|exact Hy|exact Hin0|]. cbv beta.
      rewrite (Hat y Hpy), (Hat r0 Hp0). reflexivity. }
    rewrite Hrates in Hone. injection Hone as ->.
    cbn [order_by fold_right insert_by nonempty negb].
    rewrite sub_days_same. cbn [Z.eqb].
    assert (Hon : get_rate_on_date db d = Some r0).
    { rewrite get_rate_on_date_row_at.
      apply row_at_latest; [exact Hnd|exact Hin0|rewrite (Hat r0 Hp0); lia|].
      intros r' _. rewrite (Hat r0 Hp0). lia. }
    split.
    + unfold get_key_rate_on_date. rewrite Hon. reflexivity.
    + unfold first_candidates. cbn [filter forallb].
      unfold effective_asc at 1, DateTime.leb. rewrite Z.leb_refl. reflexivity.
Qed.

(** C9, amended. In a store without two rows of one effective date, the
    average over the range from [d] to [d] is the rate on [d], and both
    answers are fixed by the store: they do not depend on the order the
    database gives to rows of equal effective date.  In every store the
    rate on [d] is the rate of a row that takes effect at or before [d] and
    that no other such row follows, or [None] exactly when no row takes
    effect at or before [d]. *)
Theorem degenerate_range_is_rate_on_date db d :
  (NoDup (map (fun r => instant (effective_date r)) db) ->
   get_average_key_rate_for_period db d d = get_key_rate_on_date db d
   /\ rate_on_date_answers db d = [get_key_rate_on_date db d]
   /\ average_at_answers db d = [get_average_key_rate_for_period db d d])
  /\ (get_key_rate_on_date db d = None <->
      forall r, In r db -> instant d < instant (effective_date r))
  /\ (forall v, get_key_rate_on_date db d = Some v ->
        exists r, In r db /\ rate r = v
                  /\ instant (effective_date r) <= instant d
                  /\ forall r', In r' db ->
                                instant (effective_date r') <= instant d ->
                                instant (effective_date r')
                                <= instant (effective_date r)).
Proof.
  split; [|split].
  - intros Hnd. destruct (degenerate_range_distinct db d Hnd) as (Heq & Havg).
    split; [exact Heq|]. split; [exact (rate_on_date_answers_distinct db d Hnd)|exact Havg].
  - unfold get_key_rate_on_date. rewrite <- get_rate_on_date_None.
    destruct (get_rate_on_date db d); simpl; split; congruence.
  - unfold get_key_rate_on_date. intros v Hv.
    destruct (get_rate_on_date db d) as [r|] eqn:Hr; [|discriminate].
    injection Hv as <-. exists r.
    destruct (get_rate_on_date_Some _ _ _ Hr) as (H1 & H2 & H3). auto.
Qed.

End StoreFacts.

(** ** Upsert of rate points *)

Section UpsertFacts.
Context {R : Type} {num : Number R}.

Implicit Types (db : list (CBRKeyRate (R := R))) (rd : RateData (R := R)).

Lemma update_first_split {X : Type} (p : X -> bool) (f : X -> X) (l : list X) (x : X) :
  first (filter p l) = Some x ->
  exists before after,
    l = (before ++ x :: after)%list /\ filter p before = [] /\ p x = true
    /\ update_first p f l = (before ++ f x :: after)%list.
Proof.
  induction l as [|a l IH]; simpl; [discriminate|].
  destruct (p a) eqn:Ha; simpl.
  - intros [= <-]. exists [], l. simpl. auto.
  - intros H. destruct (IH H) as (before & after & -> & Hb & Hx & Hu).
    exists (a :: before), after. simpl. rewrite Ha, Hu. auto.
Qed.

Lemma first_filter_None {X : Type} (p : X -> bool) (l : list X) :
  first (filter p l) = None -> filter p l = [].
Proof. destruct (filter p l); [reflexivity|discriminate]. Qed.

Lemma count_date_app d db db' :
  count_date d (db ++ db') = (count_date d db + count_date d db')%nat.
Proof. unfold count_date. rewrite filter_app, length_app. reflexivity. Qed.

Lemma count_date_zero d db :
  count_date d db = 0%nat -> filter (fun r => DateTime.eqb (date r) d) db = [].
Proof. unfold count_date. destruct (filter _ db); [reflexivity|discriminate]. Qed.

Lemma upsert_existing db rd old :
  first (filter (same_date rd) db) = Some old ->
  exists before after,
    db = (before ++ old :: after)%list
    /\ count_date (rd_date rd) before = 0%nat
    /\ DateTime.eqb (date old) (rd_date rd) = true
    /\ upsert_rates [rd] db = ((before ++ overwrite rd old :: after)%list, 1).
Proof.
  intros H.
  destruct (update_first_split (same_date rd) (overwrite rd) db old H)
    as (before & after & Hdb & Hb & Hold & Hup).
  exists before, after. repeat split; auto.
  - unfold count_date. change (fun r => DateTime.eqb (date r) (rd_date rd))
      with (same_date rd). rewrite Hb. reflexivity.
  - unfold upsert_rates; simpl. rewrite H, Hup, app_nil_r. reflexivity.
Qed.

Lemma upsert_new db rd :
  first (filter (same_date rd) db) = None ->
  upsert_rates [rd] db
  = ((db ++ [mk_CBRKeyRate (rd_date rd) (rd_effective_date rd) (rd_rate rd)])%list, 1).
Proof. intros H. unfold upsert_rates; simpl. rewrite H. reflexivity. Qed.

Lemma eqb_refl_dt d : DateTime.eqb d d = true.
Proof. unfold DateTime.eqb. apply Z.eqb_refl. Qed.

(** After the upsert of one point into a table that holds its date at
    most once, the table holds the date once, with the rate and the
    effective date of the point. *)
Lemma upsert_leaves_one db rd :
  (count_date (rd_date rd) db <= 1)%nat ->
  let db' := fst (upsert_rates [rd] db) in
  count_date (rd_date rd) db' = 1%nat
  /\ forall r, In r db' -> DateTime.eqb (date r) (rd_date rd) = true ->
               rate r = rd_rate rd /\ effective_date r = rd_effective_date rd.
Proof.
  intros Hcount.
  destruct (first (filter (same_date rd) db)) as [old|] eqn:Hfirst.
  - destruct (upsert_existing _ _ _ Hfirst) as (before & after & Hdb & Hb & Hold & Hup).
    rewrite Hup; simpl.
    assert (Ha : count_date (rd_date rd) after = 0%nat).
    { rewrite Hdb, count_date_app, Hb in Hcount.
      unfold count_date in Hcount |- *; simpl in Hcount. rewrite Hold in Hcount.
      simpl in Hcount. lia. }
    split.
    + rewrite count_date_app, Hb. unfold count_date in Ha |- *; simpl.
      rewrite Hold; simpl. rewrite Ha. reflexivity.
    + intros r Hin Hr.
      apply in_app_or in Hin as [Hin|[<-|Hin]].
      * apply count_date_zero in Hb.
        assert (Hf : In r (filter (fun r => DateTime.eqb (date r) (rd_date rd)) before))
          by (apply filter_In; auto).
        rewrite Hb in Hf; contradiction.
      * split; reflexivity.
      * apply count_date_zero in Ha.
        assert (Hf : In r (filter (fun r => DateTime.eqb (date r) (rd_date rd)) after))
          by (apply filter_In; auto).
        rewrite Ha in Hf; contradiction.
  - rewrite (upsert_new _ _ Hfirst); simpl.
    apply first_filter_None in Hfirst.
    split.
    + rewrite count_date_app. unfold count_date at 1.
      change (fun r => DateTime.eqb (date r) (rd_date rd)) with (same_date rd).
      rewrite Hfirst. unfold count_date; simpl. rewrite eqb_refl_dt. reflexivity.
    + intros r Hin Hr.
      apply in_app_or in Hin as [Hin|[<-|[]]]; [|split; reflexivity].
      assert (Hf : In r (filter (same_date rd) db)) by (apply filter_In; auto).
      rewrite Hfirst in Hf; contradiction.
Qed.

Lemma count_date_same_instant d d' db :
  DateTime.eqb d' d = true -> count_date d' db = count_date d db.
Proof.
  intros H. unfold DateTime.eqb in H. apply Z.eqb_eq in H.
  unfold count_date. f_equal. apply filter_ext. intros r.
  unfold DateTime.eqb. rewrite H. reflexivity.
Qed.

(** C6, amended. For every table that holds an announcement date at
    most once, the upsert of a point with that date overwrites, in place,
    the rate and the effective date of the row that has it, and the upsert
    of a point with a new date appends a row; either way the table then
    holds the date exactly once, with the rate of the point, also after a
    second upsert of the same date with another rate.  The loop alone does
    nothing on the empty list, but [update_key_rates] raises an exception
    when the sources give no point, and upserts what they give
    otherwise. *)
Theorem upsert_keyed_by_announcement_date db rd :
  (forall old, first (filter (same_date rd) db) = Some old ->
      exists before after,
        db = (before ++ old :: after)%list
        /\ count_date (rd_date rd) before = 0%nat
        /\ DateTime.eqb (date old) (rd_date rd) = true
        /\ upsert_rates [rd] db = ((before ++ overwrite rd old :: after)%list, 1))
  /\ (count_date (rd_date rd) db = 0%nat ->
      upsert_rates [rd] db
      = ((db ++ [mk_CBRKeyRate (rd_date rd) (rd_effective_date rd) (rd_rate rd)])%list,
         1))
  /\ ((count_date (rd_date rd) db <= 1)%nat ->
      (let db' := fst (upsert_rates [rd] db) in
       count_date (rd_date rd) db' = 1%nat
       /\ forall r, In r db' -> DateTime.eqb (date r) (rd_date rd) = true ->
                    rate r = rd_rate rd /\ effective_date r = rd_effective_date rd)
      /\ forall rd2, DateTime.eqb (rd_date rd2) (rd_date rd) = true ->
           let db'' := fst (upsert_rates [rd2] (fst (upsert_rates [rd] db))) in
           count_date (rd_date rd) db'' = 1%nat
           /\ forall r, In r db'' -> DateTime.eqb (date r) (rd_date rd) = true ->
                        rate r = rd_rate rd2)
  /\ upsert_rates [] db = (db, 0)
  /\ (forall f s e, fetch_cascade f s e = [] ->
                    update_key_rates db f s e = Raise (Exception_ fetch_failed))
  /\ (forall f s e, fetch_cascade f s e <> [] ->
                    update_key_rates db f s e
                    = Ok (upsert_rates (fetch_cascade f s e) db)).
Proof.
  split; [intros old; apply upsert_existing|].
  split.
  { intros H. apply upsert_new. apply count_date_zero in H.
    change (fun r => DateTime.eqb (date r) (rd_date rd)) with (same_date rd) in H.
    rewrite H. reflexivity. }
  split.
  { intros Hcount. pose proof (upsert_leaves_one db rd Hcount) as [H1 H2].
    split; [split; assumption|].
    intros rd2 Hsame.
    assert (Hc2 : (count_date (rd_date rd2) (fst (upsert_rates [rd] db)) <= 1)%nat).
    { rewrite (count_date_same_instant _ _ _ Hsame). simpl in H1. rewrite H1. lia. }
    pose proof (upsert_leaves_one _ rd2 Hc2) as [H3 H4]. simpl in H3, H4.
    split.
    - rewrite <- (count_date_same_instant _ _ _ Hsame). exact H3.
    - intros r Hin Hr. apply H4; [exact Hin|].
      unfold DateTime.eqb in *. apply Z.eqb_eq in Hsame, Hr. apply Z.eqb_eq. lia. }
  split; [unfold upsert_rates; simpl; rewrite app_nil_r; reflexivity|].
  split.
  - intros f s e H. unfold update_key_rates. rewrite H. reflexivity.
  - intros f s e H. unfold update_key_rates.
    destruct (fetch_cascade f s e); [contradiction|reflexivity].
Qed.

End UpsertFacts.

(** ** Recalculation *)

Section RecalculationFacts.
Context {R : Type} {num : Number R}.

Implicit Types (db : list (CBRKeyRate (R := R))) (p : PaymentSchedule (R := R))
         (credit : CreditObligation (R := R)).

Lemma recalculate_frame p db now indicator credit_spread :
  frame (fst (recalculate_with_historical_rates p db now indicator credit_spread))
  = frame p.
Proof.
  unfold recalculate_with_historical_rates.
  destruct (String.eqb indicator "KEY_RATE"); [|reflexivity].
  destruct (DateTime.gtb (period_start_date p) now).
  - destruct (get_current_key_rate db); [|reflexivity].
    simpl. destruct (period_days p); [|reflexivity].
    destruct (num_truthy (principal_amount p) && negb (z =? 0)); reflexivity.
  - destruct (get_average_key_rate_for_period db _ _); [|reflexivity].
    simpl. destruct (period_days p); [|reflexivity].
    destruct (num_truthy (principal_amount p) && negb (z =? 0)); reflexivity.
Qed.

Lemma recalculate_loop_frame l db now credit ps es :
  recalculate_loop l db now credit = Ok (ps, es) ->
  map frame ps = map frame l.
Proof.
  revert ps es; induction l as [|p l IH]; simpl; intros ps es H.
  - injection H as <- <-. reflexivity.
  - pose proof (recalculate_frame p db now (base_rate_indicator credit)
                  (credit_spread credit)) as Hf.
    destruct (recalculate_with_historical_rates p db now _ _) as [p' [[]|e]];
      [|discriminate].
    destruct (recalculate_loop l db now credit) as [[ps' es']|e]; [|discriminate].
    simpl in H. injection H as <- <-. simpl. simpl in Hf.
    rewrite Hf, (IH ps' es' eq_refl). reflexivity.
Qed.

(** C7. For every period, whether recalculation succeeds, skips or
    fails, the period keeps its number, its three dates, its principal
    amount and its period days (and its credit and its spread): only
    [base_rate], [interest_rate], [interest_amount] and [total_payment] can
    differ.  The same holds, period by period, for the schedule the
    endpoint leaves in the store. *)
Theorem recalculation_keeps_period_identity p db now indicator credit_spread :
  (let p' := fst (recalculate_with_historical_rates p db now indicator credit_spread) in
   period_number p' = period_number p
   /\ period_start_date p' = period_start_date p
   /\ period_end_date p' = period_end_date p
   /\ payment_date p' = payment_date p
   /\ principal_amount p' = principal_amount p
   /\ period_days p' = period_days p
   /\ credit_obligation_id p' = credit_obligation_id p
   /\ spread p' = spread p)
  /\ forall (found : option CreditObligation) schedule,
      map frame (fst (recalculate_interest_with_historical_rates
                        found schedule db now))
      = map frame schedule.
Proof.
  split.
  - pose proof (recalculate_frame p db now indicator credit_spread) as H.
    unfold frame in H. injection H as H1 H2 H3 H4 H5 H6 H7 H8.
    simpl. repeat split; assumption.
  - intros found schedule. unfold recalculate_interest_with_historical_rates.
    destruct found as [credit|]; [|reflexivity].
    destruct (negb (nonempty schedule)); [reflexivity|].
    destruct (recalculate_loop schedule db now credit) as [[ps es]|e] eqn:H;
      [|reflexivity].
    simpl. eapply recalculate_loop_frame; exact H.
Qed.

Lemma recalculate_no_data p db now credit_spread :
  no_data_for db now p ->
  recalculate_with_historical_rates p db now "KEY_RATE" credit_spread
  = (p, Raise (NameError "logger")).
Proof.
  intros [Hpast Hnone]. unfold recalculate_with_historical_rates.
  simpl. rewrite Hpast, Hnone. reflexivity.
Qed.

Lemma recalculate_loop_no_data l db now credit :
  base_rate_indicator credit = "KEY_RATE"%string ->
  Exists (no_data_for db now) l ->
  exists e, recalculate_loop l db now credit = Raise e.
Proof.
  intros Hind; induction 1 as [p l Hp|p l Hl IH]; simpl; rewrite Hind.
  - rewrite (recalculate_no_data _ _ _ _ Hp). eexists; reflexivity.
  - destruct (recalculate_with_historical_rates p db now _ _) as [p' [[]|e]].
    + destruct IH as [e ->]. exists e; reflexivity.
    + exists e; reflexivity.
Qed.

(** C1, as the code has it. When one period of the schedule lies in the
    past and the store has no rate for it, its recalculation raises
    [NameError], and the endpoint answers 500 and leaves the stored
    schedule as it was: no period is updated, the ones after the failing
    period are never attempted.  The sibling case, a future period without
    a current rate, returns quietly with the period unchanged. *)
Theorem missing_data_aborts_the_batch credit schedule db now :
  base_rate_indicator credit = "KEY_RATE"%string ->
  Exists (no_data_for db now) schedule ->
  (forall p, no_data_for db now p ->
     recalculate_with_historical_rates p db now "KEY_RATE" (credit_spread credit)
     = (p, Raise (NameError "logger")))
  /\ (forall p, DateTime.gtb (period_start_date p) now = true ->
                get_current_key_rate db = None ->
     recalculate_with_historical_rates p db now "KEY_RATE" (credit_spread credit)
     = (p, Ok tt))
  /\ recalculate_interest_with_historical_rates (Some credit) schedule db now
     = (schedule, Raise (HTTPException 500)).
Proof.
  intros Hind Hex. split; [intros p; apply recalculate_no_data|].
  split.
  { intros p Hfuture Hnone. unfold recalculate_with_historical_rates.
    simpl. rewrite Hfuture, Hnone. reflexivity. }
  unfold recalculate_interest_with_historical_rates.
  destruct schedule as [|p l]; [inversion Hex|]. simpl negb. cbv iota.
  destruct (recalculate_loop_no_data _ _ _ _ Hind Hex) as [e ->]. reflexivity.
Qed.

End RecalculationFacts.

(** ** The average over a period *)

Section AverageFacts.

Lemma of_Z_succ (z : Z) : Q2Qc (inject_Z (z + 1)) = (Q2Qc (inject_Z z) + 1)%Qc.
Proof.
  unfold Qcplus. apply Q2Qc_eq_iff. cbn [this Q2Qc].
  rewrite !Qred_correct, inject_Z_plus. reflexivity.
Qed.

Lemma tally_app (l1 l2 : list (option Qc)) :
  tally (l1 ++ l2)
  = ((fst (tally l1) + fst (tally l2))%Qc, snd (tally l1) + snd (tally l2)).
Proof.
  induction l1 as [|[v|] l1 IH]; simpl.
  - destruct (tally l2) as [s c]; simpl. f_equal. ring.
  - rewrite IH. destruct (tally l1) as [s1 c1], (tally l2) as [s2 c2]; simpl.
    f_equal; [ring|lia].
  - exact IH.
Qed.

Lemma tally_repeat_Some (v : Qc) (n : nat) :
  tally (repeat (Some v) n) = ((v * Q2Qc (inject_Z (Z.of_nat n)))%Qc, Z.of_nat n).
Proof.
  induction n as [|n IH].
  - simpl. f_equal. change (Q2Qc (inject_Z 0)) with 0%Qc. ring.
  - cbn [repeat tally]. rewrite IH, Nat2Z.inj_succ. unfold Z.succ.
    rewrite of_Z_succ. f_equal. ring.
Qed.

Lemma tally_repeat_None (n : nat) : tally (repeat None n) = (Q2Qc 0, 0).
Proof. induction n; simpl; auto. Qed.

Lemma samples_app {X : Type} (f : Z -> X) (t : Z) (n1 n2 : nat) :
  samples f t (n1 + n2)
  = (samples f t n1 ++ samples f (t + Z.of_nat n1 * US_PER_DAY) n2)%list.
Proof.
  revert t; induction n1 as [|n1 IH]; intros t.
  - simpl. f_equal. lia.
  - cbn [Nat.add samples app]. rewrite IH. do 3 f_equal. unfold US_PER_DAY. lia.
Qed.

Lemma samples_const {X : Type} (f : Z -> X) (c : X) (t : Z) (n : nat) :
  (forall k, 0 <= k < Z.of_nat n -> f (t + k * US_PER_DAY) = c) ->
  samples f t n = repeat c n.
Proof.
  revert t; induction n as [|n IH]; intros t H; [reflexivity|].
  cbn [samples repeat]. f_equal.
  - rewrite <- (H 0) by lia. f_equal. lia.
  - apply IH. intros k Hk. rewrite <- (H (k + 1)) by lia. f_equal.
    unfold US_PER_DAY. lia.
Qed.

Lemma samples_of_days {X : Type} (f : Z -> X) (days : list datetime) (t : Z) :
  (forall k x, nth_error days k = Some x ->
               instant x = t + Z.of_nat k * US_PER_DAY) ->
  map (fun x => f (instant x)) days = samples f t (List.length days).
Proof.
  revert t; induction days as [|x days IH]; intros t H; [reflexivity|].
  cbn [map List.length samples]. f_equal.
  - rewrite (H 0%nat x eq_refl). f_equal. lia.
  - apply IH. intros k y Hy. rewrite (H (S k) y Hy). unfold US_PER_DAY. lia.
Qed.

Lemma midnight_instant (x : datetime) :
  at_midnight x -> instant x = toordinal x * US_PER_DAY.
Proof. unfold at_midnight, instant. intros ->. lia. Qed.

Lemma midnight_sub_days (x y : datetime) :
  at_midnight x -> at_midnight y ->
  instant y - instant x = sub_days y x * US_PER_DAY.
Proof.
  intros Hx Hy. unfold sub_days.
  rewrite (midnight_instant x Hx), (midnight_instant y Hy).
  rewrite <- Z.mul_sub_distr_r, Z.div_mul by discriminate. reflexivity.
Qed.


Lemma weigh_rates_cons (r : CBRKeyRate (R := Qc)) rates a b ws tw :
  weigh_rates (r :: rates) a b ws tw =
  let rate_end := match rates with
                  | next :: _ => DateTime.min (effective_date next) b
                  | [] => b
                  end in
  let days_effective := sub_days rate_end (DateTime.max (effective_date r) a) in
  if days_effective >? 0
  then weigh_rates rates a b (ws + rate r * Q2Qc (inject_Z days_effective))%Qc
         (tw + days_effective)
  else weigh_rates rates a b ws tw.
Proof. reflexivity. Qed.

Lemma max_of_later (x a : datetime) : instant a <= instant x -> DateTime.max x a = x.
Proof.
  intros H. unfold DateTime.max, DateTime.gtb, DateTime.ltb.
  replace (instant x <? instant a) with false by (symmetry; apply Z.ltb_ge; lia).
  reflexivity.
Qed.

Lemma min_of_earlier (x b : datetime) : instant x <= instant b -> DateTime.min x b = x.
Proof.
  intros H. unfold DateTime.min, DateTime.ltb.
  replace (instant b <? instant x) with false by (symmetry; apply Z.ltb_ge; lia).
  reflexivity.
Qed.

Section Period.
Variable db : list (CBRKeyRate (R := Qc)).
Variables a b : datetime.
Hypothesis midnight_a : at_midnight a.
Hypothesis midnight_b : at_midnight b.
Hypothesis midnight_db : Forall (fun r => at_midnight (effective_date r)) db.
Hypothesis distinct : NoDup (map (fun r => instant (effective_date r)) db).

Local Notation "'E' r" := (instant (effective_date r)) (at level 10, r at level 9).

(** While the row [r] is the latest one, every daily reading is its rate. *)
Lemma samples_of_row r (m : Z) :
  In r db -> 0 <= m ->
  (forall r', In r' db -> ~ (E r < E r' < E r + m * US_PER_DAY)) ->
  samples (rate_at db) (E r) (Z.to_nat m) = repeat (Some (rate r)) (Z.to_nat m).
Proof.
  intros Hin Hm Hnone. apply samples_const. intros k Hk.
  rewrite Z2Nat.id in Hk by exact Hm.
  unfold rate_at. rewrite (row_at_latest db _ r); [reflexivity|exact distinct|exact Hin| |].
  - unfold US_PER_DAY. lia.
  - intros r' Hin' Hbetween. apply (Hnone r' Hin'). unfold US_PER_DAY in *. lia.
Qed.

Lemma weigh_rates_samples (L : list (CBRKeyRate (R := Qc))) :
  forall lo ws tw r0 rest,
    L = r0 :: rest ->
    StronglySorted (fun r r' => E r < E r') L ->
    (forall r, In r L -> In r db /\ instant a <= E r <= instant b) ->
    (forall r', In r' db -> lo < E r' <= instant b -> In r' L) ->
    (forall r, In r L -> lo < E r) ->
    weigh_rates L a b ws tw =
    let t := tally (samples (rate_at db) (E r0)
                      (Z.to_nat (sub_days b (effective_date r0)))) in
    ((ws + fst t)%Qc, tw + snd t).
Proof.
  induction L as [|r L IH]; intros lo ws tw r0 rest HL Hsorted Hsub Hall Hlo;
    [discriminate|].
  injection HL as <- <-.
  destruct (Hsub r (or_introl eq_refl)) as (Hin & Hra & Hrb).
  assert (Hmr : at_midnight (effective_date r))
    by (rewrite Forall_forall in midnight_db; apply midnight_db; exact Hin).
  pose proof (midnight_sub_days _ _ Hmr midnight_b) as Hdiff.
  inversion Hsorted as [|? ? Hsorted' Hfirst]; subst.
  rewrite weigh_rates_cons. cbv zeta.
  rewrite (max_of_later _ _ Hra).
  destruct L as [|r2 L].
  - (* the last row of the period *)
    set (m := sub_days b (effective_date r)) in *.
    assert (Hm : 0 <= m) by (unfold US_PER_DAY in Hdiff; lia).
    rewrite samples_of_row; [|exact Hin|exact Hm|].
    2:{ intros r' Hin' Hbetween.
        assert (Hr' : In r' [r]) by (apply Hall; [exact Hin'|]; specialize (Hlo r (or_introl eq_refl)); lia).
        destruct Hr' as [<-|[]]. lia. }
    rewrite tally_repeat_Some, Z2Nat.id by exact Hm. cbn [fst snd].
    destruct (m >? 0) eqn:Hpos; cbn [weigh_rates]; [reflexivity|].
    apply gtb_false in Hpos. assert (m = 0) by lia. subst m.
    replace (sub_days b (effective_date r)) with 0 by lia.
    change (Q2Qc (inject_Z 0)) with 0%Qc. f_equal; [ring|lia].
  - (* a row followed by another *)
    destruct (Hsub r2 (or_intror (or_introl eq_refl))) as (Hin2 & Hr2a & Hr2b).
    assert (Hmr2 : at_midnight (effective_date r2))
      by (rewrite Forall_forall in midnight_db; apply midnight_db; exact Hin2).
    rewrite (min_of_earlier _ _ Hr2b).
    pose proof (midnight_sub_days _ _ Hmr Hmr2) as Hstep.
    pose proof (midnight_sub_days _ _ Hmr2 midnight_b) as Hrest.
    assert (Hlt : E r < E r2)
      by (rewrite Forall_forall in Hfirst; apply Hfirst; left; reflexivity).
    set (m1 := sub_days (effective_date r2) (effective_date r)) in *.
    set (m2 := sub_days b (effective_date r2)) in *.
    assert (Hm1 : 0 < m1) by (unfold US_PER_DAY in Hstep; lia).
    assert (Hm2 : 0 <= m2) by (unfold US_PER_DAY in Hrest; lia).
    assert (Hsum : sub_days b (effective_date r) = m1 + m2)
      by (unfold US_PER_DAY in *; lia).
    replace (m1 >? 0) with true by (symmetry; apply Z.gtb_lt; lia).
    rewrite (IH (E r) _ _ r2 L eq_refl Hsorted').
    + rewrite Hsum, Z2Nat.inj_add, samples_app, tally_app by lia.
      rewrite Z2Nat.id by lia.
      replace (E r + m1 * US_PER_DAY) with (E r2) by lia.
      rewrite (samples_of_row r m1); [|exact Hin|lia|].
      2:{ intros r' Hin' Hbetween.
          assert (Hr' : In r' (r :: r2 :: L)).
          { apply Hall; [exact Hin'|]. specialize (Hlo r (or_introl eq_refl)). lia. }
          destruct Hr' as [<-|Hr']; [lia|].
          assert (E r2 <= E r').
          { destruct Hr' as [<-|Hr']; [lia|].
            inversion Hsorted' as [|? ? _ Hsecond]; subst.
            rewrite Forall_forall in Hsecond. specialize (Hsecond r' Hr'). lia. }
          lia. }
      rewrite tally_repeat_Some, Z2Nat.id by lia. cbv zeta. cbn [fst snd].
      subst m2. f_equal; [ring|lia].
    + intros r' Hr'. apply Hsub. right; exact Hr'.
    + intros r' Hin' Hr'.
      assert (Hr'' : In r' (r :: r2 :: L)).
      { apply Hall; [exact Hin'|]. specialize (Hlo r (or_introl eq_refl)). lia. }
      destruct Hr'' as [<-|Hr'']; [lia|exact Hr''].
    + intros r' Hr'. rewrite Forall_forall in Hfirst. apply Hfirst; exact Hr'.
Qed.

Hypothesis a_before_b : instant a < instant b.

Lemma of_Z_nonzero (z : Z) : z <> 0 -> Q2Qc (inject_Z z) <> 0%Qc.
Proof.
  intros Hz H. apply Hz. apply Q2Qc_eq_iff in H.
  unfold Qeq, inject_Z in H. simpl in H. lia.
Qed.

Lemma mean_of_repeat (c : option Qc) (n : Z) :
  0 < n -> mean_of_defined (repeat c (Z.to_nat n)) = c.
Proof.
  intros Hn. unfold mean_of_defined. destruct c as [v|].
  - rewrite tally_repeat_Some, Z2Nat.id by lia.
    replace (n =? 0) with false by (symmetry; apply Z.eqb_neq; lia).
    f_equal. field. apply of_Z_nonzero. lia.
  - rewrite tally_repeat_None. reflexivity.
Qed.

(** Before the first row of the period, the rate is the one in force at
    the start. *)
Lemma samples_before_first (m : Z) :
  0 <= m ->
  (forall r, In r db -> ~ (instant a < E r < instant a + m * US_PER_DAY)) ->
  samples (rate_at db) (instant a) (Z.to_nat m)
  = repeat (rate_at db (instant a)) (Z.to_nat m).
Proof.
  intros Hm Hnone. apply samples_const. intros k Hk.
  rewrite Z2Nat.id in Hk by exact Hm.
  unfold rate_at. rewrite (row_at_stable db (instant a)); [reflexivity| |].
  - unfold US_PER_DAY. lia.
  - intros r Hin Hbetween. apply (Hnone r Hin).
    unfold US_PER_DAY in *. lia.
Qed.

Lemma average_is_daily_mean (days : list datetime) :
  Z.of_nat (List.length days) = sub_days b a ->
  successive_days a days ->
  get_average_key_rate_for_period db a b
  = mean_of_defined (map (get_key_rate_on_date db) days).
Proof.
  intros Hlen Hdays.
  pose proof (midnight_sub_days _ _ midnight_a midnight_b) as Hdiff.
  set (n := sub_days b a) in *.
  assert (Hn : 0 < n) by (unfold US_PER_DAY in Hdiff; lia).
  rewrite (map_ext _ (fun x => rate_at db (instant x)))
    by (intros; apply get_key_rate_on_date_rate_at).
  rewrite (samples_of_days (rate_at db) days (instant a) Hdays).
  replace (List.length days) with (Z.to_nat n) by lia.
  unfold get_average_key_rate_for_period.
  pose proof (period_rows_In db a b) as HIn.
  pose proof (period_rows_sorted db a b distinct) as Hsorted.
  destruct (order_by effective_asc (filter (in_period a b) db)) as [|r0 rest] eqn:HW.
  - (* no row takes effect within the period *)
    rewrite (samples_before_first n); [|lia|].
    + rewrite mean_of_repeat by exact Hn.
      rewrite get_rate_on_date_row_at. reflexivity.
    + intros r Hin Hbetween. apply (HIn r). split; [exact Hin|].
      unfold US_PER_DAY in *. lia.
  - fold n. replace (n =? 0) with false by (symmetry; apply Z.eqb_neq; lia).
    rewrite (weigh_rates_samples (r0 :: rest) (instant a - 1) _ _ r0 rest eq_refl Hsorted).
    2:{ intros r Hr. apply HIn; exact Hr. }
    2:{ intros r Hin Hr. apply HIn. split; [exact Hin|]. lia. }
    2:{ intros r Hr. apply HIn in Hr. lia. }
    destruct (proj1 (HIn r0) (or_introl eq_refl)) as (Hin0 & Ha0 & Hb0).
    assert (Hm0 : at_midnight (effective_date r0))
      by (rewrite Forall_forall in midnight_db; apply midnight_db; exact Hin0).
    pose proof (midnight_sub_days _ _ midnight_a Hm0) as Hgap.
    pose proof (midnight_sub_days _ _ Hm0 midnight_b) as Hrest.
    set (g := sub_days (effective_date r0) a) in *.
    set (m := sub_days b (effective_date r0)) in *.
    assert (Hg : 0 <= g) by (unfold US_PER_DAY in Hgap; lia).
    assert (Hm : 0 <= m) by (unfold US_PER_DAY in Hrest; lia).
    assert (Hsum : n = g + m) by (unfold US_PER_DAY in *; lia).
    assert (Hsplit : tally (samples (rate_at db) (instant a) (Z.to_nat n))
              = let t0 := tally (repeat (rate_at db (instant a)) (Z.to_nat g)) in
                let t1 := tally (samples (rate_at db) (E r0) (Z.to_nat m)) in
                ((fst t0 + fst t1)%Qc, snd t0 + snd t1)).
    { rewrite Hsum, Z2Nat.inj_add, samples_app, tally_app by lia.
      rewrite Z2Nat.id by lia.
      replace (instant a + g * US_PER_DAY) with (E r0)
        by (unfold US_PER_DAY in *; lia).
      rewrite samples_before_first; [reflexivity|exact Hg|].
      intros r Hin Hbetween.
      assert (Hr : In r (r0 :: rest))
        by (apply HIn; split; [exact Hin|]; lia).
      destruct Hr as [<-|Hr]; [lia|].
      inversion Hsorted as [|? ? _ Hfirst]; subst.
      rewrite Forall_forall in Hfirst. specialize (Hfirst r Hr).
      unfold US_PER_DAY in *. lia. }
    unfold mean_of_defined. rewrite Hsplit. cbv zeta.
    destruct (tally (samples (rate_at db) (E r0) (Z.to_nat m))) as [s c].
    cbn [fst snd].
    unfold DateTime.gtb, DateTime.ltb.
    destruct (instant a <? E r0) eqn:Hlt.
    + rewrite get_rate_on_date_row_at. unfold rate_at.
      destruct (row_at db (instant a)) as [pre|]; cbn [option_map].
      * rewrite tally_repeat_Some, Z2Nat.id by lia. cbn [fst snd].
        cbn [num_of_Z num_add num_mul num_div Number_Qc].
        change (Q2Qc (inject_Z 0)) with 0%Qc.
        replace (0 + s + rate pre * Q2Qc (inject_Z g))%Qc
          with (rate pre * Q2Qc (inject_Z g) + s)%Qc by ring.
        replace (0 + c + g) with (g + c) by lia. reflexivity.
      * rewrite tally_repeat_None. cbn [fst snd].
        cbn [num_of_Z num_add num_mul num_div Number_Qc].
        change (Q2Qc (inject_Z 0)) with 0%Qc. change (Q2Qc 0) with 0%Qc.
        reflexivity.
    + apply Z.ltb_ge in Hlt. assert (g = 0) by (unfold US_PER_DAY in Hgap; lia).
      subst g. replace (sub_days (effective_date r0) a) with 0 by lia.
      cbn [Z.to_nat repeat tally fst snd].
      cbn [num_of_Z num_add num_mul num_div Number_Qc].
      change (Q2Qc (inject_Z 0)) with 0%Qc. change (Q2Qc 0) with 0%Qc.
      reflexivity.
Qed.

End Period.


(** C4, amended. In exact arithmetic, for calendar dates [a] before [b]
    and a store of calendar dates without two rows of one effective date,
    the average over the period is the mean, over the days of the period,
    of the rate in force on each day (the days before the first rate change
    of the period carry the rate on [a]; days without a rate in force are
    left out).  In
    binary64 as in exact arithmetic, points effective at day 0 (rate 10),
    day 10 (rate 20) and day 20 (rate 30) average to 20.0 over day 0 to day
    30, and a point effective at day 5 (rate 15) after one effective at day
    -10 (rate 5) averages to 10.0 over day 0 to day 10. *)
Theorem average_over_is_duration_weighted :
  (forall (db : list (CBRKeyRate (R := Qc))) (a b : datetime) (days : list datetime),
      at_midnight a -> at_midnight b ->
      Forall (fun r => at_midnight (effective_date r)) db ->
      NoDup (map (fun r => instant (effective_date r)) db) ->
      instant a < instant b ->
      Z.of_nat (List.length days) = sub_days b a ->
      successive_days a days ->
      get_average_key_rate_for_period db a b
      = mean_of_defined (map (get_key_rate_on_date db) days))
  /\ get_average_key_rate_for_period (R := float)
       Samples.store_three (Samples.day 0) (Samples.day 30) = Some 20%float
  /\ get_average_key_rate_for_period (R := float)
       Samples.store_gap (Samples.day 0) (Samples.day 10) = Some 10%float
  /\ get_average_key_rate_for_period (R := Qc)
       Samples.store_three (Samples.day 0) (Samples.day 30) = Some (Q2Qc 20)
  /\ get_average_key_rate_for_period (R := Qc)
       Samples.store_gap (Samples.day 0) (Samples.day 10) = Some (Q2Qc 10)
  /\ get_key_rate_on_date (R := Qc) Samples.store_gap (Samples.day 0) = Some (Q2Qc 5).
Proof.
  split; [intros db a b days Ha Hb Hdb Hnd Hab Hlen Hdays;
          apply average_is_daily_mean; assumption|].
  repeat split; vm_compute;
    first [reflexivity | f_equal; apply Qc_is_canon; reflexivity].
Qed.

(** The law of C4 on the second store, over day 3 to day 7: two days at 5
    and two days at 15. *)
Lemma average_over_gap_days :
  get_average_key_rate_for_period (R := Qc)
    Samples.store_gap (Samples.day 3) (Samples.day 7)
  = mean_of_defined
      (map (get_key_rate_on_date Samples.store_gap)
           [Samples.day 3; Samples.day 4; Samples.day 5; Samples.day 6])
  /\ mean_of_defined
       (map (get_key_rate_on_date Samples.store_gap)
            [Samples.day 3; Samples.day 4; Samples.day 5; Samples.day 6])
     = Some (Q2Qc 10).
Proof.
  split; [|vm_compute; f_equal; apply Qc_is_canon; reflexivity].
  apply (proj1 average_over_is_duration_weighted).
  - reflexivity.
  - reflexivity.
  - repeat constructor.
  - repeat constructor; simpl; intuition discriminate.
  - vm_compute. reflexivity.
  - vm_compute. reflexivity.
  - intros [|[|[|[|[|k]]]]] x H; simpl in H; try discriminate;
      injection H as <-; vm_compute; reflexivity.
Defined.

End AverageFacts.

(** ** The properties on sample data *)

Section SampleFacts.
Import Samples.

(** The scenario of the specification gives twelve periods at 18.5, each
    ending on the last day of a month but the last, which ends with the
    credit. *)
Example credit_2024_schedule :
  option_map
    (fun r => match r with
              | Ok g => map (fun p => (period_number p, period_end_date p,
                                        interest_rate p)) (entries g)
              | Raise _ => []
              end)
    (generate_payment_schedule credit_2024 [] None)
  = Some [(1, ymd 2024 2 29, Some 18.5%float); (2, ymd 2024 3 31, Some 18.5%float);
          (3, ymd 2024 4 30, Some 18.5%float); (4, ymd 2024 5 31, Some 18.5%float);
          (5, ymd 2024 6 30, Some 18.5%float); (6, ymd 2024 7 31, Some 18.5%float);
          (7, ymd 2024 8 31, Some 18.5%float); (8, ymd 2024 9 30, Some 18.5%float);
          (9, ymd 2024 10 31, Some 18.5%float); (10, ymd 2024 11 30, Some 18.5%float);
          (11, ymd 2024 12 31, Some 18.5%float); (12, ymd 2025 1 1, Some 18.5%float)].
Proof. vm_compute. reflexivity. Qed.



(** C3, as stated, fails: the ten-year monthly credit is cut at its
    100th period, which ends on 2032-05-31 and not with the credit. *)
Lemma capped_schedule_ends_early :
  option_map
    (fun r => match r with
              | Ok g => (List.length (entries g),
                         option_map period_end_date (last_error (entries g)),
                         option_map (fun p => DateTime.eqb (period_end_date p)
                                                (end_date credit_10y))
                                    (last_error (entries g)),
                         warnings g)
              | Raise _ => (0%nat, None, None, [])
              end)
    (generate_payment_schedule credit_10y [] None)
  = Some (100%nat, Some (ymd 2032 5 31), Some false, [too_many_periods]).
Proof. vm_compute. reflexivity. Qed.

(** The amended C3 on the scenario of the specification: the last of the
    twelve periods ends with the credit, on 2025-01-01. *)
Lemma credit_2024_contiguous :
  exists g,
    generate_payment_schedule credit_2024 [] None = Some (Ok g)
    /\ (forall i p q,
          nth_error (entries g) i = Some p -> nth_error (entries g) (S i) = Some q ->
          period_end_date p = period_start_date q)
    /\ (forall p, hd_error (entries g) = Some p ->
                  period_start_date p = start_date credit_2024)
    /\ (forall p, last_error (entries g) = Some p ->
                  ~ In too_many_periods (warnings g) ->
                  DateTime.eqb (period_end_date p) (end_date credit_2024) = true
                  /\ (valid (start_date credit_2024) = true ->
                      valid (end_date credit_2024) = true ->
                      period_end_date p = end_date credit_2024)).
Proof.
  destruct (generate_payment_schedule credit_2024 [] None) as [[g|e]|] eqn:Hg;
    [|vm_compute in Hg; discriminate|vm_compute in Hg; discriminate].
  exists g. split; [reflexivity|].
  exact (generated_schedule_contiguous credit_2024 [] None g Hg).
Defined.

(** C6, as stated, fails: on empty input [update_key_rates] raises; a
    table that holds a date twice still holds it twice after the upsert;
    and two points with one date in one call give two rows. *)
Lemma upsert_raises_on_empty_input :
  update_key_rates [] (mk_Fetched (R := float) [] [] []) (ymd 2024 1 1) (ymd 2025 1 1)
  = Raise (Exception_ fetch_failed)
  /\ count_date (ymd 2024 6 1)
       (fst (upsert_rates [point_b] (store_june ++ store_june))) = 2%nat
  /\ count_date (ymd 2024 6 1) (fst (upsert_rates [point_a; point_b] [])) = 2%nat.
Proof. repeat split. Qed.

(** The amended C6 on a sample: the point of [store_june] is overwritten
    by a point with its date. *)
Lemma upsert_june_overwrites :
  (count_date (rd_date point_b) store_june <= 1)%nat
  /\ fst (upsert_rates [point_b] store_june)
     = [mk_CBRKeyRate (ymd 2024 6 1) (ymd 2024 6 3) 18%float]
  /\ count_date (rd_date point_b) (fst (upsert_rates [point_b] store_june)) = 1%nat.
Proof.
  assert (H : (count_date (rd_date point_b) store_june <= 1)%nat)
    by (vm_compute; lia).
  split; [exact H|]. split; [reflexivity|].
  destruct (upsert_keyed_by_announcement_date store_june point_b)
    as (_ & _ & H3 & _).
  exact (proj1 (proj1 (H3 H))).
Defined.

(** C1 on a sample: January has no rate in [store_june], July has one.
    Alone, July is recalculated to the base rate 16; in a schedule with
    January before it the endpoint answers 500 and the stored schedule is
    left as it was. *)
Lemma january_without_data_aborts :
  Exists (no_data_for store_june new_year_2025) [period_january; period_july]
  /\ base_rate (fst (recalculate_with_historical_rates period_july store_june
                       new_year_2025 "KEY_RATE" 2.5%float)) = Some 16%float
  /\ snd (recalculate_with_historical_rates period_july store_june
            new_year_2025 "KEY_RATE" 2.5%float) = Ok tt
  /\ recalculate_interest_with_historical_rates (Some credit_2024)
       [period_january; period_july] store_june new_year_2025
     = ([period_january; period_july], Raise (HTTPException 500)).
Proof.
  assert (H : Exists (no_data_for store_june new_year_2025)
                     [period_january; period_july])
    by (left; split; vm_compute; reflexivity).
  split; [exact H|]. split; [vm_compute; reflexivity|].
  split; [vm_compute; reflexivity|].
  exact (proj2 (proj2 (missing_data_aborts_the_batch credit_2024 _ store_june
                         new_year_2025 eq_refl H))).
Defined.

(** C10 in binary64: the answers are the floats 16.0, 5.0, 4.5 and
    16.0. *)
Lemma base_rate_value_defaults_float :
  get_base_rate_value (R := float) "KEY_RATE" [] = 16%float
  /\ get_base_rate_value "LIBOR" store_june = 5%float
  /\ get_base_rate_value "SOFR" store_june = 4.5%float
  /\ get_base_rate_value "EURIBOR" store_june = 16%float.
Proof.
  destruct (base_rate_value_defaults store_june) as (_ & _ & _ & _ & H1 & H2 & H3 & H4).
  rewrite H1, H2, H3, (H4 "EURIBOR"%string) by discriminate.
  repeat split.
Defined.

End SampleFacts.

(** * Further properties *)

Ltac fields_of_period :=
  cbn [credit_obligation_id period_start_date period_end_date payment_date
       principal_amount interest_amount total_payment period_days period_number
       interest_rate base_rate spread
       set_period_days set_interest_amount set_total_payment set_interest_rate
       set_base_rate truthy_float].

(** ** Generated schedules *)

(** ** More on schedule generation *)

Section GenerationMore.
Context {R : Type} {num : Number R}.

Implicit Types (credit : CreditObligation (R := R)) (p q : PaymentSchedule (R := R)).

Lemma schedule_loop_periods fuel credit o cs pn acc es log :
  schedule_loop fuel credit o cs pn acc = Some (Ok (es, log)) ->
  exists news, es = (acc ++ news)%list /\ periods_from credit o cs pn news.
Proof.
  revert cs pn acc; induction fuel as [|fuel IH]; intros cs pn acc Hloop; [discriminate|].
  rewrite schedule_loop_S in Hloop.
  destruct (DateTime.ltb cs (end_date credit)) eqn:Hlt.
  - destruct (next_period_end credit o cs) as [pe|e] eqn:Hnext; [|discriminate].
    destruct (pn + 1 >? 100).
    + injection Hloop as <- <-. exists [new_entry credit pn cs pe]. split; [reflexivity|].
      econstructor; [exact Hlt|exact Hnext|constructor].
    + destruct (IH _ _ _ Hloop) as (news & -> & Hnews).
      exists (new_entry credit pn cs pe :: news). rewrite <- app_assoc. split; [reflexivity|].
      econstructor; eassumption.
  - injection Hloop as <- <-. exists []. rewrite app_nil_r. split; [reflexivity|constructor].
Qed.

Lemma generate_periods credit db o g :
  generate_payment_schedule credit db o = Some (Ok g) ->
  periods_from credit o (start_date credit) 1 (entries g).
Proof.
  intros Hg. destruct (generate_inv _ _ _ _ _ Hg) as (log & Hloop & _).
  destruct (schedule_loop_periods _ _ _ _ _ _ _ _ Hloop) as (news & -> & H). exact H.
Qed.

(** Every field of a fresh entry. *)
Lemma new_entry_fields credit n cs pe :
  let p := new_entry credit n cs pe in
  credit_obligation_id p = credit_id credit
  /\ period_number p = n
  /\ period_start_date p = cs
  /\ period_end_date p = pe
  /\ payment_date p = pe
  /\ principal_amount p = principal credit
  /\ period_days p = Some (sub_days pe cs)
  /\ base_rate p = Some (base_rate_value credit)
  /\ spread p = Some (credit_spread credit)
  /\ interest_rate p = Some (num_add (base_rate_value credit) (credit_spread credit)).
Proof.
  unfold new_entry, calculate_financials, calculate_period_days. cbn.
  rewrite principal_for_period_eq.
  repeat match goal with |- context [if ?c then _ else _] => destruct c; cbn end;
    repeat split.
Qed.

Lemma periods_from_nth credit o cs pn l :
  periods_from credit o cs pn l ->
  forall i p, nth_error l i = Some p ->
    exists s e, p = new_entry credit (pn + Z.of_nat i) s e
                /\ DateTime.ltb s (end_date credit) = true
                /\ next_period_end credit o s = Ok e.
Proof.
  induction 1 as [|cs pn pe rest Hlt Hnext Hrest IH]; intros i p Hi.
  - destruct i; discriminate.
  - destruct i as [|i]; simpl in Hi.
    + injection Hi as <-. exists cs, pe. rewrite Z.add_0_r. auto.
    + destruct (IH i p Hi) as (s & e & -> & H1 & H2). exists s, e.
      split; [f_equal; lia|auto].
Qed.

(** X1. The periods of a generated schedule are numbered 1, 2, 3, ... in
    the order of the list, and each carries the snapshot of its credit: the
    key and the principal of the credit, its base rate, its spread and their
    sum as interest rate; its payment date is its end date and its period
    days are the whole days from its start to its end. *)
Theorem generated_periods_numbered credit db o g :
  generate_payment_schedule credit db o = Some (Ok g) ->
  forall i p, nth_error (entries g) i = Some p ->
    period_number p = Z.of_nat i + 1
    /\ credit_obligation_id p = credit_id credit
    /\ principal_amount p = principal credit
    /\ base_rate p = Some (base_rate_value credit)
    /\ spread p = Some (credit_spread credit)
    /\ interest_rate p = Some (num_add (base_rate_value credit) (credit_spread credit))
    /\ payment_date p = period_end_date p
    /\ period_days p = Some (sub_days (period_end_date p) (period_start_date p)).
Proof.
  intros Hg i p Hi.
  destruct (periods_from_nth _ _ _ _ _ (generate_periods _ _ _ _ Hg) i p Hi)
    as (s & e & -> & _ & _).
  destruct (new_entry_fields credit (1 + Z.of_nat i) s e)
    as (H1 & H2 & H3 & H4 & H5 & H6 & H7 & H8 & H9 & H10).
  rewrite H1, H2, H3, H4, H5, H6, H7, H8, H9, H10. repeat split. lia.
Qed.

Lemma roll_months_closed (fuel : nat) (m y : Z) :
  1 <= m <= Z.of_nat fuel ->
  roll_months fuel m y = ((m - 1) mod 12 + 1, y + (m - 1) / 12).
Proof.
  revert m y; induction fuel as [|fuel IH]; intros m y Hm; [lia|].
  cbn [roll_months]. destruct (m >? 12) eqn:E.
  - apply Z.gtb_lt in E. rewrite IH by lia. f_equal; Z.div_mod_to_equations; lia.
  - apply gtb_false in E. f_equal; Z.div_mod_to_equations; lia.
Qed.

Lemma month_increment_bounds (v : FrequencyValue) : 1 <= month_increment_of v <= 12.
Proof. destruct v as [[]|]; simpl; lia. Qed.

Lemma valid_fields (d : datetime) :
  valid d = true ->
  valid_date (year d) (month d) (day d) = true /\ 0 <= tod d < US_PER_DAY
  /\ 1 <= year d <= 9999 /\ 1 <= month d <= 12.
Proof.
  unfold valid. intros H.
  apply andb_true_iff in H as [H H1]. apply andb_true_iff in H as [H H0].
  apply Z.leb_le in H0. apply Z.ltb_lt in H1.
  split; [exact H|]. split; [lia|].
  unfold valid_date, MINYEAR, MAXYEAR in H.
  repeat (apply andb_true_iff in H as [H ?]).
  repeat match goal with H : (_ <=? _) = true |- _ => apply Z.leb_le in H end. lia.
Qed.

Lemma next_period_end_expected credit o cs :
  valid cs = true ->
  next_period_end credit o cs = expected_period_end credit o cs.
Proof.
  intros Hcs. destruct (valid_fields cs Hcs) as (_ & _ & Hy & Hm).
  pose proof (month_increment_bounds (payment_frequency credit)) as Hinc.
  unfold next_period_end, expected_period_end.
  rewrite roll_months_closed by lia.
  set (months := month cs + month_increment_of (payment_frequency credit) - 1).
  set (new_year := year cs + months / 12).
  set (new_month := months mod 12 + 1).
  assert (Hnm : 1 <= new_month <= 12) by (unfold new_month; Z.div_mod_to_equations; lia).
  assert (Hny : 1 <= new_year)
    by (unfold new_year, months; Z.div_mod_to_equations; lia).
  pose proof (days_in_month_bounds new_year new_month) as Hlast.
  assert (Hmr : monthrange_days new_year new_month = Ok (days_in_month new_year new_month)).
  { unfold monthrange_days.
    replace (1 <=? new_month) with true by (symmetry; apply Z.leb_le; lia).
    replace (new_month <=? 12) with true by (symmetry; apply Z.leb_le; lia).
    reflexivity. }
  assert (Hrep : forall d,
             replace cs new_year new_month d =
             if (new_year <=? MAXYEAR) && (1 <=? d) && (d <=? days_in_month new_year new_month)
             then Ok (mk_datetime new_year new_month d (tod cs)) else Raise ValueError).
  { intros d. unfold replace, valid_date, MINYEAR.
    replace (1 <=? new_year) with true by (symmetry; apply Z.leb_le; lia).
    replace (1 <=? new_month) with true by (symmetry; apply Z.leb_le; lia).
    replace (new_month <=? 12) with true by (symmetry; apply Z.leb_le; lia).
    cbn [andb]. rewrite andb_true_r.
    destruct (new_year <=? MAXYEAR), (1 <=? d), (d <=? days_in_month new_year new_month);
      reflexivity. }
  rewrite Hmr. unfold bind at 1.
  destruct (new_year <=? MAXYEAR) eqn:Hmax.
  - destruct (day_given o) as [d|]; cbn [bind].
    + rewrite !Hrep. cbn [andb].
      replace (Z.min d (days_in_month new_year new_month)
               <=? days_in_month new_year new_month) with true
        by (symmetry; apply Z.leb_le; lia).
      replace (days_in_month new_year new_month <=? days_in_month new_year new_month)
        with true by (symmetry; apply Z.leb_le; lia).
      replace (1 <=? days_in_month new_year new_month) with true
        by (symmetry; apply Z.leb_le; lia).
      rewrite andb_true_r.
      destruct (1 <=? Z.min d (days_in_month new_year new_month)); reflexivity.
    + rewrite !Hrep. cbn [andb].
      replace (days_in_month new_year new_month <=? days_in_month new_year new_month)
        with true by (symmetry; apply Z.leb_le; lia).
      replace (1 <=? days_in_month new_year new_month) with true
        by (symmetry; apply Z.leb_le; lia).
      reflexivity.
  - destruct (day_given o) as [d|]; cbn [bind]; rewrite !Hrep; reflexivity.
Qed.

(** X2. From a valid start, the end of a period as the loops of the
    generator compute it is the end by month arithmetic: the month
    [month_increment] months later, on the payment day if it exists in that
    month and on the last day of the month otherwise, at the time of the
    start; cut at the end of the credit; a [ValueError] when that month lies
    after the year 9999. *)
Theorem period_end_by_month_arithmetic credit o cs :
  valid cs = true ->
  next_period_end credit o cs = expected_period_end credit o cs.
Proof. exact (next_period_end_expected credit o cs). Qed.

Lemma instant_lt_year (a b : datetime) :
  valid a = true -> valid b = true -> instant a < instant b -> year a <= year b.
Proof.
  intros Ha Hb Hlt.
  destruct (Z.le_gt_cases (year a) (year b)) as [H|H]; [exact H|].
  assert (Hlex : lex_ltb b a = true).
  { unfold lex_ltb. replace (year b <? year a) with true
      by (symmetry; apply Z.ltb_lt; lia). reflexivity. }
  pose proof (lex_ltb_ordinal b a Hb Ha Hlex). lia.
Qed.

(** A period ends after it starts. *)
Lemma next_period_end_progress credit o cs pe :
  valid cs = true -> DateTime.ltb cs (end_date credit) = true ->
  next_period_end credit o cs = Ok pe -> instant cs < instant pe.
Proof.
  intros Hcs Hlt. rewrite (next_period_end_expected credit o cs Hcs).
  destruct (valid_fields cs Hcs) as (_ & Htod & Hy & Hm).
  pose proof (month_increment_bounds (payment_frequency credit)) as Hinc.
  unfold expected_period_end.
  set (months := month cs + month_increment_of (payment_frequency credit) - 1).
  set (new_year := year cs + months / 12).
  set (new_month := months mod 12 + 1).
  pose proof (days_in_month_bounds new_year new_month) as Hlast.
  set (target_day := match day_given o with
                     | Some d => if 1 <=? Z.min d (days_in_month new_year new_month)
                                 then Z.min d (days_in_month new_year new_month)
                                 else days_in_month new_year new_month
                     | None => days_in_month new_year new_month
                     end).
  assert (Hday : 1 <= target_day <= days_in_month new_year new_month).
  { unfold target_day. destruct (day_given o) as [d|]; [|lia].
    destruct (1 <=? Z.min d (days_in_month new_year new_month)) eqn:E; [|lia].
    apply Z.leb_le in E. lia. }
  destruct (new_year <=? MAXYEAR) eqn:Hmax; [|discriminate].
  apply Z.leb_le in Hmax. unfold MAXYEAR in Hmax.
  intros [= <-].
  set (target := mk_datetime new_year new_month target_day (tod cs)).
  assert (Hnm : 1 <= new_month <= 12) by (unfold new_month; Z.div_mod_to_equations; lia).
  assert (Hny : year cs <= new_year)
    by (unfold new_year, months; Z.div_mod_to_equations; lia).
  assert (Hvalid : valid target = true).
  { unfold valid, valid_date, target, MINYEAR, MAXYEAR; cbn [year month day tod].
    repeat (apply andb_true_iff; split); try (apply Z.leb_le; lia).
    apply Z.ltb_lt; lia. }
  assert (Hlex : lex_ltb cs target = true).
  { unfold lex_ltb, target; cbn [year month day tod].
    destruct (Z.ltb_spec (year cs) new_year) as [|Hge]; [reflexivity|].
    assert (Heq : year cs = new_year) by lia.
    replace (year cs =? new_year) with true by (symmetry; apply Z.eqb_eq; exact Heq).
    replace (month cs <? new_month) with true; [reflexivity|].
    symmetry; apply Z.ltb_lt.
    unfold new_year, new_month, months in *. Z.div_mod_to_equations. lia. }
  pose proof (lex_ltb_ordinal cs target Hcs Hvalid Hlex) as Hprog.
  destruct (DateTime.gtb target (end_date credit)); [|exact Hprog].
  unfold DateTime.ltb in Hlt. apply Z.ltb_lt in Hlt. exact Hlt.
Qed.

Lemma periods_from_progress credit o cs pn l :
  periods_from credit o cs pn l ->
  valid cs = true -> valid (end_date credit) = true ->
  Forall (fun p => valid (period_start_date p) = true
                   /\ valid (period_end_date p) = true
                   /\ instant cs <= instant (period_start_date p)
                   /\ instant (period_start_date p) < instant (period_end_date p)
                   /\ instant (period_end_date p) <= instant (end_date credit)) l.
Proof.
  induction 1 as [|cs pn pe rest Hlt Hnext Hrest IH]; intros Hcs Hend; constructor.
  - destruct (new_entry_fields credit pn cs pe) as (_ & _ & -> & -> & _).
    pose proof (next_period_end_valid _ _ _ _ Hcs Hend Hnext).
    pose proof (next_period_end_progress _ _ _ _ Hcs Hlt Hnext).
    pose proof (next_period_end_clamped _ _ _ _ Hnext).
    repeat split; auto; lia.
  - pose proof (next_period_end_progress _ _ _ _ Hcs Hlt Hnext) as Hprog.
    eapply Forall_impl; [|apply IH;
      [exact (next_period_end_valid _ _ _ _ Hcs Hend Hnext)|exact Hend]].
    cbv beta. intros p (H1 & H2 & H3 & H4 & H5). repeat split; auto; lia.
Qed.

(** X3. For a credit with valid dates, every period of a generated
    schedule starts and ends on valid datetimes, starts no earlier than the
    credit, ends after it starts and no later than the credit, and has a
    number of period days that is not negative. *)
Theorem generated_periods_advance credit db o g :
  valid (start_date credit) = true -> valid (end_date credit) = true ->
  generate_payment_schedule credit db o = Some (Ok g) ->
  forall p, In p (entries g) ->
    valid (period_start_date p) = true
    /\ valid (period_end_date p) = true
    /\ instant (start_date credit) <= instant (period_start_date p)
    /\ instant (period_start_date p) < instant (period_end_date p)
    /\ instant (period_end_date p) <= instant (end_date credit)
    /\ exists d, period_days p = Some d /\ 0 <= d.
Proof.
  intros Hs He Hg p Hp.
  pose proof (periods_from_progress _ _ _ _ _ (generate_periods _ _ _ _ Hg) Hs He) as Hall.
  rewrite Forall_forall in Hall. destruct (Hall p Hp) as (H1 & H2 & H3 & H4 & H5).
  repeat split; auto.
  destruct (In_nth_error _ _ Hp) as [i Hi].
  destruct (periods_from_nth _ _ _ _ _ (generate_periods _ _ _ _ Hg) i p Hi)
    as (s & e & Heq & _ & _).
  destruct (new_entry_fields credit (1 + Z.of_nat i) s e)
    as (_ & _ & Hstart & Hend & _ & _ & Hdays & _).
  rewrite <- Heq in Hstart, Hend, Hdays.
  exists (sub_days e s). split; [exact Hdays|].
  rewrite Hstart, Hend in H4. unfold sub_days.
  apply Z.div_pos; [lia|reflexivity].
Qed.

Lemma schedule_loop_never_raises fuel credit o cs pn acc e :
  valid cs = true -> valid (end_date credit) = true ->
  year (end_date credit) <= 9998 ->
  schedule_loop fuel credit o cs pn acc <> Some (Raise e).
Proof.
  intros Hcs Hend Hyear.
  revert cs pn acc Hcs; induction fuel as [|fuel IH]; intros cs pn acc Hcs; [discriminate|].
  rewrite schedule_loop_S.
  destruct (DateTime.ltb cs (end_date credit)) eqn:Hlt; [|discriminate].
  destruct (next_period_end credit o cs) as [pe|e'] eqn:Hnext.
  - destruct (pn + 1 >? 100); [discriminate|].
    apply IH. exact (next_period_end_valid _ _ _ _ Hcs Hend Hnext).
  - exfalso. rewrite (next_period_end_expected credit o cs Hcs) in Hnext.
    unfold expected_period_end in Hnext.
    destruct (valid_fields cs Hcs) as (_ & _ & Hy & Hm).
    pose proof (month_increment_bounds (payment_frequency credit)) as Hinc.
    unfold DateTime.ltb in Hlt. apply Z.ltb_lt in Hlt.
    pose proof (instant_lt_year cs (end_date credit) Hcs Hend Hlt) as Hle.
    match type of Hnext with
    | (if ?c then _ else _) = _ =>
        replace c with true in Hnext; [discriminate|]
    end.
    symmetry; apply Z.leb_le. unfold MAXYEAR. Z.div_mod_to_equations. lia.
Qed.

(** X4. For a credit with valid dates that ends before the year 9999,
    the date arithmetic of schedule generation raises no exception,
    whatever the payment day: the generation returns a schedule. *)
Theorem generation_succeeds_on_valid_dates credit db o :
  valid (start_date credit) = true -> valid (end_date credit) = true ->
  year (end_date credit) <= 9998 ->
  exists g, generate_payment_schedule credit db o = Some (Ok g).
Proof.
  intros Hs He Hy.
  destruct (schedule_loop_enough 101 credit o (start_date credit) 1 [])
    as (r & Hr & _); [lia|lia|].
  unfold generate_payment_schedule, generate_payment_schedule_fuel. rewrite Hr.
  destruct r as [[es log]|e].
  - destruct (nonempty es); eexists; reflexivity.
  - exfalso. exact (schedule_loop_never_raises _ _ _ _ _ _ e Hs He Hy Hr).
Qed.

End GenerationMore.

(** ** The interest of a schedule, in exact arithmetic *)

Section InterestTotals.
Implicit Types credit : CreditObligation (R := Qc).
Implicit Types p : PaymentSchedule (R := Qc).

Lemma of_Z_plus (x y : Z) :
  Q2Qc (inject_Z (x + y)) = (Q2Qc (inject_Z x) + Q2Qc (inject_Z y))%Qc.
Proof.
  unfold Qcplus. apply Q2Qc_eq_iff. cbn [this Q2Qc].
  rewrite !Qred_correct, inject_Z_plus. reflexivity.
Qed.

Lemma truthy_Qc_false (x : Qc) : num_truthy x = false -> x = 0%Qc.
Proof.
  cbn [num_truthy Number_Qc]. intros H. apply negb_false_iff in H.
  apply Qc_eq_bool_correct in H. exact H.
Qed.

Lemma or_zero_Qc (x : Qc) : or_zero (Some x) = x.
Proof.
  unfold or_zero. destruct (num_truthy x) eqn:E; [reflexivity|].
  rewrite (truthy_Qc_false x E). reflexivity.
Qed.

Lemma interest_of_no_days (principal rate : Qc) :
  calculate_interest_amount principal rate 0 = 0%Qc.
Proof.
  unfold calculate_interest_amount. cbn [num_of_Z num_add num_mul num_div Number_Qc].
  change (Q2Qc (inject_Z 0)) with 0%Qc. field. split; apply of_Z_nonzero; lia.
Qed.

Lemma interest_additive (principal rate : Qc) (d1 d2 : Z) :
  calculate_interest_amount principal rate (d1 + d2)
  = (calculate_interest_amount principal rate d1
     + calculate_interest_amount principal rate d2)%Qc.
Proof.
  unfold calculate_interest_amount. cbn [num_of_Z num_add num_mul num_div Number_Qc].
  rewrite of_Z_plus. field. split; apply of_Z_nonzero; lia.
Qed.

Lemma sum_floats_cons (x : Qc) (l : list Qc) :
  sum_floats (x :: l) = (x + sum_floats l)%Qc.
Proof.
  unfold sum_floats. cbn [fold_left num_of_Z num_add Number_Qc].
  change (Q2Qc (inject_Z 0)) with 0%Qc.
  assert (H : forall a b, fold_left Qcplus l (a + b)%Qc = (b + fold_left Qcplus l a)%Qc).
  { induction l as [|y l IH]; intros a b; simpl; [ring|].
    replace (a + b + y)%Qc with (a + y + b)%Qc by ring. apply IH. }
  apply H.
Qed.

Ltac fields_of_entry :=
  cbn [principal_amount interest_amount total_payment period_days interest_rate
       set_period_days set_interest_amount set_total_payment truthy_float].

(** The interest of a fresh entry, in exact arithmetic: a period without
    interest amount counts as zero, which is its interest. *)
Lemma new_entry_interest credit n cs pe :
  or_zero (interest_amount (new_entry credit n cs pe))
  = calculate_interest_amount (principal credit)
      (num_add (base_rate_value credit) (credit_spread credit)) (sub_days pe cs).
Proof.
  unfold new_entry, calculate_financials.
  rewrite principal_for_period_eq.
  cbn [period_days set_period_days interest_rate principal_amount
       period_start_date period_end_date].
  change (calculate_period_days cs pe) with (sub_days pe cs).
  set (P := principal credit).
  set (r := num_add (base_rate_value credit) (credit_spread credit)).
  set (d := sub_days pe cs).
  assert (Hzero : forall P' r' d', P' = 0%Qc \/ r' = 0%Qc \/ d' = 0 ->
                   calculate_interest_amount P' r' d' = 0%Qc).
  { intros P' r' d' [-> | [-> | ->]];
      unfold calculate_interest_amount;
      cbn [num_of_Z num_add num_mul num_div Number_Qc];
      change (Q2Qc (inject_Z 0)) with 0%Qc; field;
      split; apply of_Z_nonzero; lia. }
  destruct (num_truthy P) eqn:EP; cbn [andb].
  - destruct (num_truthy r) eqn:Er; cbn [andb].
    + destruct (d =? 0) eqn:Ed; cbn [negb]; fields_of_entry; rewrite EP; cbn [andb].
      * apply Z.eqb_eq in Ed. cbn [interest_amount or_zero].
        symmetry. apply Hzero. right; right; exact Ed.
      * destruct (num_truthy (calculate_interest_amount P r d));
          fields_of_entry; apply or_zero_Qc.
    + fields_of_entry. rewrite EP. cbn [andb interest_amount or_zero].
      symmetry. apply Hzero. right; left. exact (truthy_Qc_false r Er).
  - fields_of_entry. rewrite EP. cbn [andb interest_amount or_zero].
    symmetry. apply Hzero. left. exact (truthy_Qc_false P EP).
Qed.

Lemma next_period_end_tod credit o cs pe :
  next_period_end credit o cs = Ok pe -> tod pe = tod cs \/ pe = end_date credit.
Proof.
  unfold next_period_end.
  destruct (roll_months _ _ _) as [new_month new_year].
  unfold bind.
  destruct (match day_given o with Some _ => _ | None => _ end) as [target_day|e];
    [|discriminate].
  assert (Hrep : forall d r, replace cs new_year new_month d = Ok r -> tod r = tod cs).
  { intros d r. unfold replace.
    destruct (valid_date new_year new_month d); [|discriminate].
    intros [= <-]. reflexivity. }
  destruct (except_ValueError _ _) as [period_end|e] eqn:E; [|discriminate].
  intros [= <-].
  destruct (DateTime.gtb period_end (end_date credit)); [right; reflexivity|left].
  unfold except_ValueError in E.
  destruct (replace cs new_year new_month target_day) as [r|e] eqn:E1.
  - injection E as <-. exact (Hrep _ _ E1).
  - destruct e; try discriminate.
    destruct (monthrange_days new_year new_month) as [d'|]; [|discriminate].
    cbn in E. exact (Hrep _ _ E).
Qed.

Lemma periods_from_midnight credit o cs pn l :
  periods_from credit o cs pn l ->
  at_midnight cs -> at_midnight (end_date credit) ->
  forall b, chained cs l b -> at_midnight b.
Proof.
  induction 1 as [cs pn|cs pn pe rest Hlt Hnext Hrest IH]; intros Hcs Hend b Hb.
  - inversion Hb; subst. exact Hcs.
  - inversion Hb as [|a b' p l' Hp Hl]; subst.
    destruct (new_entry_frame credit pn cs pe) as (_ & Hpe & _).
    rewrite Hpe in Hl. apply IH; [|exact Hend|exact Hl].
    destruct (next_period_end_tod _ _ _ _ Hnext) as [E| ->]; [|exact Hend].
    unfold at_midnight in *. congruence.
Qed.

Lemma periods_from_total credit o cs pn l :
  periods_from credit o cs pn l ->
  at_midnight cs -> at_midnight (end_date credit) ->
  forall b, chained cs l b ->
  sum_floats (map (fun p => or_zero (interest_amount p)) l)
  = calculate_interest_amount (principal credit)
      (num_add (base_rate_value credit) (credit_spread credit)) (sub_days b cs).
Proof.
  induction 1 as [cs pn|cs pn pe rest Hlt Hnext Hrest IH]; intros Hcs Hend b Hb.
  - inversion Hb; subst. unfold sub_days. rewrite Z.sub_diag. cbn [map].
    change (0 / US_PER_DAY) with 0. rewrite interest_of_no_days. reflexivity.
  - inversion Hb as [|a b' p l' Hp Hl]; subst.
    destruct (new_entry_frame credit pn cs pe) as (_ & Hpe & _).
    rewrite Hpe in Hl.
    assert (Hmid : at_midnight pe).
    { destruct (next_period_end_tod _ _ _ _ Hnext) as [E| ->]; [|exact Hend].
      unfold at_midnight in *. congruence. }
    pose proof (periods_from_midnight _ _ _ _ _ Hrest Hmid Hend b Hl) as Hb'.
    cbn [map]. rewrite sum_floats_cons, new_entry_interest, (IH Hmid Hend b Hl).
    rewrite <- interest_additive. f_equal.
    pose proof (midnight_sub_days cs pe Hcs Hmid).
    pose proof (midnight_sub_days pe b Hmid Hb').
    pose proof (midnight_sub_days cs b Hcs Hb').
    unfold US_PER_DAY in *. lia.
Qed.

(** X5. In exact arithmetic, for a credit whose dates are calendar dates
    and whose schedule was not cut at 100 periods, the interest amounts of
    the generated periods add up to the interest of the whole term at the
    rate of the credit: splitting the term into periods loses nothing. *)
Theorem generated_interest_adds_up credit db o g :
  at_midnight (start_date credit) -> at_midnight (end_date credit) ->
  instant (start_date credit) <= instant (end_date credit) ->
  generate_payment_schedule credit db o = Some (Ok g) ->
  (List.length (entries g) < 100)%nat ->
  calculate_payment_schedule_interest (entries g)
  = calculate_interest_amount (principal credit)
      (num_add (base_rate_value credit) (credit_spread credit))
      (sub_days (end_date credit) (start_date credit)).
Proof.
  intros Hs He Hle Hg Hlen.
  destruct (generate_inv _ _ _ _ _ Hg) as (log & Hloop & _).
  destruct (schedule_loop_length _ _ _ _ _ _ _ _ Hloop) as [[_ H100]|[Hlog _]];
    [lia|reflexivity|lia|].
  destruct (schedule_loop_chained _ _ _ _ _ _ _ _ (start_date credit) Hloop)
    as (b & Hchain & Hup & Hlow); [constructor|left; reflexivity|].
  specialize (Hlow Hlog).
  pose proof (periods_from_total _ _ _ _ _ (generate_periods _ _ _ _ Hg) Hs He b Hchain)
    as Htotal.
  assert (Hinst : instant b = instant (end_date credit)).
  { destruct Hup as [Hnil|Hup]; [|lia].
    rewrite Hnil in Hchain. inversion Hchain; subst. lia. }
  unfold calculate_payment_schedule_interest.
  replace (sub_days (end_date credit) (start_date credit))
    with (sub_days b (start_date credit)) by (unfold sub_days; rewrite Hinst; reflexivity).
  destruct (entries g) as [|p l] eqn:El; [|exact Htotal].
  cbn [nonempty]. rewrite <- Htotal. reflexivity.
Qed.

End InterestTotals.

(** ** Payments and interest *)

Section SettledFacts.
Context {R : Type} {num : Number R}.
Implicit Types credit : CreditObligation (R := R).
Implicit Types p : PaymentSchedule (R := R).

(** A period that enters [calculate_financials] without amounts leaves it
    settled. *)
Lemma calculate_financials_settled p :
  interest_amount p = None -> total_payment p = None ->
  settled (calculate_financials p).
Proof.
  destruct p as [id s e pd P ia tp days n ir br sp]. cbn [interest_amount total_payment].
  intros -> ->. unfold settled, calculate_financials. fields_of_period.
  destruct ir as [rate|]; fields_of_period.
  - destruct (num_truthy P) eqn:EP; cbn [andb]; fields_of_period.
    + destruct (num_truthy rate && negb (_ =? 0)); fields_of_period.
      * rewrite EP. cbn [andb].
        destruct (num_truthy (calculate_interest_amount _ _ _)) eqn:Ex;
          fields_of_period; [reflexivity|].
        cbn [or_zero]. rewrite Ex. reflexivity.
      * rewrite EP. reflexivity.
    + rewrite EP. reflexivity.
  - rewrite andb_false_r. reflexivity.
Qed.

Lemma new_entry_settled credit n cs pe : settled (new_entry credit n cs pe).
Proof. unfold new_entry. apply calculate_financials_settled; reflexivity. Qed.

Lemma periods_from_settled credit o cs pn l :
  periods_from credit o cs pn l -> Forall settled l.
Proof. induction 1; constructor; [apply new_entry_settled|assumption]. Qed.

Lemma save_loop_settled (c : StoredCredit (R := R)) credit_id es :
  forall i l, save_loop c credit_id i es = Ok l -> Forall settled l.
Proof.
  induction es as [|parsed es IH]; intros i l; cbn [save_loop].
  - intros [= <-]. constructor.
  - destruct parsed as [entry|e]; cbn [bind]; [|discriminate].
    destruct (save_loop c credit_id (i + 1) es) as [l'|e] eqn:E; [|discriminate].
    intros [= <-]. constructor; [|exact (IH _ _ E)].
    apply calculate_financials_settled; reflexivity.
Qed.

Lemma recalculate_settled p db now indicator credit_spread :
  settled p ->
  settled (fst (recalculate_with_historical_rates p db now indicator credit_spread)).
Proof.
  intros Hp. unfold recalculate_with_historical_rates.
  assert (Hrec : forall q total_rate,
             or_zero (total_payment q) = or_zero (interest_amount q) ->
             settled match period_days q with
                     | Some days =>
                         if num_truthy (principal_amount q) && negb (days =? 0)
                         then
                           set_total_payment
                             (interest_amount
                                (set_interest_amount
                                   (Some (calculate_interest_amount
                                            (principal_amount q) total_rate days)) q))
                             (set_interest_amount
                                (Some (calculate_interest_amount
                                         (principal_amount q) total_rate days)) q)
                         else q
                     | None => q
                     end).
  { intros q total_rate Hq. destruct (period_days q) as [days|]; [|exact Hq].
    destruct (num_truthy (principal_amount q) && negb (days =? 0)); [|exact Hq].
    reflexivity. }
  destruct (String.eqb indicator "KEY_RATE"); [|exact Hp].
  destruct (DateTime.gtb (period_start_date p) now).
  - destruct (get_current_key_rate db) as [current_rate|]; [|exact Hp].
    cbn [fst]. apply Hrec. exact Hp.
  - destruct (get_average_key_rate_for_period db _ _) as [average|]; [|exact Hp].
    cbn [fst]. apply Hrec. exact Hp.
Qed.

Lemma recalculate_loop_settled l db now credit :
  Forall settled l ->
  forall ps es, recalculate_loop l db now credit = Ok (ps, es) -> Forall settled ps.
Proof.
  induction 1 as [|p l Hp Hl IH]; intros ps es; cbn [recalculate_loop].
  - intros [= <- <-]. constructor.
  - pose proof (recalculate_settled p db now (base_rate_indicator credit)
                  (credit_spread credit) Hp) as Hp'.
    destruct (recalculate_with_historical_rates p db now _ _) as [p' [[]|e]];
      [|discriminate].
    destruct (recalculate_loop l db now credit) as [[ps' es']|e] eqn:E;
      cbn [bind]; [|discriminate].
    intros [= <- <-]. constructor; [exact Hp'|exact (IH _ _ eq_refl)].
Qed.

(** X6. Every period of a generated schedule is settled: its total
    payment is its interest amount, or both count as zero.  No period, the
    last one of a bullet credit included, has the principal in its
    payment. *)
Theorem generated_payments_are_interest credit db o g :
  generate_payment_schedule credit db o = Some (Ok g) ->
  Forall settled (entries g).
Proof.
  intros Hg. exact (periods_from_settled _ _ _ _ _ (generate_periods _ _ _ _ Hg)).
Qed.

(** X7. The recalculation endpoint keeps a settled schedule settled,
    whatever the store and the clock, and whether it succeeds or fails. *)
Theorem recalculation_keeps_payments_settled
        (found : option (CreditObligation (R := R))) l db now :
  Forall settled l ->
  Forall settled (fst (recalculate_interest_with_historical_rates found l db now)).
Proof.
  intros Hl. unfold recalculate_interest_with_historical_rates.
  destruct found as [credit|]; [|exact Hl].
  destruct (negb (nonempty l)); [exact Hl|].
  destruct (recalculate_loop l db now credit) as [[ps es]|e] eqn:E; [|exact Hl].
  exact (recalculate_loop_settled _ _ _ _ Hl _ _ E).
Qed.

Lemma sum_floats_ext (f g : PaymentSchedule (R := R) -> R) l :
  Forall (fun p => f p = g p) l -> map f l = map g l.
Proof. induction 1; cbn [map]; congruence. Qed.

(** X8. On a schedule whose periods are settled, the summary of the
    schedule reports a total of payments equal to its total of interest. *)
Theorem summary_totals_agree (found : option (StoredCredit (R := R))) credit_id table s :
  Forall settled (schedule_of_credit credit_id table) ->
  get_schedule_summary found credit_id table = Ok s ->
  total_payments s = total_interest s.
Proof.
  intros Hl. unfold get_schedule_summary.
  destruct found as [c|]; [|discriminate].
  destruct (negb (nonempty _)); intros [= <-]; cbn [total_payments total_interest];
    [reflexivity|].
  f_equal. apply sum_floats_ext. exact Hl.
Qed.

End SettledFacts.

(** ** More on recalculation *)

Section RecalculationMore.
Context {R : Type} {num : Number R}.
Implicit Types credit : CreditObligation (R := R).
Implicit Types p : PaymentSchedule (R := R).

Lemma recalculate_other_indicator p db now indicator credit_spread :
  String.eqb indicator "KEY_RATE" = false ->
  recalculate_with_historical_rates p db now indicator credit_spread = (p, Ok tt).
Proof. intros H. unfold recalculate_with_historical_rates. rewrite H. reflexivity. Qed.

Lemma recalculate_loop_other_indicator l db now credit :
  String.eqb (base_rate_indicator credit) "KEY_RATE" = false ->
  recalculate_loop l db now credit = Ok (l, map unchanged_entry l).
Proof.
  intros H. induction l as [|p l IH]; cbn [recalculate_loop]; [reflexivity|].
  rewrite (recalculate_other_indicator p db now _ _ H), IH. reflexivity.
Qed.

(** X9. For a credit whose base rate indicator is not KEY_RATE the
    recalculation endpoint succeeds and changes nothing: the stored
    schedule is the same, and every period is reported with its old values
    as its new ones. *)
Theorem recalculation_skips_other_indicators credit l db now :
  String.eqb (base_rate_indicator credit) "KEY_RATE" = false ->
  l <> [] ->
  recalculate_interest_with_historical_rates (Some credit) l db now
  = (l, Ok (map unchanged_entry l)).
Proof.
  intros H Hl. unfold recalculate_interest_with_historical_rates.
  destruct l as [|p l]; [contradiction|]. cbn [nonempty negb].
  rewrite (recalculate_loop_other_indicator (p :: l) db now credit H). reflexivity.
Qed.

(** Recalculating a recalculated period changes nothing more. *)
Lemma recalculate_twice p db now indicator credit_spread :
  let once := recalculate_with_historical_rates p db now indicator credit_spread in
  recalculate_with_historical_rates (fst once) db now indicator credit_spread
  = (fst once, snd once).
Proof.
  destruct p as [id s e pd P ia tp days n ir br sp].
  unfold recalculate_with_historical_rates.
  destruct (String.eqb indicator "KEY_RATE"); [|reflexivity].
  fields_of_period.
  destruct (DateTime.gtb s now) eqn:Hnow.
  - destruct (get_current_key_rate db) as [current_rate|] eqn:Hcur; cbn [fst snd].
    + destruct days as [d|]; fields_of_period.
      * destruct (num_truthy P && negb (d =? 0)) eqn:E; fields_of_period;
          rewrite Hnow; fields_of_period; rewrite ?E; reflexivity.
      * rewrite Hnow. reflexivity.
    + fields_of_period. rewrite Hnow, ?Hcur. reflexivity.
  - destruct (get_average_key_rate_for_period db s e) as [average|] eqn:Havg; cbn [fst snd].
    + destruct days as [d|]; fields_of_period.
      * destruct (num_truthy P && negb (d =? 0)) eqn:E; fields_of_period;
          rewrite Hnow, ?Havg; fields_of_period; rewrite ?E; reflexivity.
      * rewrite Hnow, ?Havg. reflexivity.
    + fields_of_period. rewrite Hnow, ?Havg. reflexivity.
Qed.

Lemma recalculate_loop_twice l db now credit ps es :
  recalculate_loop l db now credit = Ok (ps, es) ->
  exists es', recalculate_loop ps db now credit = Ok (ps, es').
Proof.
  revert ps es; induction l as [|p l IH]; intros ps es; cbn [recalculate_loop].
  - intros [= <- <-]. eexists; reflexivity.
  - pose proof (recalculate_twice p db now (base_rate_indicator credit)
                  (credit_spread credit)) as Htwice. cbv zeta in Htwice.
    destruct (recalculate_with_historical_rates p db now _ _) as [p' [[]|e]] eqn:Hp;
      [|discriminate].
    cbn [fst snd] in Htwice.
    destruct (recalculate_loop l db now credit) as [[ps' es']|e] eqn:E;
      cbn [bind]; [|discriminate].
    intros [= <- <-]. cbn [fst snd].
    destruct (IH _ _ eq_refl) as (es'' & Hes).
    cbn [recalculate_loop]. rewrite Htwice, Hes. cbn [bind fst snd].
    eexists; reflexivity.
Qed.

(** X10. Recalculation is idempotent on the stored schedule: with the
    same store and the same clock, a second call of the endpoint leaves the
    schedule as the first call left it. *)
Theorem recalculation_is_idempotent (found : option (CreditObligation (R := R))) l db now :
  fst (recalculate_interest_with_historical_rates found
         (fst (recalculate_interest_with_historical_rates found l db now)) db now)
  = fst (recalculate_interest_with_historical_rates found l db now).
Proof.
  unfold recalculate_interest_with_historical_rates.
  destruct found as [credit|]; [|reflexivity].
  destruct l as [|p l]; [reflexivity|]. cbn [nonempty negb].
  destruct (recalculate_loop (p :: l) db now credit) as [[ps es]|e] eqn:E; cbn [fst].
  - destruct (recalculate_loop_twice _ _ _ _ _ _ E) as (es' & Hes).
    rewrite Hes. destruct (negb (nonempty ps)); reflexivity.
  - cbn [nonempty negb]. rewrite E. reflexivity.
Qed.

End RecalculationMore.

(** ** More on the store *)

Section StoreMore.
Context {R : Type} {num : Number R}.
Implicit Types (db : list (CBRKeyRate (R := R))) (r : CBRKeyRate (R := R)).

Lemma filter_all {X : Type} (p : X -> bool) (l : list X) :
  (forall x, In x l -> p x = true) -> filter p l = l.
Proof.
  induction l as [|x l IH]; intros H; cbn [filter]; [reflexivity|].
  rewrite (H x (or_introl eq_refl)), IH; [reflexivity|].
  intros y Hy. apply H. right; exact Hy.
Qed.

Lemma filter_none {X : Type} (p : X -> bool) (l : list X) :
  (forall x, In x l -> p x = false) -> filter p l = [].
Proof.
  induction l as [|x l IH]; intros H; cbn [filter]; [reflexivity|].
  rewrite (H x (or_introl eq_refl)). apply IH.
  intros y Hy. apply H. right; exact Hy.
Qed.

Lemma get_latest_rate_best db r :
  get_latest_rate db = Some r ->
  In r db /\ forall r', In r' db ->
                        instant (effective_date r') <= instant (effective_date r).
Proof.
  unfold get_latest_rate. rewrite first_order_by. intros H. split.
  - exact (first_best_In _ _ _ H).
  - intros r' Hr'.
    pose proof (first_best_best effective_desc effective_desc_total effective_desc_trans
                  _ _ H r' Hr') as Hge.
    unfold effective_desc, DateTime.geb in Hge. apply Z.leb_le in Hge. exact Hge.
Qed.

(** X11. The current key rate is the rate of a row whose effective date
    no other row of the store exceeds, and there is none exactly when the
    store is empty.  The clock plays no part: a row that takes effect in
    the future is the current one. *)
Theorem current_rate_is_latest_effective db :
  (get_current_key_rate db = None <-> db = [])
  /\ forall v, get_current_key_rate db = Some v ->
       exists r, In r db /\ rate r = v
                 /\ forall r', In r' db ->
                      instant (effective_date r') <= instant (effective_date r).
Proof.
  unfold get_current_key_rate. split.
  - unfold get_latest_rate. rewrite first_order_by.
    destruct (first_best effective_desc db) as [r|] eqn:E; cbn [option_map].
    + split; [discriminate|]. intros ->. discriminate.
    + split; [|reflexivity]. intros _. apply (first_best_none effective_desc). exact E.
  - intros v. destruct (get_latest_rate db) as [r|] eqn:E; [|discriminate].
    intros [= <-]. exists r. destruct (get_latest_rate_best db r E) as (Hin & Hbest).
    repeat split; assumption.
Qed.


(** X14. When no row takes effect within the period, and so whenever
    the period ends before it starts, the average over the period is the
    rate in force on its first day. *)
Theorem average_of_quiet_period db a b :
  (forall r, In r db ->
             ~ (instant a <= instant (effective_date r) <= instant b)) ->
  get_average_key_rate_for_period db a b = get_key_rate_on_date db a.
Proof.
  intros Hquiet. unfold get_average_key_rate_for_period.
  rewrite filter_none; [reflexivity|].
  intros r Hr. specialize (Hquiet r Hr).
  unfold in_period, DateTime.geb, DateTime.leb.
  apply andb_false_iff.
  destruct (Z.leb_spec (instant a) (instant (effective_date r))) as [H1|H1];
    [right|left; reflexivity].
  apply Z.leb_gt. lia.
Qed.

Lemma in_period_In a b r db :
  (In r db /\ instant a <= instant (effective_date r) <= instant b)
  <-> (In r db /\ in_period a b r = true).
Proof.
  unfold in_period, DateTime.geb, DateTime.leb.
  rewrite andb_true_iff, !Z.leb_le. tauto.
Qed.

(** X19. The rate history of a window lists exactly the rows that take
    effect within the window, each as often as the store holds it, the
    latest first, and counts them. *)
Theorem history_lists_the_window db a b :
  Permutation (fst (get_key_rate_history db a b)) (filter (in_period a b) db)
  /\ (forall r, In r (fst (get_key_rate_history db a b)) <->
                In r db /\ instant a <= instant (effective_date r) <= instant b)
  /\ StronglySorted (fun r r' => instant (effective_date r') <= instant (effective_date r))
                    (fst (get_key_rate_history db a b))
  /\ snd (get_key_rate_history db a b)
     = Z.of_nat (List.length (fst (get_key_rate_history db a b))).
Proof.
  unfold get_key_rate_history. cbn [fst snd].
  pose proof (order_by_perm effective_desc (filter (in_period a b) db)) as Hperm.
  split; [exact Hperm|split; [|split; [|reflexivity]]].
  - intros r. rewrite (in_period_In a b r db). split.
    + intros Hr. apply (Permutation_in _ Hperm), filter_In in Hr. exact Hr.
    + intros Hr. apply (Permutation_in _ (Permutation_sym Hperm)), filter_In. exact Hr.
  - pose proof (order_by_sorted effective_desc effective_desc_total effective_desc_trans
                  (filter (in_period a b) db)) as Hs.
    clear Hperm. induction Hs as [|r l Hl IH Hr]; constructor; [exact IH|].
    eapply Forall_impl; [|exact Hr]. cbv beta. intros r' Hge.
    unfold effective_desc, DateTime.geb in Hge. apply Z.leb_le in Hge. exact Hge.
Qed.

Lemma first_asc_best db r :
  first (order_by effective_asc db) = Some r ->
  In r db /\ forall r', In r' db ->
                        instant (effective_date r) <= instant (effective_date r').
Proof.
  rewrite first_order_by. intros H. split.
  - exact (first_best_In _ _ _ H).
  - intros r' Hr'.
    pose proof (first_best_best effective_asc effective_asc_total effective_asc_trans
                  _ _ H r' Hr') as Hle.
    unfold effective_asc, DateTime.leb in Hle. apply Z.leb_le in Hle. exact Hle.
Qed.

(** X20. The data source information reports no data exactly for the
    empty store; otherwise it counts the rows and gives as date range two
    effective dates of the store that enclose all the others. *)
Theorem data_source_range_encloses db :
  (get_data_source_info db = no_data <-> db = [])
  /\ (db <> [] ->
      exists first_row last_row,
        In first_row db /\ In last_row db
        /\ get_data_source_info db
           = official_data (Z.of_nat (List.length db))
               (Some (effective_date first_row)) (Some (effective_date last_row))
        /\ forall r, In r db ->
             instant (effective_date first_row) <= instant (effective_date r)
             /\ instant (effective_date r) <= instant (effective_date last_row)).
Proof.
  unfold get_data_source_info. split.
  - destruct db as [|r db]; [split; reflexivity|].
    replace (Z.of_nat (List.length (r :: db)) =? 0) with false
      by (symmetry; apply Z.eqb_neq; cbn [List.length]; lia).
    split; discriminate.
  - intros Hne.
    replace (Z.of_nat (List.length db) =? 0) with false
      by (symmetry; apply Z.eqb_neq; destruct db; [contradiction|cbn [List.length]; lia]).
    destruct (first (order_by effective_asc db)) as [lo|] eqn:Elo.
    + destruct (first (order_by effective_desc db)) as [hi|] eqn:Ehi.
      * destruct (first_asc_best db lo Elo) as (Hlo & Hlow).
        destruct (get_latest_rate_best db hi Ehi) as (Hhi & Hhigh).
        exists lo, hi. repeat split; auto.
      * rewrite first_order_by in Ehi.
        apply (first_best_none effective_desc) in Ehi. contradiction.
    + rewrite first_order_by in Elo.
      apply (first_best_none effective_asc) in Elo. contradiction.
Qed.

End StoreMore.

(** ** Bounds of the average *)

Section AverageBounds.
Implicit Types (db : list (CBRKeyRate (R := Qc))) (r : CBRKeyRate (R := Qc)).

Lemma of_Z_nonneg (z : Z) : 0 <= z -> (0 <= Q2Qc (inject_Z z))%Qc.
Proof.
  intros Hz. unfold Qcle. cbn [this Q2Qc]. rewrite !Qred_correct.
  unfold Qle, inject_Z. cbn. lia.
Qed.

Lemma of_Z_positive (z : Z) : 0 < z -> (0 < Q2Qc (inject_Z z))%Qc.
Proof.
  intros Hz. unfold Qclt. cbn [this Q2Qc]. rewrite !Qred_correct.
  unfold Qlt, inject_Z. cbn. lia.
Qed.

Lemma weighted_step (lo hi ws v : Qc) (tw d : Z) :
  (lo <= v)%Qc -> (v <= hi)%Qc -> 0 <= d ->
  (lo * Q2Qc (inject_Z tw) <= ws)%Qc -> (ws <= hi * Q2Qc (inject_Z tw))%Qc ->
  (lo * Q2Qc (inject_Z (tw + d)) <= ws + v * Q2Qc (inject_Z d))%Qc
  /\ (ws + v * Q2Qc (inject_Z d) <= hi * Q2Qc (inject_Z (tw + d)))%Qc.
Proof.
  intros Hlo Hhi Hd Hl Hh. rewrite of_Z_plus.
  pose proof (of_Z_nonneg d Hd) as Hd'.
  split.
  - replace (lo * (Q2Qc (inject_Z tw) + Q2Qc (inject_Z d)))%Qc
      with (lo * Q2Qc (inject_Z tw) + lo * Q2Qc (inject_Z d))%Qc by ring.
    apply Qcplus_le_compat; [exact Hl|]. apply Qcmult_le_compat_r; assumption.
  - replace (hi * (Q2Qc (inject_Z tw) + Q2Qc (inject_Z d)))%Qc
      with (hi * Q2Qc (inject_Z tw) + hi * Q2Qc (inject_Z d))%Qc by ring.
    apply Qcplus_le_compat; [exact Hh|]. apply Qcmult_le_compat_r; assumption.
Qed.

Lemma weigh_rates_bounds (lo hi : Qc) (rates : list (CBRKeyRate (R := Qc))) a b :
  (forall r, In r rates -> (lo <= rate r)%Qc /\ (rate r <= hi)%Qc) ->
  forall ws tw,
    0 <= tw ->
    (lo * Q2Qc (inject_Z tw) <= ws)%Qc -> (ws <= hi * Q2Qc (inject_Z tw))%Qc ->
    0 <= snd (weigh_rates rates a b ws tw)
    /\ (lo * Q2Qc (inject_Z (snd (weigh_rates rates a b ws tw)))
        <= fst (weigh_rates rates a b ws tw))%Qc
    /\ (fst (weigh_rates rates a b ws tw)
        <= hi * Q2Qc (inject_Z (snd (weigh_rates rates a b ws tw))))%Qc.
Proof.
  induction rates as [|r rates IH]; intros Hall ws tw Htw Hl Hh.
  - cbn [weigh_rates fst snd]. auto.
  - rewrite weigh_rates_cons. cbv zeta.
    set (d := sub_days _ _).
    assert (Hrest : forall r', In r' rates -> (lo <= rate r')%Qc /\ (rate r' <= hi)%Qc)
      by (intros r' Hr'; apply Hall; right; exact Hr').
    destruct (d >? 0) eqn:Hd.
    + assert (Hd' : 0 <= d) by (apply Z.gtb_lt in Hd; lia).
      destruct (Hall r (or_introl eq_refl)) as (Hlo & Hhi).
      destruct (weighted_step lo hi ws (rate r) tw d Hlo Hhi Hd' Hl Hh) as (H1 & H2).
      apply IH; [exact Hrest|lia|exact H1|exact H2].
    + apply IH; assumption.
Qed.

Lemma mean_within (lo hi ws : Qc) (tw : Z) :
  0 < tw ->
  (lo * Q2Qc (inject_Z tw) <= ws)%Qc -> (ws <= hi * Q2Qc (inject_Z tw))%Qc ->
  (lo <= ws / Q2Qc (inject_Z tw))%Qc /\ (ws / Q2Qc (inject_Z tw) <= hi)%Qc.
Proof.
  intros Htw Hl Hh.
  pose proof (of_Z_positive tw Htw) as Hpos.
  assert (Hne : Q2Qc (inject_Z tw) <> 0%Qc) by (apply of_Z_nonzero; lia).
  assert (Hmul : (ws / Q2Qc (inject_Z tw) * Q2Qc (inject_Z tw))%Qc = ws)
    by (field; exact Hne).
  split; apply (Qcmult_lt_0_le_reg_r _ _ _ Hpos); rewrite Hmul; assumption.
Qed.

(** X13. In exact arithmetic, the average over a period lies between
    any two bounds of the rates of the store, however the dates of the
    store and of the period lie. *)
Theorem average_within_rate_bounds (lo hi : Qc) db a b v :
  (forall r, In r db -> (lo <= rate r)%Qc /\ (rate r <= hi)%Qc) ->
  get_average_key_rate_for_period db a b = Some v ->
  (lo <= v)%Qc /\ (v <= hi)%Qc.
Proof.
  intros Hall. unfold get_average_key_rate_for_period.
  assert (Hon : forall row, get_rate_on_date db a = Some row -> In row db)
    by (intros row H; exact (proj1 (get_rate_on_date_Some db a row H))).
  assert (Hsub : forall r, In r (order_by effective_asc (filter (in_period a b) db)) ->
                           (lo <= rate r)%Qc /\ (rate r <= hi)%Qc).
  { intros r Hr. apply Hall. apply period_rows_In in Hr. tauto. }
  destruct (order_by effective_asc (filter (in_period a b) db)) as [|r0 rates] eqn:EL.
  - destruct (get_rate_on_date db a) as [row|] eqn:E; [|discriminate].
    intros [= <-]. apply Hall, Hon. reflexivity.
  - destruct (sub_days b a =? 0).
    + intros [= <-]. apply Hsub. left; reflexivity.
    + change (num_of_Z 0) with (Q2Qc (inject_Z 0)).
      destruct (weigh_rates_bounds lo hi (r0 :: rates) a b Hsub (Q2Qc (inject_Z 0)) 0)
        as (Htw & Hl & Hh).
      { lia. }
      { change (Q2Qc (inject_Z 0)) with 0%Qc. rewrite Qcmult_0_r. apply Qcle_refl. }
      { change (Q2Qc (inject_Z 0)) with 0%Qc. rewrite Qcmult_0_r. apply Qcle_refl. }
      destruct (weigh_rates (r0 :: rates) a b (Q2Qc (inject_Z 0)) 0) as [ws tw].
      cbn [fst snd] in Htw, Hl, Hh.
      assert (Hfinal : forall ws' tw',
                 0 <= tw' ->
                 (lo * Q2Qc (inject_Z tw') <= ws')%Qc ->
                 (ws' <= hi * Q2Qc (inject_Z tw'))%Qc ->
                 (if tw' =? 0 then None
                  else Some (num_div ws' (num_of_Z tw'))) = Some v ->
                 (lo <= v)%Qc /\ (v <= hi)%Qc).
      { intros ws' tw' H0 H1 H2. destruct (Z.eqb_spec tw' 0); [discriminate|].
        intros [= <-]. apply mean_within; [lia|assumption|assumption]. }
      destruct (DateTime.gtb (effective_date r0) a) eqn:Hgt.
      * destruct (get_rate_on_date db a) as [pre|] eqn:E.
        -- assert (Hd : 0 <= sub_days (effective_date r0) a).
           { unfold DateTime.gtb, DateTime.ltb in Hgt. apply Z.ltb_lt in Hgt.
             unfold sub_days. apply Z.div_pos; [lia|reflexivity]. }
           destruct (Hall pre (Hon pre eq_refl)) as (Hlo & Hhi).
           destruct (weighted_step lo hi ws (rate pre) tw _ Hlo Hhi Hd Hl Hh) as (H1 & H2).
           apply Hfinal; [lia|exact H1|exact H2].
        -- apply Hfinal; assumption.
      * apply Hfinal; assumption.
Qed.

End AverageBounds.

(** ** Batches of fetched points *)

Section UpsertMore.
Context {R : Type} {num : Number R}.
Implicit Types (db table : list (CBRKeyRate (R := R))) (rd : RateData (R := R))
         (ks : list (RateData (R := R))) (r : CBRKeyRate (R := R)).

Lemma update_first_dates rd table :
  map date (update_first (same_date rd) (overwrite rd) table) = map date table.
Proof.
  induction table as [|r table IH]; cbn [update_first map]; [reflexivity|].
  destruct (same_date rd r); cbn [map]; [reflexivity|]. rewrite IH. reflexivity.
Qed.

Lemma update_first_nth rd table i r :
  nth_error table i = Some r -> same_date rd r = false ->
  nth_error (update_first (same_date rd) (overwrite rd) table) i = Some r.
Proof.
  revert i; induction table as [|r0 table IH]; intros i Hi Hr; [destruct i; discriminate|].
  cbn [update_first]. destruct (same_date rd r0) eqn:E.
  - destruct i as [|i]; cbn in Hi |- *; [|exact Hi].
    injection Hi as ->. congruence.
  - destruct i as [|i]; cbn in Hi |- *; [exact Hi|]. apply IH; assumption.
Qed.

Lemma existsb_dates rd table table' :
  map date table = map date table' ->
  existsb (same_date rd) table = existsb (same_date rd) table'.
Proof.
  revert table'; induction table as [|r table IH]; intros [|r' table'];
    cbn [map existsb]; try discriminate; [reflexivity|].
  intros [= Hd Ht]. unfold same_date at 1 3. rewrite Hd, (IH _ Ht). reflexivity.
Qed.

Lemma first_filter_existsb {X : Type} (p : X -> bool) (l : list X) :
  existsb p l = match first (filter p l) with Some _ => true | None => false end.
Proof.
  induction l as [|x l IH]; cbn [existsb filter]; [reflexivity|].
  destruct (p x); cbn [orb]; [reflexivity|exact IH].
Qed.

Lemma upsert_loop_shape ks :
  forall table pending n,
  exists table',
    upsert_loop ks table pending n
    = (table', (pending ++ map to_row (filter (is_new table) ks))%list,
       n + Z.of_nat (List.length ks))
    /\ map date table' = map date table
    /\ forall i r, nth_error table i = Some r ->
                   (forall rd, In rd ks -> same_date rd r = false) ->
                   nth_error table' i = Some r.
Proof.
  induction ks as [|rd ks IH]; intros table pending n.
  - exists table. cbn [upsert_loop filter map List.length].
    rewrite app_nil_r, Z.add_0_r. auto.
  - cbn [upsert_loop filter]. unfold is_new at 1.
    rewrite (first_filter_existsb (same_date rd) table).
    destruct (first (filter (same_date rd) table)) as [old|] eqn:E; cbn [negb].
    + destruct (IH (update_first (same_date rd) (overwrite rd) table) pending (n + 1))
        as (table' & Hloop & Hdates & Hframe).
      exists table'. rewrite Hloop. repeat split.
      * f_equal; [f_equal|cbn [List.length]; lia].
        f_equal. f_equal. apply filter_ext. intros rd'. unfold is_new. f_equal.
        apply existsb_dates. apply update_first_dates.
      * rewrite Hdates. apply update_first_dates.
      * intros i r Hi Hr. apply Hframe.
        -- apply update_first_nth; [exact Hi|]. apply Hr. left; reflexivity.
        -- intros rd' Hrd'. apply Hr. right; exact Hrd'.
    + destruct (IH table (pending ++ [mk_CBRKeyRate (rd_date rd) (rd_effective_date rd)
                                        (rd_rate rd)])%list (n + 1))
        as (table' & Hloop & Hdates & Hframe).
      exists table'. rewrite Hloop. repeat split.
      * f_equal; [f_equal|cbn [List.length]; lia].
        rewrite <- app_assoc. reflexivity.
      * exact Hdates.
      * intros i r Hi Hr. apply Hframe; [exact Hi|].
        intros rd' Hrd'. apply Hr. right; exact Hrd'.
Qed.

Lemma upsert_rates_shape ks db :
  exists table',
    upsert_rates ks db = ((table' ++ map to_row (filter (is_new db) ks))%list,
                          Z.of_nat (List.length ks))
    /\ map date table' = map date db
    /\ forall i r, nth_error db i = Some r ->
                   (forall rd, In rd ks -> same_date rd r = false) ->
                   nth_error table' i = Some r.
Proof.
  destruct (upsert_loop_shape ks db [] 0) as (table' & Hloop & Hdates & Hframe).
  exists table'. unfold upsert_rates. rewrite Hloop. auto.
Qed.

(** X15. An upsert of fetched points deletes no row, moves none and
    changes no announcement date: the rows of the table stay in place, the
    ones whose announcement date no point carries stay as they are, and
    after them comes one new row for each point whose announcement date the
    table did not hold.  The count returned is the number of points
    fetched, whether or not they changed anything. *)
Theorem upsert_keeps_the_table ks db :
  exists table',
    fst (upsert_rates ks db) = (table' ++ map to_row (filter (is_new db) ks))%list
    /\ map date table' = map date db
    /\ (forall i r, nth_error db i = Some r ->
                    (forall rd, In rd ks -> same_date rd r = false) ->
                    nth_error table' i = Some r)
    /\ snd (upsert_rates ks db) = Z.of_nat (List.length ks).
Proof.
  destruct (upsert_rates_shape ks db) as (table' & Heq & Hdates & Hframe).
  exists table'. rewrite Heq. auto.
Qed.

Lemma count_date_dates d table table' :
  map date table = map date table' -> count_date d table = count_date d table'.
Proof.
  unfold count_date.
  revert table'; induction table as [|r table IH]; intros [|r' table'];
    cbn [map filter]; try discriminate; [reflexivity|].
  intros [= Hd Ht]. rewrite Hd.
  destruct (DateTime.eqb (date r') d); cbn [List.length]; rewrite (IH _ Ht); reflexivity.
Qed.

Lemma count_date_positive d db :
  (0 < count_date d db)%nat <-> exists r, In r db /\ DateTime.eqb (date r) d = true.
Proof.
  unfold count_date. split.
  - destruct (filter _ db) as [|r l] eqn:E; [cbn; lia|]. intros _.
    assert (H : In r (filter (fun r => DateTime.eqb (date r) d) db))
      by (rewrite E; left; reflexivity).
    apply filter_In in H. exists r. exact H.
  - intros (r & Hin & Hr).
    assert (H : In r (filter (fun r => DateTime.eqb (date r) d) db))
      by (apply filter_In; auto).
    destruct (filter _ db); [contradiction|cbn; lia].
Qed.

Lemma count_date_new_rows d ks db :
  NoDup (map (fun rd => instant (rd_date rd)) ks) ->
  (count_date d (map to_row (filter (is_new db) ks)) <= 1)%nat
  /\ ((0 < count_date d db)%nat ->
      count_date d (map to_row (filter (is_new db) ks)) = 0%nat).
Proof.
  intros Hnd. split.
  - induction ks as [|rd ks IH]; cbn [filter map]; [cbn; lia|].
    inversion Hnd as [|? ? Hnotin Hnd']; subst.
    destruct (is_new db rd); [|exact (IH Hnd')].
    cbn [map]. unfold count_date in *. cbn [filter to_row date].
    destruct (DateTime.eqb (rd_date rd) d) eqn:E; [|exact (IH Hnd')].
    cbn [List.length].
    assert (Hnone : filter (fun r => DateTime.eqb (date r) d)
                      (map to_row (filter (is_new db) ks)) = []).
    { apply filter_none. intros r Hr. apply in_map_iff in Hr.
      destruct Hr as (rd' & <- & Hrd'). apply filter_In in Hrd'.
      destruct Hrd' as (Hrd' & _). cbn [to_row date].
      destruct (DateTime.eqb (rd_date rd') d) eqn:E'; [|reflexivity].
      exfalso. apply Hnotin.
      unfold DateTime.eqb in E, E'. apply Z.eqb_eq in E, E'.
      rewrite E, <- E'. apply (in_map (fun rd => instant (rd_date rd))). exact Hrd'. }
    rewrite Hnone. cbn. lia.
  - intros Hpos. apply count_date_positive in Hpos. destruct Hpos as (r & Hr & Hd).
    unfold count_date. replace (filter _ (map to_row _)) with (@nil (CBRKeyRate (R := R)));
      [reflexivity|].
    symmetry. apply filter_none. intros r' Hr'. apply in_map_iff in Hr'.
    destruct Hr' as (rd' & <- & Hrd'). apply filter_In in Hrd'.
    destruct Hrd' as (_ & Hnew). cbn [to_row date].
    destruct (DateTime.eqb (rd_date rd') d) eqn:E'; [|reflexivity].
    exfalso. unfold is_new in Hnew. apply negb_true_iff in Hnew.
    assert (Hex : existsb (same_date rd') db = true).
    { apply existsb_exists. exists r. split; [exact Hr|].
      unfold same_date, DateTime.eqb in *. apply Z.eqb_eq in Hd, E'.
      apply Z.eqb_eq. lia. }
    congruence.
Qed.

(** X16. Where the table holds no announcement date twice and the
    fetched points carry no announcement date twice, the table after the
    upsert holds no announcement date twice. *)
Theorem upsert_keeps_dates_unique ks db :
  dates_unique db ->
  NoDup (map (fun rd => instant (rd_date rd)) ks) ->
  dates_unique (fst (upsert_rates ks db)).
Proof.
  intros Hdb Hks d.
  destruct (upsert_rates_shape ks db) as (table' & Heq & Hdates & _).
  rewrite Heq. cbn [fst]. rewrite count_date_app, (count_date_dates d _ _ Hdates).
  destruct (count_date_new_rows d ks db Hks) as (Hle & Hzero).
  specialize (Hdb d).
  destruct (count_date d db) as [|c] eqn:Ec; [lia|].
  rewrite Hzero; lia.
Qed.

Lemma touch_date rd r : date (touch rd r) = date r.
Proof. unfold touch. destruct (same_date rd r); reflexivity. Qed.

Lemma touch_all_date ks r : date (touch_all ks r) = date r.
Proof.
  unfold touch_all. revert r; induction ks as [|rd ks IH]; intros r; cbn [fold_left];
    [reflexivity|]. rewrite IH. apply touch_date.
Qed.

Lemma touch_all_cons rd ks r : touch_all (rd :: ks) r = touch_all ks (touch rd r).
Proof. reflexivity. Qed.

Lemma map_touch_none rd table :
  filter (same_date rd) table = [] -> map (touch rd) table = table.
Proof.
  induction table as [|r table IH]; cbn [filter map]; [reflexivity|].
  unfold touch at 1. destruct (same_date rd r); [discriminate|].
  intros H. rewrite (IH H). reflexivity.
Qed.

(** Where the date of the point is held once at most, overwriting the
    first row of that date overwrites every row of that date. *)
Lemma update_first_touch rd table :
  (count_date (rd_date rd) table <= 1)%nat ->
  update_first (same_date rd) (overwrite rd) table = map (touch rd) table.
Proof.
  unfold count_date. change (fun r => DateTime.eqb (date r) (rd_date rd)) with (same_date rd).
  induction table as [|r table IH]; cbn [filter update_first map]; [reflexivity|].
  unfold touch at 1. destruct (same_date rd r).
  - cbn [List.length]. intros H. rewrite map_touch_none; [reflexivity|].
    destruct (filter (same_date rd) table); [reflexivity|cbn in H; lia].
  - intros H. rewrite (IH H). reflexivity.
Qed.

Lemma upsert_loop_closed ks :
  forall table pending n,
    dates_unique table ->
    upsert_loop ks table pending n
    = (map (touch_all ks) table,
       (pending ++ map to_row (filter (is_new table) ks))%list,
       n + Z.of_nat (List.length ks)).
Proof.
  induction ks as [|rd ks IH]; intros table pending n Huniq.
  - cbn [upsert_loop filter map List.length]. rewrite app_nil_r, Z.add_0_r.
    rewrite map_id. reflexivity.
  - cbn [upsert_loop filter]. unfold is_new at 1.
    rewrite (first_filter_existsb (same_date rd) table).
    assert (Hstep : map (touch_all (rd :: ks)) table
                    = map (touch_all ks) (map (touch rd) table))
      by (rewrite map_map; reflexivity).
    assert (Huniq' : dates_unique (map (touch rd) table)).
    { intros d. rewrite (count_date_dates d _ table); [apply Huniq|].
      rewrite map_map. apply map_ext. intros r. apply touch_date. }
    assert (Hnew : filter (is_new (map (touch rd) table)) ks = filter (is_new table) ks).
    { apply filter_ext. intros rd'. unfold is_new. f_equal. apply existsb_dates.
      rewrite map_map. apply map_ext. intros r. apply touch_date. }
    destruct (first (filter (same_date rd) table)) as [old|] eqn:E; cbn [negb].
    + rewrite (update_first_touch rd table (Huniq (rd_date rd))).
      rewrite (IH _ pending (n + 1) Huniq'), Hstep, Hnew.
      f_equal. cbn [List.length]. lia.
    + rewrite Hstep, (map_touch_none rd table (first_filter_None _ _ E)).
      rewrite (IH table _ (n + 1) Huniq), <- app_assoc.
      f_equal. cbn [List.length]. lia.
Qed.

Lemma touch_all_untouched ks r :
  (forall rd, In rd ks -> same_date rd r = false) -> touch_all ks r = r.
Proof.
  induction ks as [|rd ks IH]; intros H; [reflexivity|].
  rewrite touch_all_cons. unfold touch. rewrite (H rd (or_introl eq_refl)).
  apply IH. intros rd' Hrd'. apply H. right; exact Hrd'.
Qed.

Lemma touch_all_overwrites ks rd r :
  NoDup (map (fun rd => instant (rd_date rd)) ks) ->
  In rd ks -> same_date rd r = true ->
  rate (touch_all ks r) = rd_rate rd
  /\ effective_date (touch_all ks r) = rd_effective_date rd.
Proof.
  induction ks as [|rd0 ks IH]; intros Hnd Hin Hr; [contradiction|].
  inversion Hnd as [|? ? Hnotin Hnd']; subst.
  rewrite touch_all_cons.
  assert (Hother : forall rd', In rd' ks ->
                     instant (rd_date rd') <> instant (rd_date rd0)).
  { intros rd' Hrd' Heq. apply Hnotin. rewrite <- Heq.
    apply (in_map (fun rd => instant (rd_date rd))). exact Hrd'. }
  destruct Hin as [->|Hin].
  - unfold touch. rewrite Hr. rewrite touch_all_untouched; [split; reflexivity|].
    intros rd' Hrd'. unfold same_date, DateTime.eqb in *. cbn [overwrite date].
    apply Z.eqb_eq in Hr. apply Z.eqb_neq. specialize (Hother rd' Hrd'). lia.
  - assert (Hmiss : same_date rd0 r = false).
    { unfold same_date, DateTime.eqb in *. apply Z.eqb_eq in Hr. apply Z.eqb_neq.
      specialize (Hother rd Hin). lia. }
    unfold touch. rewrite Hmiss. exact (IH Hnd' Hin Hr).
Qed.

(** X17. Where neither the table nor the fetched points hold an
    announcement date twice, every fetched point is found again after the
    upsert: the table holds a row of its announcement date, and every row
    of that date carries the rate and the effective date of the point. *)
Theorem upsert_then_lookup ks db rd :
  dates_unique db ->
  NoDup (map (fun rd => instant (rd_date rd)) ks) ->
  In rd ks ->
  (exists r, In r (fst (upsert_rates ks db)) /\ same_date rd r = true)
  /\ forall r, In r (fst (upsert_rates ks db)) -> same_date rd r = true ->
               rate r = rd_rate rd /\ effective_date r = rd_effective_date rd.
Proof.
  intros Hdb Hks Hin. unfold upsert_rates.
  rewrite (upsert_loop_closed ks db [] 0 Hdb). cbn [fst app].
  split.
  - destruct (existsb (same_date rd) db) eqn:Eex.
    + apply existsb_exists in Eex. destruct Eex as (r & Hr & Hsame).
      exists (touch_all ks r). split.
      * apply in_or_app. left. apply in_map. exact Hr.
      * unfold same_date in *. rewrite touch_all_date. exact Hsame.
    + exists (to_row rd). split.
      * apply in_or_app. right. apply in_map. apply filter_In. split; [exact Hin|].
        unfold is_new. rewrite Eex. reflexivity.
      * unfold same_date, to_row, DateTime.eqb. cbn [date]. apply Z.eqb_refl.
  - intros r Hr Hsame. apply in_app_or in Hr. destruct Hr as [Hr|Hr].
    + apply in_map_iff in Hr. destruct Hr as (r0 & <- & Hr0).
      apply touch_all_overwrites; [exact Hks|exact Hin|].
      unfold same_date in *. rewrite touch_all_date in Hsame. exact Hsame.
    + apply in_map_iff in Hr. destruct Hr as (rd' & <- & Hrd').
      apply filter_In in Hrd'. destruct Hrd' as (Hrd' & _).
      assert (rd' = rd) as ->; [|split; reflexivity].
      apply (NoDup_map_injective (fun rd => instant (rd_date rd)) ks); auto.
      unfold same_date, to_row, DateTime.eqb in Hsame. cbn [date] in Hsame.
      apply Z.eqb_eq in Hsame. exact Hsame.
Qed.

End UpsertMore.

(** ** Fetching and saving *)

Section FetchFacts.
Context {R : Type} {num : Number R}.
Implicit Types (db : list (CBRKeyRate (R := R))) (f : Fetched (R := R)).

Lemma nonempty_false {X : Type} (l : list X) : nonempty l = false <-> l = [].
Proof. destruct l; cbn [nonempty]; split; congruence. Qed.

Lemma fetch_cascade_cases f a b :
  fetch_cascade f a b
  = if nonempty (soap f) then soap f
    else if nonempty (filter (in_range a b) (rest f))
         then filter (in_range a b) (rest f)
         else filter (in_range a b) (xml f).
Proof.
  unfold fetch_cascade.
  destruct (soap f) as [|s l]; cbn [nonempty]; [|reflexivity].
  destruct (rest f) as [|s l].
  - cbn [nonempty filter]. destruct (xml f); reflexivity.
  - cbn [nonempty].
    destruct (nonempty (filter (in_range a b) (s :: l))); [reflexivity|].
    destruct (xml f); reflexivity.
Qed.

(** X18. An update of the key rates fails, with the message that the
    data could not be fetched, exactly when the first source answers
    nothing and the two others answer nothing within the window; a table is
    returned in every other case.  What the first source answers is stored
    as it is, without the test on the window. *)
Theorem update_fails_without_points db f a b :
  (update_key_rates db f a b = Raise (Exception_ fetch_failed)
   <-> soap f = [] /\ filter (in_range a b) (rest f) = []
       /\ filter (in_range a b) (xml f) = [])
  /\ (soap f <> [] -> update_key_rates db f a b = Ok (upsert_rates (soap f) db)).
Proof.
  unfold update_key_rates. rewrite fetch_cascade_cases. split.
  - destruct (soap f) as [|s l]; cbn [nonempty].
    + destruct (filter (in_range a b) (rest f)) as [|s l]; cbn [nonempty].
      * destruct (filter (in_range a b) (xml f)) as [|s l]; cbn [nonempty negb].
        -- tauto.
        -- split; [discriminate|]. intros (_ & _ & H). discriminate.
      * cbn [negb]. split; [discriminate|]. intros (_ & H & _). discriminate.
    + cbn [negb]. split; [discriminate|]. intros (H & _). discriminate.
  - intros Hs. destruct (soap f) as [|s l]; [contradiction|]. reflexivity.
Qed.

End FetchFacts.

Section SavedSchedules.
Context {R : Type} {num : Number R}.
Implicit Types (c : StoredCredit (R := R)) (p : PaymentSchedule (R := R))
         (table : list (PaymentSchedule (R := R))).

Lemma save_loop_raises c credit_id es :
  forall i, Exists (fun parsed => exists e, parsed = Raise e) es ->
            exists e, save_loop c credit_id i es = Raise e.
Proof.
  induction es as [|parsed es IH]; intros i H; [inversion H|].
  cbn [save_loop]. destruct parsed as [entry|e]; cbn [bind]; [|eexists; reflexivity].
  inversion H as [? ? (e & He)|? ? Hes]; subst; [discriminate|].
  destruct (IH (i + 1) Hes) as (e & ->). eexists; reflexivity.
Qed.

(** X21. Saving a schedule with no entry, or with an entry that cannot
    be parsed, answers 500 and leaves the table as it was: the rows of the
    credit are still there.  The status 400 written for the empty list is
    never the answer. *)
Theorem save_rejects_and_rolls_back c credit_id es table :
  es = [] \/ Exists (fun parsed => exists e, parsed = Raise e) es ->
  save_payment_schedule (Some c) credit_id es table
  = (table, Raise (HTTPException 500)).
Proof.
  intros [->|H]; unfold save_payment_schedule; [reflexivity|].
  destruct es as [|parsed es]; [inversion H|]. cbn [nonempty negb].
  destruct (save_loop_raises c credit_id (parsed :: es) 0 H) as (e & ->). reflexivity.
Qed.

Lemma save_loop_saved c credit_id entries :
  forall i,
  exists saved,
    save_loop c credit_id i (map Ok entries) = Ok saved
    /\ List.length saved = List.length entries
    /\ forall k p, nth_error saved k = Some p ->
         exists entry, nth_error entries k = Some entry
           /\ credit_obligation_id p = credit_id
           /\ period_number p = i + Z.of_nat k + 1
           /\ period_start_date p = se_period_start entry
           /\ period_end_date p = se_period_end entry
           /\ payment_date p = se_payment_date entry
           /\ principal_amount p = se_outstanding_balance entry
           /\ interest_rate p = Some (total_rate c)
           /\ settled p.
Proof.
  induction entries as [|entry entries IH]; intros i.
  - exists []. cbn [map save_loop List.length]. repeat split.
    intros [|k] p; discriminate.
  - destruct (IH (i + 1)) as (saved & Hsaved & Hlen & Hnth).
    cbn [map save_loop bind]. rewrite Hsaved.
    eexists. split; [reflexivity|]. split; [cbn [List.length]; rewrite Hlen; reflexivity|].
    intros [|k] p; cbn [nth_error].
    + intros [= <-]. exists entry. split; [reflexivity|].
      match goal with
      | |- context [calculate_financials ?q] =>
          destruct (calculate_financials_frame q) as (H1 & H2 & H3 & H4 & H5);
          pose proof (calculate_financials_settled q eq_refl eq_refl) as H6
      end.
      cbv zeta in H1, H2, H3, H4, H5. rewrite H1, H2, H3, H4, H5.
      cbn [period_start_date period_end_date payment_date principal_amount period_number].
      repeat split; try reflexivity; try exact H6; try lia.
      * unfold calculate_financials.
        repeat match goal with
               | |- context [if ?b then _ else _] => destruct b
               | |- context [match ?o with Some _ => _ | None => _ end] => destruct o
               end; reflexivity.
      * unfold calculate_financials.
        repeat match goal with
               | |- context [if ?b then _ else _] => destruct b
               | |- context [match ?o with Some _ => _ | None => _ end] => destruct o
               end; reflexivity.
    + intros Hk. destruct (Hnth k p Hk) as (entry' & He & H).
      exists entry'. split; [exact He|].
      replace (i + Z.of_nat (S k) + 1) with (i + 1 + Z.of_nat k + 1) by lia. exact H.
Qed.

(** X22. Saving a schedule whose entries all parse replaces the rows of
    the credit: the rows of the other credits stay, in their order, the
    former rows of the credit are gone, and after them the entries follow
    as periods numbered from 1 in the order given, at the total rate of the
    credit, each with its payment settled; the answer counts them. *)
Theorem save_replaces_the_schedule c credit_id entries table :
  entries <> [] ->
  exists saved,
    save_payment_schedule (Some c) credit_id (map Ok entries) table
    = ((filter (fun p => negb (credit_obligation_id p =? credit_id)) table ++ saved)%list,
       Ok (Z.of_nat (List.length entries)))
    /\ schedule_of_credit credit_id (fst (save_payment_schedule (Some c) credit_id
                                            (map Ok entries) table)) = saved
    /\ List.length saved = List.length entries
    /\ forall k p, nth_error saved k = Some p ->
         exists entry, nth_error entries k = Some entry
           /\ period_number p = Z.of_nat k + 1
           /\ period_start_date p = se_period_start entry
           /\ period_end_date p = se_period_end entry
           /\ payment_date p = se_payment_date entry
           /\ principal_amount p = se_outstanding_balance entry
           /\ interest_rate p = Some (total_rate c)
           /\ settled p.
Proof.
  intros Hne. destruct (save_loop_saved c credit_id entries 0) as (saved & Hsaved & Hlen & Hnth).
  exists saved. unfold save_payment_schedule.
  destruct entries as [|entry entries]; [contradiction|].
  cbn [map nonempty negb]. cbn [map] in Hsaved. rewrite Hsaved. cbn [bind fst].
  rewrite Hlen. split; [reflexivity|]. split; [|split; [reflexivity|]].
  - unfold schedule_of_credit. rewrite filter_app.
    rewrite filter_none.
    + cbn [app]. apply filter_all. intros p Hp.
      destruct (In_nth_error _ _ Hp) as (k & Hk).
      destruct (Hnth k p Hk) as (_ & _ & Hid & _). apply Z.eqb_eq. exact Hid.
    + intros p Hp. apply filter_In in Hp. destruct Hp as (_ & Hp).
      apply negb_true_iff in Hp. exact Hp.
  - intros k p Hk. destruct (Hnth k p Hk) as (e & He & _ & Hn & H).
    exists e. split; [exact He|]. split; [lia|exact H].
Qed.

End SavedSchedules.

(** ** Created credits *)

Section CreatedCredits.
Context {R : Type} {num : Number R}.

Lemma generate_frequency (credit : CreditObligation (R := R)) v v' table o :
  month_increment_of v = month_increment_of v' ->
  generate_payment_schedule (with_frequency v credit) table o
  = generate_payment_schedule (with_frequency v' credit) table o.
Proof.
  intros H. unfold generate_payment_schedule, generate_payment_schedule_fuel.
  cbn [with_frequency start_date].
  rewrite (schedule_loop_frequency 101 credit o v v' H). reflexivity.
Qed.

Lemma generate_total (credit : CreditObligation (R := R)) table o :
  exists r, generate_payment_schedule credit table o = Some r.
Proof.
  destruct (schedule_loop_enough 101 credit o (start_date credit) 1 [])
    as (r & Hr & _); [lia|lia|].
  unfold generate_payment_schedule, generate_payment_schedule_fuel. rewrite Hr.
  destruct r as [[es log]|e]; [destruct (nonempty es)|]; eexists; reflexivity.
Qed.

(** X23. Creating a credit stores it with the sum of base rate and
    spread as total rate and, whatever payment frequency the request
    declares, with the schedule of a monthly credit: the frequency of the
    request is a member of the enum of the schema, which is no key of the
    table of increments.  When the generation raises, the credit is stored
    without a schedule. *)
Theorem created_schedule_is_monthly (credit_data : CreditObligationCreate (R := R))
        new_id table :
  exists stored,
    create_credit_obligation credit_data new_id table
    = Some (stored,
            match generate_payment_schedule
                    (with_frequency (Frequency MONTHLY) (terms stored)) table None with
            | Some (Ok g) => flushed g
            | _ => table
            end)
    /\ total_rate stored
       = num_add (cd_base_rate_value credit_data) (cd_credit_spread credit_data)
    /\ start_date (terms stored) = cd_start_date credit_data
    /\ end_date (terms stored) = cd_end_date credit_data
    /\ principal (terms stored) = cd_principal_amount credit_data.
Proof.
  unfold create_credit_obligation.
  set (credit := mk_CreditObligation _ _ _ _ _ _ _ _ _ _).
  set (stored := mk_StoredCredit credit _ _ _).
  exists stored. cbn [terms stored total_rate].
  assert (Hfreq : generate_payment_schedule credit table None
                  = generate_payment_schedule
                      (with_frequency (Frequency MONTHLY) credit) table None).
  { change credit with
      (with_frequency
         (NotAFrequency (schema_frequency_text (cd_payment_frequency credit_data))) credit)
      at 1.
    apply generate_frequency. reflexivity. }
  rewrite <- Hfreq.
  destruct (generate_total credit table None) as (r & Hr). rewrite Hr.
  split; [|repeat split].
  destruct r as [g|e]; reflexivity.
Qed.

End CreatedCredits.

(** ** The further properties on sample data *)

Section MoreSampleFacts.
Import Samples MoreSamples.

(** X1 on the scenario of the specification. *)
Lemma credit_2024_periods_numbered :
  exists g,
    generate_payment_schedule credit_2024 [] None = Some (Ok g)
    /\ forall i p, nth_error (entries g) i = Some p ->
         period_number p = Z.of_nat i + 1
         /\ credit_obligation_id p = credit_id credit_2024
         /\ principal_amount p = principal credit_2024
         /\ base_rate p = Some (base_rate_value credit_2024)
         /\ spread p = Some (credit_spread credit_2024)
         /\ interest_rate p
            = Some (num_add (base_rate_value credit_2024) (credit_spread credit_2024))
         /\ payment_date p = period_end_date p
         /\ period_days p = Some (sub_days (period_end_date p) (period_start_date p)).
Proof.
  destruct (generate_payment_schedule credit_2024 [] None) as [[g|e]|] eqn:Hg;
    [|vm_compute in Hg; discriminate|vm_compute in Hg; discriminate].
  exists g. split; [reflexivity|].
  exact (generated_periods_numbered credit_2024 [] None g Hg).
Defined.

(** X2 on a period that starts on 31 January 2024 with payment day 31:
    it ends on 29 February. *)
Lemma january_31_ends_in_february :
  valid (ymd 2024 1 31) = true
  /\ next_period_end credit_2024 (Some 31) (ymd 2024 1 31)
     = expected_period_end credit_2024 (Some 31) (ymd 2024 1 31)
  /\ expected_period_end credit_2024 (Some 31) (ymd 2024 1 31) = Ok (ymd 2024 2 29).
Proof.
  split; [reflexivity|]. split; [|reflexivity].
  exact (period_end_by_month_arithmetic credit_2024 (Some 31) (ymd 2024 1 31) eq_refl).
Defined.

(** X3 on the scenario of the specification. *)
Lemma credit_2024_periods_advance :
  valid (start_date credit_2024) = true /\ valid (end_date credit_2024) = true
  /\ exists g,
       generate_payment_schedule credit_2024 [] None = Some (Ok g)
       /\ forall p, In p (entries g) ->
            valid (period_start_date p) = true
            /\ valid (period_end_date p) = true
            /\ instant (start_date credit_2024) <= instant (period_start_date p)
            /\ instant (period_start_date p) < instant (period_end_date p)
            /\ instant (period_end_date p) <= instant (end_date credit_2024)
            /\ exists d, period_days p = Some d /\ 0 <= d.
Proof.
  split; [reflexivity|]. split; [reflexivity|].
  destruct (generate_payment_schedule credit_2024 [] None) as [[g|e]|] eqn:Hg;
    [|vm_compute in Hg; discriminate|vm_compute in Hg; discriminate].
  exists g. split; [reflexivity|].
  exact (generated_periods_advance credit_2024 [] None g eq_refl eq_refl Hg).
Defined.

(** X4 on the scenario of the specification, with payment day 31. *)
Lemma credit_2024_generation_succeeds :
  valid (start_date credit_2024) = true /\ valid (end_date credit_2024) = true
  /\ year (end_date credit_2024) <= 9998
  /\ exists g, generate_payment_schedule credit_2024 [] (Some 31) = Some (Ok g).
Proof.
  assert (H : year (end_date credit_2024) <= 9998) by (vm_compute; discriminate).
  split; [reflexivity|]. split; [reflexivity|]. split; [exact H|].
  exact (generation_succeeds_on_valid_dates credit_2024 [] (Some 31) eq_refl eq_refl H).
Defined.

(** X5 on the scenario of the specification in exact arithmetic: the
    twelve periods of 2024 carry the interest of its 366 days. *)
Lemma credit_2024_interest_adds_up :
  at_midnight (start_date credit_2024_exact)
  /\ at_midnight (end_date credit_2024_exact)
  /\ instant (start_date credit_2024_exact) <= instant (end_date credit_2024_exact)
  /\ exists g,
       generate_payment_schedule credit_2024_exact [] None = Some (Ok g)
       /\ (List.length (entries g) < 100)%nat
       /\ calculate_payment_schedule_interest (entries g)
          = calculate_interest_amount (principal credit_2024_exact)
              (num_add (base_rate_value credit_2024_exact)
                       (credit_spread credit_2024_exact))
              366.
Proof.
  assert (H : instant (start_date credit_2024_exact)
              <= instant (end_date credit_2024_exact)) by (vm_compute; discriminate).
  assert (Hlen : option_map
                   (fun r => match r with
                             | Ok g => List.length (entries g)
                             | Raise _ => 100%nat
                             end)
                   (generate_payment_schedule credit_2024_exact [] None) = Some 12%nat)
    by (vm_compute; reflexivity).
  split; [reflexivity|]. split; [reflexivity|]. split; [exact H|].
  destruct (generate_payment_schedule credit_2024_exact [] None) as [[g|e]|] eqn:Hg;
    [|discriminate|discriminate].
  injection Hlen as Hlen.
  assert (Hlt : (List.length (entries g) < 100)%nat) by (rewrite Hlen; repeat constructor).
  exists g. split; [reflexivity|]. split; [exact Hlt|].
  exact (generated_interest_adds_up credit_2024_exact [] None g eq_refl eq_refl H Hg Hlt).
Defined.

(** X6 on the scenario of the specification. *)
Lemma credit_2024_payments_are_interest :
  exists g,
    generate_payment_schedule credit_2024 [] None = Some (Ok g)
    /\ Forall settled (entries g).
Proof.
  destruct (generate_payment_schedule credit_2024 [] None) as [[g|e]|] eqn:Hg;
    [|vm_compute in Hg; discriminate|vm_compute in Hg; discriminate].
  exists g. split; [reflexivity|].
  exact (generated_payments_are_interest credit_2024 [] None g Hg).
Defined.

(** X7 on the July period, recalculated against [store_june]. *)
Lemma july_stays_settled :
  Forall settled [period_july]
  /\ Forall settled
       (fst (recalculate_interest_with_historical_rates (Some credit_2024)
               [period_july] store_june new_year_2025)).
Proof.
  assert (H : Forall settled [period_july])
    by (repeat constructor; vm_compute; reflexivity).
  split; [exact H|].
  exact (recalculation_keeps_payments_settled (Some credit_2024) [period_july]
           store_june new_year_2025 H).
Defined.

(** X8 on a table with the two sample periods of the credit 1. *)
Lemma sample_summary_totals_agree :
  Forall settled (schedule_of_credit 1 [period_january; period_july])
  /\ exists s,
       get_schedule_summary (Some stored_2024) 1 [period_january; period_july] = Ok s
       /\ total_payments s = total_interest s.
Proof.
  assert (H : Forall settled (schedule_of_credit 1 [period_january; period_july]))
    by (repeat constructor; vm_compute; reflexivity).
  split; [exact H|].
  eexists. split; [reflexivity|].
  exact (summary_totals_agree (Some stored_2024) 1 [period_january; period_july] _
           H eq_refl).
Defined.

(** X9 on a credit indexed on LIBOR. *)
Lemma libor_credit_is_skipped :
  String.eqb (base_rate_indicator credit_libor) "KEY_RATE" = false
  /\ [period_january; period_july] <> []
  /\ recalculate_interest_with_historical_rates (Some credit_libor)
       [period_january; period_july] store_june new_year_2025
     = ([period_january; period_july],
        Ok (map unchanged_entry [period_january; period_july])).
Proof.
  assert (H : [period_january; period_july] <> []) by discriminate.
  split; [reflexivity|]. split; [exact H|].
  exact (recalculation_skips_other_indicators credit_libor [period_january; period_july]
           store_june new_year_2025 eq_refl H).
Defined.


(** X13 on the store of three points, whose rates lie between 10 and
    30. *)
Lemma store_three_average_within_bounds :
  (forall r, In r (store_three (R := Qc)) ->
             (Q2Qc (inject_Z 10) <= rate r)%Qc /\ (rate r <= Q2Qc (inject_Z 30))%Qc)
  /\ exists v,
       get_average_key_rate_for_period (R := Qc) store_three (day 0) (day 30) = Some v
       /\ (Q2Qc (inject_Z 10) <= v)%Qc /\ (v <= Q2Qc (inject_Z 30))%Qc.
Proof.
  assert (H : forall r, In r (store_three (R := Qc)) ->
                (Q2Qc (inject_Z 10) <= rate r)%Qc /\ (rate r <= Q2Qc (inject_Z 30))%Qc)
    by (intros r [<-|[<-|[<-|[]]]]; split; vm_compute; discriminate).
  split; [exact H|].
  destruct (get_average_key_rate_for_period (R := Qc) store_three (day 0) (day 30))
    as [v|] eqn:E; [|vm_compute in E; discriminate].
  exists v. split; [reflexivity|].
  exact (average_within_rate_bounds _ _ store_three (day 0) (day 30) v H E).
Defined.

(** X14 on July 2024, during which no row of [store_june] takes
    effect. *)
Lemma july_average_is_rate_on_first_day :
  (forall r, In r store_june ->
             ~ (instant (ymd 2024 7 1) <= instant (effective_date r)
                <= instant (ymd 2024 7 31)))
  /\ get_average_key_rate_for_period store_june (ymd 2024 7 1) (ymd 2024 7 31)
     = get_key_rate_on_date store_june (ymd 2024 7 1).
Proof.
  assert (H : forall r, In r store_june ->
                ~ (instant (ymd 2024 7 1) <= instant (effective_date r)
                   <= instant (ymd 2024 7 31)))
    by (intros r [<-|[]] [H _]; vm_compute in H; apply H; reflexivity).
  split; [exact H|].
  exact (average_of_quiet_period store_june (ymd 2024 7 1) (ymd 2024 7 31) H).
Defined.

Lemma store_june_dates_unique : dates_unique store_june.
Proof.
  intros d. unfold count_date, store_june. cbn [filter].
  destruct (DateTime.eqb _ d); cbn [List.length]; repeat constructor.
Defined.

Lemma batch_dates_distinct :
  NoDup (map (fun rd : RateData (R := float) => instant (rd_date rd)) [point_b; point_c]).
Proof.
  constructor; [|constructor; [intros []|constructor]].
  intros [H|[]]. vm_compute in H. discriminate.
Defined.

(** X16 on [store_june] and a batch of two points. *)
Lemma upsert_june_keeps_dates_unique :
  dates_unique store_june
  /\ NoDup (map (fun rd : RateData (R := float) => instant (rd_date rd))
              [point_b; point_c])
  /\ dates_unique (fst (upsert_rates [point_b; point_c] store_june)).
Proof.
  split; [exact store_june_dates_unique|]. split; [exact batch_dates_distinct|].
  exact (upsert_keeps_dates_unique [point_b; point_c] store_june
           store_june_dates_unique batch_dates_distinct).
Defined.

(** X17 on [store_june] and a batch of two points: the row of 1 June
    carries the rate 18 of [point_b]. *)
Lemma upsert_june_then_lookup :
  dates_unique store_june
  /\ NoDup (map (fun rd : RateData (R := float) => instant (rd_date rd))
              [point_b; point_c])
  /\ In point_b [point_b; point_c]
  /\ (exists r, In r (fst (upsert_rates [point_b; point_c] store_june))
                /\ same_date point_b r = true)
  /\ forall r, In r (fst (upsert_rates [point_b; point_c] store_june)) ->
               same_date point_b r = true ->
               rate r = rd_rate point_b /\ effective_date r = rd_effective_date point_b.
Proof.
  assert (H : In point_b [point_b; point_c]) by (left; reflexivity).
  split; [exact store_june_dates_unique|]. split; [exact batch_dates_distinct|].
  split; [exact H|].
  exact (upsert_then_lookup [point_b; point_c] store_june point_b
           store_june_dates_unique batch_dates_distinct H).
Defined.

(** X21 on an empty list of entries and on an entry that does not
    parse. *)
Lemma save_of_nothing_answers_500 :
  (@nil (result (ScheduleEntry (R := float))) = []
   \/ Exists (fun parsed => exists e, parsed = Raise e)
             (@nil (result (ScheduleEntry (R := float)))))
  /\ save_payment_schedule (Some stored_2024) 1 [] [period_january; period_july]
     = ([period_january; period_july], Raise (HTTPException 500)).
Proof.
  assert (H : @nil (result (ScheduleEntry (R := float))) = []
              \/ Exists (fun parsed => exists e, parsed = Raise e)
                        (@nil (result (ScheduleEntry (R := float)))))
    by (left; reflexivity).
  split; [exact H|].
  exact (save_rejects_and_rolls_back stored_2024 1 [] [period_january; period_july] H).
Defined.

(** X22 on one entry saved over the two sample periods: they are
    replaced by one period. *)
Lemma save_of_one_entry_replaces :
  [entry_q1] <> []
  /\ exists saved,
       save_payment_schedule (Some stored_2024) 1 (map Ok [entry_q1])
         [period_january; period_july]
       = (saved, Ok 1)
       /\ List.length saved = 1%nat.
Proof.
  assert (H : [entry_q1] <> []) by discriminate.
  split; [exact H|].
  destruct (save_replaces_the_schedule stored_2024 1 [entry_q1]
              [period_january; period_july] H) as (saved & Heq & _ & Hlen & _).
  exists saved. split; [|exact Hlen].
  rewrite Heq. reflexivity.
Defined.

(** The request for a quarterly credit over 2024 is stored with the
    twelve periods of a monthly one. *)
Example quarterly_request_gets_monthly_periods :
  option_map (fun stored_and_table => List.length (snd stored_and_table))
    (create_credit_obligation request_quarterly 7 [])
  = Some 12%nat.
Proof. vm_compute. reflexivity. Qed.

End MoreSampleFacts.

(** ** Ties, the cap and part days on sample data *)

Section BoundaryFacts.
Import Samples MoreSamples.

(** C5 on the ten-year monthly credit: the loop can make its first 100
    passes, and the generator returns these 100 periods with the warning. *)
Lemma ten_year_credit_stops_at_the_cap :
  exists l,
    periods_from credit_10y None (start_date credit_10y) 1 l
    /\ List.length l = 100%nat
    /\ generate_payment_schedule credit_10y [] None
       = Some (Ok (mk_Generated l ([] ++ l)%list [too_many_periods])).
Proof.
  assert (Hlen : option_map
                   (fun r => match r with
                             | Ok g => List.length (entries g)
                             | Raise _ => 0%nat
                             end)
                   (generate_payment_schedule credit_10y [] None) = Some 100%nat)
    by (vm_compute; reflexivity).
  destruct (generate_payment_schedule credit_10y [] None) as [[g|e]|] eqn:Hg;
    [|discriminate|discriminate].
  injection Hlen as Hlen.
  pose proof (generate_periods credit_10y [] None g Hg) as Hp.
  exists (entries g). split; [exact Hp|]. split; [exact Hlen|].
  rewrite <- Hg.
  exact (proj2 (proj2 (generation_terminates_within_cap credit_10y [] None))
           (entries g) Hp Hlen).
Defined.

(** The amended C9 on the store of the second averaging example, whose
    two effective dates differ, on day 5. *)
Lemma store_gap_answers_are_fixed :
  NoDup (map (fun r => instant (effective_date r)) (store_gap (R := float)))
  /\ get_average_key_rate_for_period (R := float) store_gap (day 5) (day 5)
     = get_key_rate_on_date store_gap (day 5)
  /\ rate_on_date_answers (R := float) store_gap (day 5)
     = [get_key_rate_on_date store_gap (day 5)]
  /\ average_at_answers (R := float) store_gap (day 5)
     = [get_average_key_rate_for_period store_gap (day 5) (day 5)]
  /\ get_key_rate_on_date (R := float) store_gap (day 5) = Some 15%float.
Proof.
  assert (H : NoDup (map (fun r => instant (effective_date r))
                         (store_gap (R := float)))).
  { constructor; [|constructor; [intros []|constructor]].
    intros [H|[]]. vm_compute in H. discriminate. }
  split; [exact H|].
  destruct (proj1 (degenerate_range_is_rate_on_date store_gap (day 5)) H)
    as (H1 & H2 & H3).
  split; [exact H1|]. split; [exact H2|]. split; [exact H3|]. reflexivity.
Defined.

(** C9, as stated, fails: after one upsert of two points of one date into
    the empty table, two rows share the effective date 2024-06-03; either
    may be the first row of the ascending and of the descending query, so
    the average over that one day may be 16 while the rate on it is 18. *)
Lemma tied_rows_answer_differently :
  fst (upsert_rates [point_a; point_b] []) = store_tied
  /\ rate_on_date_answers store_tied (ymd 2024 6 3) = [Some 16%float; Some 18%float]
  /\ average_at_answers store_tied (ymd 2024 6 3) = [Some 16%float; Some 18%float]
  /\ ~ (forall (db : list (CBRKeyRate (R := float))) d v w,
           In v (average_at_answers db d) -> In w (rate_on_date_answers db d) ->
           v = w).
Proof.
  split; [reflexivity|]. split; [reflexivity|]. split; [reflexivity|].
  intros H.
  specialize (H store_tied (ymd 2024 6 3) (Some 16%float) (Some 18%float)
                (or_introl eq_refl) (or_intror (or_introl eq_refl))).
  apply (f_equal (fun answer => match answer with
                                | Some x => PrimFloat.ltb x 18
                                | None => false
                                end)) in H.
  vm_compute in H. discriminate.
Qed.

(** C4, as stated, fails off midnight: durations are counted in whole
    days.  From noon of day 0 to noon of day 2 the rate is 10 for 12 hours
    and 20 for 36 hours, a weighted average of 17.5, and a mean of the rate
    on the two days of 15; the answer is 20.  From noon of day 0 to noon of
    day 1, with a rate in force at every moment, the answer is [None]. *)
Lemma average_off_midnight_drops_part_days :
  Forall (fun r => at_midnight (effective_date r)) (store_noon (R := Qc))
  /\ NoDup (map (fun r => instant (effective_date r)) (store_noon (R := Qc)))
  /\ instant (noon 0) < instant (noon 2)
  /\ Z.of_nat (List.length [noon 0; noon 1]) = sub_days (noon 2) (noon 0)
  /\ successive_days (noon 0) [noon 0; noon 1]
  /\ get_key_rate_on_date (R := Qc) store_noon (noon 0) = Some (Q2Qc (inject_Z 10))
  /\ get_key_rate_on_date (R := Qc) store_noon (ymd 2024 1 2) = Some (Q2Qc (inject_Z 20))
  /\ get_average_key_rate_for_period (R := Qc) store_noon (noon 0) (noon 2)
     = Some (Q2Qc (inject_Z 20))
  /\ mean_of_defined (map (get_key_rate_on_date store_noon) [noon 0; noon 1])
     = Some (Q2Qc (inject_Z 15))
  /\ ((Q2Qc (inject_Z 10) * Q2Qc (inject_Z 12) + Q2Qc (inject_Z 20) * Q2Qc (inject_Z 36))
      / Q2Qc (inject_Z 48) = Q2Qc (35 # 2))%Qc
  /\ get_average_key_rate_for_period (R := Qc) store_noon (noon 0) (noon 1) = None
  /\ get_average_key_rate_for_period (R := float) store_noon (noon 0) (noon 2)
     = Some 20%float
  /\ get_average_key_rate_for_period (R := float) store_noon (noon 0) (noon 1) = None
  /\ ~ (forall (db : list (CBRKeyRate (R := Qc))) (a b : datetime) (days : list datetime),
           Forall (fun r => at_midnight (effective_date r)) db ->
           NoDup (map (fun r => instant (effective_date r)) db) ->
           instant a < instant b ->
           Z.of_nat (List.length days) = sub_days b a ->
           successive_days a days ->
           get_average_key_rate_for_period db a b
           = mean_of_defined (map (get_key_rate_on_date db) days)).
Proof.
  assert (H1 : Forall (fun r => at_midnight (effective_date r)) (store_noon (R := Qc)))
    by (repeat constructor).
  assert (H2 : NoDup (map (fun r => instant (effective_date r)) (store_noon (R := Qc)))).
  { constructor; [|constructor; [intros []|constructor]].
    intros [H|[]]. vm_compute in H. discriminate. }
  assert (H3 : instant (noon 0) < instant (noon 2)) by (vm_compute; reflexivity).
  assert (H4 : Z.of_nat (List.length [noon 0; noon 1]) = sub_days (noon 2) (noon 0))
    by (vm_compute; reflexivity).
  assert (H5 : successive_days (noon 0) [noon 0; noon 1]).
  { intros [|[|[|k]]] x H; simpl in H; try discriminate;
      injection H as <-; vm_compute; reflexivity. }
  assert (H6 : get_average_key_rate_for_period (R := Qc) store_noon (noon 0) (noon 2)
               = Some (Q2Qc (inject_Z 20)))
    by (vm_compute; f_equal; apply Qc_is_canon; reflexivity).
  assert (H7 : mean_of_defined (map (get_key_rate_on_date store_noon) [noon 0; noon 1])
               = Some (Q2Qc (inject_Z 15)))
    by (vm_compute; f_equal; apply Qc_is_canon; reflexivity).
  split; [exact H1|]. split; [exact H2|]. split; [exact H3|]. split; [exact H4|].
  split; [exact H5|].
  split; [vm_compute; f_equal; apply Qc_is_canon; reflexivity|].
  split; [vm_compute; f_equal; apply Qc_is_canon; reflexivity|].
  split; [exact H6|]. split; [exact H7|].
  split; [apply Qc_is_canon; vm_compute; reflexivity|].
  split; [vm_compute; reflexivity|].
  split; [vm_compute; reflexivity|].
  split; [vm_compute; reflexivity|].
  intros H. specialize (H store_noon (noon 0) (noon 2) [noon 0; noon 1] H1 H2 H3 H4 H5).
  rewrite H6, H7 in H. apply (f_equal (option_map this)) in H.
  vm_compute in H. discriminate.
Qed.

End BoundaryFacts.
